(** * one-api relay gateway: quota settlement, racing dispatcher,
      leader election and realtime sync

    A shallow embedding of the Go sources

    - [controller] ([relayTextHelper], [asyncHTTPDo]),
    - [election]   ([StartLeaderElection], [makeNodeID]),
    - [realtime]   ([StartRealtimeSync] and the two reload shells),
    - [model]      ([Channel] and its accessors, [GetEnableChannels] and the
                    cache behind it, [GetChannelById], [DeleteDisabledChannel]),

    together with the properties the specification states about them.

    Conventions.  Go [string]s are byte strings and are modelled by
    [string]; Go [int]/[int64] values are modelled by [Z], with the 64-bit
    wrap-around written out in [GoInt]; Go maps are [gmap]s; a [float64] is
    a binary64 number of IEEE 754 ([float]), every operation on it rounded
    to the nearest value, ties to even; [x*y + z] is rounded once where the
    platform fuses it ([controller.mul_add]). *)

From Stdlib Require Import ZArith QArith Qround Lqa String Ascii List Lia Floats.
From stdpp Require Import gmap strings list fin_maps.

Open Scope Z_scope.

(** ** Go machine integers

    [int] is 64 bits wide on the platforms the service is built for
    (amd64, arm64); [int64] and [time.Duration] are so everywhere. *)

Module GoInt.

Definition int_min : Z := - 2 ^ 63.
Definition int_max : Z := 2 ^ 63 - 1.

(** Two's-complement reduction of a mathematical integer to [int64]. *)
Definition wrap (x : Z) : Z := (x + 2 ^ 63) mod 2 ^ 64 - 2 ^ 63.

Definition in_range (x : Z) : Prop := int_min <= x <= int_max.

Definition add (x y : Z) : Z := wrap (x + y).
Definition sub (x y : Z) : Z := wrap (x - y).
Definition mul (x y : Z) : Z := wrap (x * y).
(** Go's [/] truncates toward zero. *)
Definition div (x y : Z) : Z := wrap (Z.quot x y).

End GoInt.

(** ** The fragment of Go's [strings] package the sources call *)

Module GoStrings.

Fixpoint take (n : nat) (s : string) : string :=
  match n, s with
  | S k, String c r => String c (take k r)
  | _, _ => EmptyString
  end.

Fixpoint drop (n : nat) (s : string) : string :=
  match n, s with
  | S k, String _ r => drop k r
  | _, _ => s
  end.

(** [s[lo:hi]] and [s[lo:]] for in-range bounds. *)
Definition slice (s : string) (lo hi : nat) : string := take (hi - lo) (drop lo s).
Definition slice_from (s : string) (lo : nat) : string := drop lo s.

Definition HasPrefix (s prefix : string) : bool :=
  (String.length prefix <=? String.length s)%nat
  && String.eqb (slice s 0 (String.length prefix)) prefix.

Definition HasSuffix (s suffix : string) : bool :=
  (String.length suffix <=? String.length s)%nat
  && String.eqb (slice_from s (String.length s - String.length suffix)) suffix.

Definition TrimPrefix (s prefix : string) : string :=
  if HasPrefix s prefix then slice_from s (String.length prefix) else s.

Definition TrimSuffix (s suffix : string) : string :=
  if HasSuffix s suffix
  then slice s 0 (String.length s - String.length suffix)
  else s.

(** [strings.Index]: byte offset of the first occurrence, [-1] if none. *)
Fixpoint Index (s substr : string) : Z :=
  if HasPrefix s substr then 0
  else match s with
       | EmptyString => -1
       | String _ r =>
           let i := Index r substr in
           if i <? 0 then -1 else i + 1
       end.

(** [strings.Replace s old new (-1)] for a non-empty [old]: every
    non-overlapping occurrence, scanning left to right.  [skip] counts the
    bytes of the occurrence just replaced that are still to be passed. *)
Fixpoint replace_from (skip : nat) (s old new : string) : string :=
  match s with
  | EmptyString => EmptyString
  | String c r =>
      match skip with
      | S k => replace_from k r old new
      | O =>
          if HasPrefix s old
          then new +:+ replace_from (String.length old - 1) r old new
          else String c (replace_from 0 r old new)
      end
  end.

Definition ReplaceAll (s old new : string) : string := replace_from 0 s old new.

(** [strings.Split s sep] for a non-empty [sep]; every cut consumes at
    least one byte, so [String.length s] rounds are enough. *)
Fixpoint split_rounds (rounds : nat) (s sep : string) : list string :=
  match rounds with
  | O => [s]
  | S k =>
      let i := Index s sep in
      if i <? 0 then [s]
      else slice s 0 (Z.to_nat i)
           :: split_rounds k (slice_from s (Z.to_nat i + String.length sep)) sep
  end.

Definition Split (s sep : string) : list string :=
  split_rounds (String.length s) s sep.

Definition is_space (c : ascii) : bool :=
  let n := nat_of_ascii c in
  ((9 <=? n) && (n <=? 13) || (n =? 32))%nat.

Fixpoint trim_left (s : string) : string :=
  match s with
  | String c r => if is_space c then trim_left r else s
  | EmptyString => EmptyString
  end.

Fixpoint trim_right (s : string) : string :=
  match s with
  | EmptyString => EmptyString
  | String c r =>
      match trim_right r with
      | EmptyString => if is_space c then EmptyString else String c EmptyString
      | t => String c t
      end
  end.

(** [strings.TrimSpace] on ASCII white space. *)
Definition TrimSpace (s : string) : string := trim_right (trim_left s).

(** No byte of [s] is [c]. *)
Fixpoint free_of (c : ascii) (s : string) : bool :=
  match s with
  | EmptyString => true
  | String d r => negb (Ascii.eqb d c) && free_of c r
  end.

(** The bytes of [s] other than [c], in their order. *)
Fixpoint without (c : ascii) (s : string) : string :=
  match s with
  | EmptyString => EmptyString
  | String d r => if Ascii.eqb d c then without c r else String d (without c r)
  end.

(** What comes before the first [sep], all of [s] if there is none. *)
Definition before_first (s sep : string) : string :=
  let i := Index s sep in
  if i <? 0 then s else slice s 0 (Z.to_nat i).

(** [strings.Contains] *)
Definition Contains (s substr : string) : bool := 0 <=? Index s substr.

End GoStrings.

(** ** Outcomes of fallible code *)

(** A Go call either returns or fails: with an [error] value, or with a
  run-time panic such as a nil-pointer dereference. *)
Inductive Result (E A : Type) : Type :=
| Ok (a : A)
| Err (e : E).
Arguments Ok {E A} a.
Arguments Err {E A} e.

Definition result_bind {E A B} (r : Result E A) (k : A -> Result E B) : Result E B :=
match r with
| Ok a => k a
| Err e => Err e
end.

(** ** [model.Channel] and its nil-safe accessors *)

Module model.

Inductive Panic := NilDereference.

(** A Go pointer [*T]: [None] is [nil]. *)
Definition ptr (T : Type) : Type := option T.

Definition is_nil {T} (p : ptr T) : bool :=
  match p with None => true | Some _ => false end.

(** [*p] *)
Definition deref {T} (p : ptr T) : Result Panic T :=
  match p with
  | Some v => Ok v
  | None => Err NilDereference
  end.

Record Channel := {
  Id : Z;
  Type_ : Z;
  Key : string;
  Status : Z;
  Name : string;
  Weight : ptr Z;
  CreatedTime : Z;
  TestTime : Z;
  ResponseTime : Z;
  FullURL : string;
  BaseURL : ptr string;
  Other : string;
  Balance : float;
  BalanceUpdatedTime : Z;
  Models : string;
  Group : string;
  UsedQuota : Z;
  AsyncNum : Z;
  ModelMapping : ptr string;
  Priority : ptr Z;
  AutoBan : ptr Z
}.

(** The methods have a pointer receiver; reading a field goes through it. *)
Definition GetPriority (channel : ptr Channel) : Result Panic Z :=
  result_bind (deref channel) (fun c =>
    if is_nil (Priority c) then Ok 0 else deref (Priority c)).

Definition GetBaseURL (channel : ptr Channel) : Result Panic string :=
  result_bind (deref channel) (fun c =>
    if is_nil (BaseURL c) then Ok EmptyString else deref (BaseURL c)).

Definition GetModelMapping (channel : ptr Channel) : Result Panic string :=
  result_bind (deref channel) (fun c =>
    if is_nil (ModelMapping c) then Ok EmptyString else deref (ModelMapping c)).

End model.

(** ** The quota ledger behind [relayTextHelper] *)

Module Ledger.

Record ConsumeLog := {
  log_userId : Z;
  log_channelId : Z;
  log_promptTokens : Z;
  log_completionTokens : Z;
  log_modelName : string;
  log_tokenName : string;
  log_quota : Z;
  (** The free-text field [logContent]: a [fmt.Sprintf] of [modelRatio]
      and [groupRatio] under a fixed two-decimal format; kept here as the
      two arguments of the format. *)
  log_content : float * float;
  log_tokenId : Z;
  log_userQuota : Z
}.

Record t := {
  user_quota : gmap Z Z;          (* users table: persisted quota *)
  user_quota_cache : gmap Z Z;    (* shared KV: cached user quota *)
  token_remain : gmap Z Z;        (* tokens table: remaining quota *)
  user_used_quota : gmap Z Z;
  user_request_count : gmap Z Z;
  channel_used_quota : gmap Z Z;
  batch_channel_used : gmap Z Z;  (* coalesced, not yet flushed updates *)
  consume_logs : list ConsumeLog
}.

Definition bump (k : Z) (d : Z) (m : gmap Z Z) : gmap Z Z :=
  <[k := default 0 (m !! k) + d]> m.

(** Modelled from the spec: [model.CacheGetUserQuota] is not part of the
    sources at hand; it is the ledger's `cached_user_quota(user_id)`,
    failing when the cached view holds nothing for the user. *)
Definition CacheGetUserQuota (id : Z) (l : t) : Result string Z :=
  match user_quota_cache l !! id with
  | Some q => Ok q
  | None => Err "record not found"%string
  end.

(** Modelled from the spec: [model.CacheDecreaseUserQuota] is not part of
    the sources at hand; the ledger `decrements the user's cache' by the
    given amount. *)
Definition CacheDecreaseUserQuota (id quota : Z) (l : t) : Result string t :=
  Ok {| user_quota := user_quota l;
        user_quota_cache := bump id (- quota) (user_quota_cache l);
        token_remain := token_remain l;
        user_used_quota := user_used_quota l;
        user_request_count := user_request_count l;
        channel_used_quota := channel_used_quota l;
        batch_channel_used := batch_channel_used l;
        consume_logs := consume_logs l |}.

Definition set_token_remain (m : gmap Z Z) (l : t) : t :=
  {| user_quota := user_quota l;
     user_quota_cache := user_quota_cache l;
     token_remain := m;
     user_used_quota := user_used_quota l;
     user_request_count := user_request_count l;
     channel_used_quota := channel_used_quota l;
     batch_channel_used := batch_channel_used l;
     consume_logs := consume_logs l |}.

(** Modelled from the spec: [model.PreConsumeTokenQuota] is not part of
    the sources at hand; the ledger decrements `the token's persisted
    remaining quota', and `failure signals insufficient quota'. *)
Definition PreConsumeTokenQuota (tokenId quota : Z) (l : t) : Result string t :=
  match token_remain l !! tokenId with
  | None => Err "record not found"%string
  | Some r =>
      if r <? quota then Err "insufficient token quota"%string
      else Ok (set_token_remain (<[tokenId := r - quota]> (token_remain l)) l)
  end.

(** Modelled from the spec: [model.PostConsumeTokenQuota] is not part of
    the sources at hand; `the ledger applies delta = quota - preconsumed;
    a negative delta refunds'. *)
Definition PostConsumeTokenQuota
    (tokenId userQuota quotaDelta preConsumedQuota : Z) (returnOnError : bool)
    (l : t) : Result string t :=
  match token_remain l !! tokenId with
  | None => Err "record not found"%string
  | Some r => Ok (set_token_remain (<[tokenId := r - quotaDelta]> (token_remain l)) l)
  end.

(** Modelled from the spec: [model.CacheUpdateUserQuota] is not part of
    the sources at hand; it is the ledger's
    `refresh_user_quota_cache(user_id)`. *)
Definition CacheUpdateUserQuota (id : Z) (l : t) : Result string t :=
  match user_quota l !! id with
  | None => Err "record not found"%string
  | Some q =>
      Ok {| user_quota := user_quota l;
            user_quota_cache := <[id := q]> (user_quota_cache l);
            token_remain := token_remain l;
            user_used_quota := user_used_quota l;
            user_request_count := user_request_count l;
            channel_used_quota := channel_used_quota l;
            batch_channel_used := batch_channel_used l;
            consume_logs := consume_logs l |}
  end.

(** Modelled from the spec: [model.RecordConsumeLog] is not part of the
    sources at hand; it `writes a consume-log record'. *)
Definition RecordConsumeLog (r : ConsumeLog) (l : t) : t :=
  {| user_quota := user_quota l;
     user_quota_cache := user_quota_cache l;
     token_remain := token_remain l;
     user_used_quota := user_used_quota l;
     user_request_count := user_request_count l;
     channel_used_quota := channel_used_quota l;
     batch_channel_used := batch_channel_used l;
     consume_logs := consume_logs l ++ [r] |}.

(** Modelled from the spec: [model.UpdateUserUsedQuotaAndRequestCount] is
    not part of the sources at hand; it advances the `per-user used-quota'
    counter by the quota and the request count by one. *)
Definition UpdateUserUsedQuotaAndRequestCount (id quota : Z) (l : t) : t :=
  {| user_quota := user_quota l;
     user_quota_cache := user_quota_cache l;
     token_remain := token_remain l;
     user_used_quota := bump id quota (user_used_quota l);
     user_request_count := bump id 1 (user_request_count l);
     channel_used_quota := channel_used_quota l;
     batch_channel_used := batch_channel_used l;
     consume_logs := consume_logs l |}.

(** Modelled from the spec: [addNewRecord] is not part of the sources at
    hand; with [BatchUpdateEnabled] it `coalesces channel-used-quota
    updates' until the next flush. *)
Definition addNewRecord_ChannelUsedQuota (id quota : Z) (l : t) : t :=
  {| user_quota := user_quota l;
     user_quota_cache := user_quota_cache l;
     token_remain := token_remain l;
     user_used_quota := user_used_quota l;
     user_request_count := user_request_count l;
     channel_used_quota := channel_used_quota l;
     batch_channel_used := bump id quota (batch_channel_used l);
     consume_logs := consume_logs l |}.

(** [used_quota = used_quota + ?] on the channel's row. *)
Definition updateChannelUsedQuota (id quota : Z) (l : t) : t :=
  {| user_quota := user_quota l;
     user_quota_cache := user_quota_cache l;
     token_remain := token_remain l;
     user_used_quota := user_used_quota l;
     user_request_count := user_request_count l;
     channel_used_quota := bump id quota (channel_used_quota l);
     batch_channel_used := batch_channel_used l;
     consume_logs := consume_logs l |}.

Definition UpdateChannelUsedQuota (BatchUpdateEnabled : bool) (id quota : Z) (l : t) : t :=
  if BatchUpdateEnabled
  then addNewRecord_ChannelUsedQuota id quota l
  else updateChannelUsedQuota id quota l.

End Ledger.


(** ** [controller]: the text relay pipeline *)

Module controller.

Import GoStrings.

Inductive ChannelType :=
| ChannelTypeOpenAI | ChannelTypeAzure | ChannelTypeAnthropic | ChannelTypeBaidu
| ChannelTypePaLM | ChannelTypeZhipu | ChannelTypeAli | ChannelTypeXunfei
| ChannelTypeAIProxyLibrary | ChannelTypeTencent | ChannelTypeOpenAIWeb
| ChannelTypeOpenRouter
| ChannelTypeOther (tag : Z).

Inductive APIType :=
| APITypeOpenAI | APITypeClaude | APITypePaLM | APITypeBaidu | APITypeZhipu
| APITypeAli | APITypeXunfei | APITypeAIProxyLibrary | APITypeTencent
| APITypeOpenAIWeb.

Inductive RelayMode :=
| RelayModeChatCompletions | RelayModeCompletions | RelayModeEmbeddings
| RelayModeModerations | RelayModeEdits | RelayModeOther (tag : Z).

Record Message := { Role : string; Content : string }.

Record GeneralOpenAIRequest := {
  Model : string;
  Messages : list Message;
  Prompt : string;
  Stream : bool;
  MaxTokens : Z;
  Input : string;
  Instruction : string
}.

Definition with_Model (m : string) (r : GeneralOpenAIRequest) : GeneralOpenAIRequest :=
  {| Model := m; Messages := Messages r; Prompt := Prompt r; Stream := Stream r;
     MaxTokens := MaxTokens r; Input := Input r; Instruction := Instruction r |}.

Record Usage := { PromptTokens : Z; CompletionTokens : Z; TotalTokens : Z }.

Definition zero_Usage : Usage :=
  {| PromptTokens := 0; CompletionTokens := 0; TotalTokens := 0 |}.

Record OpenAIErrorWithStatusCode := {
  err_message : string;
  err_code : string;
  err_status : Z
}.

Definition errorWrapper (err code : string) (statusCode : Z) : OpenAIErrorWithStatusCode :=
  {| err_message := err; err_code := code; err_status := statusCode |}.

Definition StatusOK : Z := 200.
Definition StatusBadRequest : Z := 400.
Definition StatusForbidden : Z := 403.
Definition StatusInternalServerError : Z := 500.

(** What [json.Marshal] is applied to on the way out: the canonical request
    itself, or the provider-native request an adapter derives from it. *)
Inductive Payload :=
| CanonicalJSON (r : GeneralOpenAIRequest)
| AdapterJSON (api : APIType) (embeddings : bool) (r : GeneralOpenAIRequest) (library_id : string).

(** The canonical request a payload was made from. *)
Definition payload_request (p : Payload) : GeneralOpenAIRequest :=
  match p with
  | CanonicalJSON r => r
  | AdapterJSON _ _ r _ => r
  end.

Inductive RequestBody :=
| InboundBody (raw : string)
| Marshalled (p : Payload).

Inductive Dispatcher :=
| ViaAsyncOpenaiWeb (isStream : bool)
| ViaAsync (asyncNum : Z)
| ViaHTTPClient.

Record OutboundRequest := {
  out_url : string;
  out_body : RequestBody;
  out_via : Dispatcher
}.

Record Response := { StatusCode : Z; ContentType : string }.

(** The request context [c *gin.Context] as the pipeline reads it. *)
Record Context := {
  ctx_channel : ChannelType;
  ctx_channel_id : Z;
  ctx_token_id : Z;
  ctx_id : Z;
  ctx_group : string;
  ctx_token_name : string;
  ctx_model_mapping : string;
  ctx_base_url : string;
  ctx_full_url : string;
  ctx_library_id : string;
  ctx_async_num : Z;
  ctx_param_model : string;
  ctx_request_url : string;
  ctx_request_body : string;
  ctx_authorization : string;
  ctx_api_version : string
}.

(** *** Arithmetic on [float64]

    The operations of [float] are those of [float64]: each is rounded on
    its own.  Two things are left to the platform by the language: whether
    [x*y + z] is rounded once or twice, and what [int(x)] is for an [x] no
    [int] holds.  The compose file runs the service on arm64; amd64 is the
    other port the service is built for. *)

Inductive Arch :=
| amd64     (* with the default [GOAMD64=v1] *)
| arm64.

(** [float64(n)]: the nearest binary64 number. *)
Definition float64_of_int (n : Z) : float :=
  SF2Prim (binary_normalize prec emax n 0 false).

(** The integer part of [m * 2^e]. *)
Definition integer_part (m : positive) (e : Z) : Z :=
  if 0 <=? e then Z.pos m * 2 ^ e else Z.pos m / 2 ^ (- e).

(** What the conversion instruction gives for a value no [int] holds:
    the most negative [int] on amd64; on arm64 zero for a NaN and the
    nearest end of the range otherwise. *)
Definition int_of_unrepresentable (arch : Arch) (x : spec_float) : Z :=
  match arch with
  | amd64 => GoInt.int_min
  | arm64 =>
      match x with
      | S754_nan | S754_zero _ => 0
      | S754_infinity s | S754_finite s _ _ => if s then GoInt.int_min else GoInt.int_max
      end
  end.

(** [int(x)]: truncation toward zero. *)
Definition int_of_float64 (arch : Arch) (x : float) : Z :=
  match Prim2SF x with
  | S754_zero _ => 0
  | S754_finite s m e =>
      let v := if s then - integer_part m e else integer_part m e in
      if (GoInt.int_min <=? v) && (v <=? GoInt.int_max) then v
      else int_of_unrepresentable arch (Prim2SF x)
  | other => int_of_unrepresentable arch other
  end.

(** A finite number as an integer times a power of two. *)
Definition scaled (x : spec_float) : option (Z * Z) :=
  match x with
  | S754_zero _ => Some (0, 0)
  | S754_finite s m e => Some (if s then Z.neg m else Z.pos m, e)
  | S754_infinity _ | S754_nan => None
  end.

(** [x*y + z] rounded once, the fused multiply-add of IEEE 754. *)
Definition fused_mul_add (x y z : float) : float :=
  match scaled (Prim2SF x), scaled (Prim2SF y), scaled (Prim2SF z) with
  | Some (mx, ex), Some (my, ey), Some (mz, ez) =>
      let e := Z.min (ex + ey) ez in
      let m := mx * my * 2 ^ (ex + ey - e) + mz * 2 ^ (ez - e) in
      if m =? 0
      then (x * y + z)%float   (* an exact zero: no rounding, the sign is that of the sum *)
      else SF2Prim (binary_normalize prec emax m e false)
  | Some _, Some _, None => z
  | _, _, _ => (x * y + z)%float
  end.

(** [x*y + z] as the compiler evaluates it: the arm64 port fuses the two
    operations, the amd64 port does not. *)
Definition mul_add (arch : Arch) (x y z : float) : float :=
  match arch with
  | amd64 => (x * y + z)%float
  | arm64 => fused_mul_add x y z
  end.

(** [math.Ceil]: zeros, infinities and NaN are handed back as they are;
    a value in [(-1, 0)] gives [-0]. *)
Definition math_Ceil (x : float) : float :=
  match Prim2SF x with
  | S754_finite s m e =>
      if 0 <=? e then x
      else
        let k := 2 ^ (- e) in
        let n := if s then - (Z.pos m / k)
                 else Z.pos m / k + (if Z.pos m mod k =? 0 then 0 else 1) in
        SF2Prim (binary_normalize prec emax n 0 s)
  | _ => x
  end.

(** [x != y] on [float64]: true when either side is a NaN. *)
Definition float64_neq (x y : float) : bool := negb (x =? y)%float.

(** Configuration and the helpers of the repository (and of its libraries)
    that [relayTextHelper] calls but that are not among the sources at hand. *)
Record Env := {
  UnmarshalBodyReusable : string -> Result string GeneralOpenAIRequest;
  json_Unmarshal_map : string -> Result string (gmap string string);
  json_Marshal : Payload -> Result string string;
  GetModelRatio : string -> float;
  GetGroupRatio : string -> float;
  GetCompletionRatio : string -> float;
  (** [runtime.GOARCH]: the platform the service is compiled for *)
  GOARCH : Arch;
  countTokenMessages : list Message -> string -> Z;
  countTokenInput : string -> string -> Z;
  countTokenText : string -> string -> Z;
  PreConsumedQuota : Z;
  BatchUpdateEnabled : bool;
  ChannelBaseURLs : ChannelType -> string;
  getFullRequestURL : string -> string -> ChannelType -> string;
  getBaiduAccessToken : string -> Result string string;
  parseTencentConfig : string -> Result string (string * string * string);
  Do : Context -> OutboundRequest -> Result string Response;
  relayErrorHandler : Response -> OpenAIErrorWithStatusCode;
  (** the stream handlers that hand back the text they relayed; the
      response pointer is [nil] when no HTTP request was made *)
  textStreamHandler : APIType -> Context -> option Response
                      -> Result OpenAIErrorWithStatusCode string;
  (** the handlers that hand back a [*Usage], possibly [nil] *)
  usageHandler : APIType -> RelayMode -> bool -> Context -> GeneralOpenAIRequest -> Z
                 -> option Response -> Result OpenAIErrorWithStatusCode (option Usage)
}.

(** *** Lines 76-109: binding, defaults and validation *)

Definition apply_default_model (relayMode : RelayMode) (paramModel : string)
    (r : GeneralOpenAIRequest) : GeneralOpenAIRequest :=
  let r := match relayMode with
           | RelayModeModerations =>
               if String.eqb (Model r) "" then with_Model "text-moderation-latest" r else r
           | _ => r
           end in
  match relayMode with
  | RelayModeEmbeddings =>
      if String.eqb (Model r) "" then with_Model paramModel r else r
  | _ => r
  end.

Definition required_field_missing (msg : string) : OpenAIErrorWithStatusCode :=
  errorWrapper msg "required_field_missing" StatusBadRequest.

Definition validate (relayMode : RelayMode) (r : GeneralOpenAIRequest)
  : Result OpenAIErrorWithStatusCode unit :=
  if String.eqb (Model r) "" then Err (required_field_missing "model is required")
  else match relayMode with
       | RelayModeCompletions =>
           if String.eqb (Prompt r) ""
           then Err (required_field_missing "field prompt is required") else Ok tt
       | RelayModeChatCompletions =>
           if (length (Messages r) =? 0)%nat
           then Err (required_field_missing "field messages is required") else Ok tt
       | RelayModeEmbeddings => Ok tt
       | RelayModeModerations =>
           if String.eqb (Input r) ""
           then Err (required_field_missing "field input is required") else Ok tt
       | RelayModeEdits =>
           if String.eqb (Instruction r) ""
           then Err (required_field_missing "field instruction is required") else Ok tt
       | RelayModeOther _ => Ok tt
       end.

(** *** Lines 110-123: map model name.  [textRequest.Model] is overwritten
    in place; [isModelMapped] records that it was. *)

Definition map_model_name (E : Env) (modelMapping : string) (textRequest : GeneralOpenAIRequest)
  : Result OpenAIErrorWithStatusCode (GeneralOpenAIRequest * bool) :=
  if negb (String.eqb modelMapping "") && negb (String.eqb modelMapping "{}") then
    match json_Unmarshal_map E modelMapping with
    | Err e => Err (errorWrapper e "unmarshal_model_mapping_failed" StatusInternalServerError)
    | Ok modelMap =>
        let target := default EmptyString (modelMap !! Model textRequest) in
        if negb (String.eqb target "")
        then Ok (with_Model target textRequest, true)
        else Ok (textRequest, false)
    end
  else Ok (textRequest, false).

(** *** Lines 124-144 *)

Definition apiType_of (channelType : ChannelType) : APIType :=
  match channelType with
  | ChannelTypeAnthropic => APITypeClaude
  | ChannelTypeBaidu => APITypeBaidu
  | ChannelTypePaLM => APITypePaLM
  | ChannelTypeZhipu => APITypeZhipu
  | ChannelTypeAli => APITypeAli
  | ChannelTypeXunfei => APITypeXunfei
  | ChannelTypeAIProxyLibrary => APITypeAIProxyLibrary
  | ChannelTypeTencent => APITypeTencent
  | ChannelTypeOpenAIWeb => APITypeOpenAIWeb
  | _ => APITypeOpenAI
  end.

(** *** Lines 145-228: the outbound URL *)

Definition bearer_key (authorization : string) : string :=
  TrimPrefix authorization "Bearer ".

(** Lines 168-173: the Azure deployment name. *)
Definition azure_model (model_ : string) : string :=
  let model_ := ReplaceAll model_ "." "" in
  let model_ := TrimSuffix model_ "-0301" in
  let model_ := TrimSuffix model_ "-0314" in
  TrimSuffix model_ "-0613".

(** Lines 163-175: the request path handed to [getFullRequestURL]. *)
Definition azure_requestURL (requestURL apiVersion model_ : string) : string :=
  let requestURL := hd EmptyString (Split requestURL "?") in
  let requestURL := requestURL +:+ "?api-version=" +:+ apiVersion in
  let task := TrimPrefix requestURL "/v1/" in
  "/openai/deployments/" +:+ azure_model model_ +:+ "/" +:+ task.

Definition baidu_endpoint (model_ fullRequestURL : string) : string :=
  if String.eqb model_ "ERNIE-Bot"
  then "https://aip.baidubce.com/rpc/2.0/ai_custom/v1/wenxinworkshop/chat/completions"
  else if String.eqb model_ "ERNIE-Bot-turbo"
  then "https://aip.baidubce.com/rpc/2.0/ai_custom/v1/wenxinworkshop/chat/eb-instant"
  else if String.eqb model_ "ERNIE-Bot-4"
  then "https://aip.baidubce.com/rpc/2.0/ai_custom/v1/wenxinworkshop/chat/completions_pro"
  else if String.eqb model_ "BLOOMZ-7B"
  then "https://aip.baidubce.com/rpc/2.0/ai_custom/v1/wenxinworkshop/chat/bloomz_7b1"
  else if String.eqb model_ "Embedding-V1"
  then "https://aip.baidubce.com/rpc/2.0/ai_custom/v1/wenxinworkshop/embeddings/embedding-v1"
  else fullRequestURL.

Definition full_request_url (E : Env) (c : Context) (relayMode : RelayMode)
    (apiType : APIType) (textRequest : GeneralOpenAIRequest)
  : Result OpenAIErrorWithStatusCode string :=
  let channelType := ctx_channel c in
  let baseURL := ChannelBaseURLs E channelType in
  let requestURL := ctx_request_url c in
  let baseURL := if negb (String.eqb (ctx_base_url c) "") then ctx_base_url c else baseURL in
  let fullRequestURL := getFullRequestURL E baseURL requestURL channelType in
  let fullRequestURL :=
    match channelType with
    | ChannelTypeOpenAI =>
        if HasPrefix baseURL "https://gateway.ai.cloudflare.com"
        then baseURL +:+ TrimPrefix requestURL "/v1"
        else fullRequestURL
    | _ => fullRequestURL
    end in
  let fullRequestURL :=
    if negb (String.eqb (ctx_full_url c) "") && HasSuffix requestURL "chat/completions"
    then ctx_full_url c else fullRequestURL in
  match apiType with
  | APITypeOpenAI =>
      match channelType with
      | ChannelTypeAzure =>
          let requestURL :=
            azure_requestURL requestURL (ctx_api_version c) (Model textRequest) in
          Ok (getFullRequestURL E (ctx_base_url c) requestURL channelType)
      | _ => Ok fullRequestURL
      end
  | APITypeClaude =>
      Ok (if negb (String.eqb baseURL "") then baseURL +:+ "/v1/complete"
          else "https://api.anthropic.com/v1/complete")
  | APITypeBaidu =>
      let fullRequestURL := baidu_endpoint (Model textRequest) fullRequestURL in
      match getBaiduAccessToken E (bearer_key (ctx_authorization c)) with
      | Err e => Err (errorWrapper e "invalid_baidu_config" StatusInternalServerError)
      | Ok apiKey => Ok (fullRequestURL +:+ "?access_token=" +:+ apiKey)
      end
  | APITypePaLM =>
      let fullRequestURL :=
        if negb (String.eqb baseURL "")
        then baseURL +:+ "/v1beta2/models/chat-bison-001:generateMessage"
        else "https://generativelanguage.googleapis.com/v1beta2/models/chat-bison-001:generateMessage" in
      Ok (fullRequestURL +:+ "?key=" +:+ bearer_key (ctx_authorization c))
  | APITypeZhipu =>
      let method := if Stream textRequest then "sse-invoke" else "invoke" in
      Ok ("https://open.bigmodel.cn/api/paas/v3/model-api/" +:+ Model textRequest
          +:+ "/" +:+ method)
  | APITypeAli =>
      Ok match relayMode with
         | RelayModeEmbeddings =>
             "https://dashscope.aliyuncs.com/api/v1/services/embeddings/text-embedding/text-embedding"
         | _ => "https://dashscope.aliyuncs.com/api/v1/services/aigc/text-generation/generation"
         end
  | APITypeTencent => Ok "https://hunyuan.cloud.tencent.com/hyllm/v1/chat/completions"
  | APITypeAIProxyLibrary => Ok (baseURL +:+ "/api/library/ask")
  | APITypeOpenAIWeb => Ok (baseURL +:+ "/backend-api/conversation")
  | APITypeXunfei => Ok fullRequestURL
  end.

(** *** Lines 229-246: token count, ratios and the preconsume estimate *)

Record Pricing := {
  promptTokens : Z;
  modelRatio : float;
  groupRatio : float;
  ratio : float;
  preConsumedQuota : Z
}.

Definition price (E : Env) (group : string) (relayMode : RelayMode)
    (textRequest : GeneralOpenAIRequest) : Pricing :=
  let promptTokens :=
    match relayMode with
    | RelayModeChatCompletions =>
        countTokenMessages E (Messages textRequest) (Model textRequest)
    | RelayModeCompletions => countTokenInput E (Prompt textRequest) (Model textRequest)
    | RelayModeModerations => countTokenInput E (Input textRequest) (Model textRequest)
    | _ => 0
    end in
  let preConsumedTokens :=
    if negb (MaxTokens textRequest =? 0)
    then GoInt.add promptTokens (MaxTokens textRequest)
    else PreConsumedQuota E in
  let modelRatio := GetModelRatio E (Model textRequest) in
  let groupRatio := GetGroupRatio E group in
  let ratio := (modelRatio * groupRatio)%float in
  {| promptTokens := promptTokens;
     modelRatio := modelRatio;
     groupRatio := groupRatio;
     ratio := ratio;
     preConsumedQuota :=
       int_of_float64 (GOARCH E) (float64_of_int preConsumedTokens * ratio)%float |}.

(** *** Lines 247-269: preconsumption.  The ledger is threaded through;
    an error leaves the ledger as the calls before it left it. *)

Definition M (A : Type) : Type :=
  Ledger.t -> Ledger.t * Result OpenAIErrorWithStatusCode A.

Definition preconsume (userId tokenId preConsumedQuota : Z) : M (Z * Z) :=
  fun l =>
    match Ledger.CacheGetUserQuota userId l with
    | Err e => (l, Err (errorWrapper e "get_user_quota_failed" StatusInternalServerError))
    | Ok userQuota =>
        if GoInt.sub userQuota preConsumedQuota <? 0
        then (l, Err (errorWrapper "user quota is not enough" "insufficient_user_quota"
                        StatusForbidden))
        else
          match Ledger.CacheDecreaseUserQuota userId preConsumedQuota l with
          | Err e =>
              (l, Err (errorWrapper e "decrease_user_quota_failed" StatusInternalServerError))
          | Ok l1 =>
              let preConsumedQuota :=
                if userQuota >? GoInt.mul 100 preConsumedQuota
                then 0   (* trusted: we do not pre-consume quota *)
                else preConsumedQuota in
              if preConsumedQuota >? 0 then
                match Ledger.PreConsumeTokenQuota tokenId preConsumedQuota l1 with
                | Err e =>
                    (l1, Err (errorWrapper e "pre_consume_token_quota_failed" StatusForbidden))
                | Ok l2 => (l2, Ok (userQuota, preConsumedQuota))
                end
              else (l1, Ok (userQuota, preConsumedQuota))
          end
    end.

(** *** Lines 270-364: the outbound body *)

Definition marshal (E : Env) (p : Payload) : Result OpenAIErrorWithStatusCode RequestBody :=
  match json_Marshal E p with
  | Err e => Err (errorWrapper e "marshal_text_request_failed" StatusInternalServerError)
  | Ok _ => Ok (Marshalled p)
  end.

Definition is_embeddings (relayMode : RelayMode) : bool :=
  match relayMode with RelayModeEmbeddings => true | _ => false end.

Definition request_body (E : Env) (c : Context) (relayMode : RelayMode) (apiType : APIType)
    (textRequest : GeneralOpenAIRequest) (isModelMapped : bool)
  : Result OpenAIErrorWithStatusCode RequestBody :=
  result_bind
    (if isModelMapped then marshal E (CanonicalJSON textRequest)
     else Ok (InboundBody (ctx_request_body c)))
    (fun requestBody =>
       match apiType with
       | APITypeOpenAI | APITypeXunfei => Ok requestBody
       | APITypeBaidu | APITypeAli =>
           marshal E (AdapterJSON apiType (is_embeddings relayMode) textRequest "")
       | APITypeTencent =>
           match parseTencentConfig E (bearer_key (ctx_authorization c)) with
           | Err e => Err (errorWrapper e "invalid_tencent_config" StatusInternalServerError)
           | Ok _ => marshal E (AdapterJSON apiType false textRequest "")
           end
       | APITypeAIProxyLibrary =>
           marshal E (AdapterJSON apiType false textRequest (ctx_library_id c))
       | APITypeClaude | APITypePaLM | APITypeZhipu | APITypeOpenAIWeb =>
           marshal E (AdapterJSON apiType false textRequest "")
       end).

(** *** Lines 463-497: settlement (the deferred goroutine) *)

(** Lines 466-479. *)
Definition settle_quota (arch : Arch) (ratio completionRatio : float)
    (promptTokens completionTokens : Z) : Z :=
  let quota :=
    int_of_float64 arch
      (math_Ceil (mul_add arch (float64_of_int completionTokens) completionRatio
                    (float64_of_int promptTokens) * ratio)%float) in
  let quota := if float64_neq ratio 0 && (quota <=? 0) then 1 else quota in
  let totalTokens := GoInt.add promptTokens completionTokens in
  if totalTokens =? 0 then 0 else quota.

(** The variables of the goroutine, as they stand when it is through. *)
Record Settlement := {
  s_modelName : string;        (* [textRequest.Model] *)
  s_modelRatio : float;
  s_groupRatio : float;
  s_completionRatio : float;
  s_promptTokens : Z;
  s_completionTokens : Z;
  s_preConsumedQuota : Z;
  s_quota : Z;
  s_quotaDelta : Z
}.

(** An [error] of a ledger call is logged and the goroutine goes on. *)
Definition logged (r : Result string Ledger.t) (l : Ledger.t) : Ledger.t :=
  match r with Ok l' => l' | Err _ => l end.

Definition settle (E : Env) (c : Context) (modelName : string) (p : Pricing)
    (userQuota preConsumedQuota : Z) (usage : Usage) (l : Ledger.t)
  : Ledger.t * Settlement :=
  let completionRatio := GetCompletionRatio E modelName in
  let promptTokens := PromptTokens usage in
  let completionTokens := CompletionTokens usage in
  let quota :=
    settle_quota (GOARCH E) (ratio p) completionRatio promptTokens completionTokens in
  let quotaDelta := GoInt.sub quota preConsumedQuota in
  let l := logged (Ledger.PostConsumeTokenQuota (ctx_token_id c) userQuota quotaDelta
                     preConsumedQuota true l) l in
  let l := logged (Ledger.CacheUpdateUserQuota (ctx_id c) l) l in
  let l :=
    if negb (quota =? 0) then
      let l := Ledger.RecordConsumeLog
                 {| Ledger.log_userId := ctx_id c;
                    Ledger.log_channelId := ctx_channel_id c;
                    Ledger.log_promptTokens := promptTokens;
                    Ledger.log_completionTokens := completionTokens;
                    Ledger.log_modelName := modelName;
                    Ledger.log_tokenName := ctx_token_name c;
                    Ledger.log_quota := quota;
                    Ledger.log_content := (modelRatio p, groupRatio p);
                    Ledger.log_tokenId := ctx_token_id c;
                    Ledger.log_userQuota := userQuota |} l in
      let l := Ledger.UpdateUserUsedQuotaAndRequestCount (ctx_id c) quota l in
      Ledger.UpdateChannelUsedQuota (BatchUpdateEnabled E) (ctx_channel_id c) quota l
    else l in
  (l, {| s_modelName := modelName;
         s_modelRatio := modelRatio p;
         s_groupRatio := groupRatio p;
         s_completionRatio := completionRatio;
         s_promptTokens := promptTokens;
         s_completionTokens := completionTokens;
         s_preConsumedQuota := preConsumedQuota;
         s_quota := quota;
         s_quotaDelta := quotaDelta |}).

(** *** Lines 498-699: the response handlers fill [textResponse.Usage] *)

Definition from_text (E : Env) (modelName : string) (promptTokens : Z)
    (r : Result OpenAIErrorWithStatusCode string)
  : option OpenAIErrorWithStatusCode * Usage :=
  match r with
  | Err e => (Some e, zero_Usage)
  | Ok responseText =>
      (None, {| PromptTokens := promptTokens;
                CompletionTokens := countTokenText E responseText modelName;
                TotalTokens := 0 |})
  end.

Definition from_usage (r : Result OpenAIErrorWithStatusCode (option Usage))
  : option OpenAIErrorWithStatusCode * Usage :=
  match r with
  | Err e => (Some e, zero_Usage)
  | Ok (Some usage) => (None, usage)
  | Ok None => (None, zero_Usage)
  end.

Definition run_handler (E : Env) (c : Context) (apiType : APIType) (relayMode : RelayMode)
    (isStream : bool) (textRequest : GeneralOpenAIRequest) (promptTokens : Z)
    (resp : option Response)
  : option OpenAIErrorWithStatusCode * Usage :=
  let text api :=
    from_text E (Model textRequest) promptTokens (textStreamHandler E api c resp) in
  let usage api stream :=
    from_usage (usageHandler E api relayMode stream c textRequest promptTokens resp) in
  match apiType with
  | APITypeOpenAIWeb | APITypeOpenAI =>
      if isStream then text APITypeOpenAI else usage APITypeOpenAI false
  | APITypeClaude => if isStream then text APITypeClaude else usage APITypeClaude false
  | APITypeBaidu => usage APITypeBaidu isStream
  | APITypePaLM =>
      if Stream textRequest then text APITypePaLM else usage APITypePaLM false
  | APITypeZhipu =>
      match usage APITypeZhipu isStream with
      | (None, u) =>
          (* zhipu's API does not return prompt tokens & completion tokens *)
          (None, {| PromptTokens := TotalTokens u;
                    CompletionTokens := CompletionTokens u;
                    TotalTokens := TotalTokens u |})
      | failed => failed
      end
  | APITypeAli => usage APITypeAli isStream
  | APITypeXunfei =>
      let splits := Split (bearer_key (ctx_authorization c)) "|" in
      if negb (length splits =? 3)%nat
      then (Some (errorWrapper "invalid auth" "invalid_auth" StatusBadRequest), zero_Usage)
      else usage APITypeXunfei isStream
  | APITypeAIProxyLibrary => usage APITypeAIProxyLibrary isStream
  | APITypeTencent => if isStream then text APITypeTencent else usage APITypeTencent false
  end.

(** *** [relayTextHelper], end to end.  What a call leaves behind: the
    error it returns, the request it sent upstream and the settlement its
    deferred goroutine performed. *)

Record Report := {
  rep_error : option OpenAIErrorWithStatusCode;
  rep_sent : option OutboundRequest;
  rep_settled : option Settlement
}.

Definition failed (e : OpenAIErrorWithStatusCode) (sent : option OutboundRequest) : Report :=
  {| rep_error := Some e; rep_sent := sent; rep_settled := None |}.

Definition dispatch_and_settle (E : Env) (c : Context) (relayMode : RelayMode)
    (apiType : APIType) (textRequest : GeneralOpenAIRequest) (p : Pricing)
    (fullRequestURL : string) (requestBody : RequestBody)
    (userQuota preConsumedQuota : Z) (l : Ledger.t) : Ledger.t * Report :=
  let isStream := Stream textRequest in
  let finish sent resp isStream l :=
    let '(err, usage) :=
      run_handler E c apiType relayMode isStream textRequest (promptTokens p) resp in
    let '(l, s) := settle E c (Model textRequest) p userQuota preConsumedQuota usage l in
    (l, {| rep_error := err; rep_sent := sent; rep_settled := Some s |}) in
  match apiType with
  | APITypeXunfei => finish None None isStream l   (* cause xunfei use websocket *)
  | _ =>
      let req :=
        {| out_url := fullRequestURL;
           out_body := requestBody;
           out_via := match apiType with
                      | APITypeOpenAIWeb => ViaAsyncOpenaiWeb isStream
                      | _ => if isStream then ViaAsync (ctx_async_num c) else ViaHTTPClient
                      end |} in
      match Do E c req with
      | Err e =>
          (l, failed (errorWrapper e "do_request_failed" StatusInternalServerError) (Some req))
      | Ok resp =>
          let isStream := isStream || HasPrefix (ContentType resp) "text/event-stream" in
          if negb (StatusCode resp =? StatusOK) then
            let l :=
              if negb (preConsumedQuota =? 0)
              then (* return pre-consumed quota *)
                logged (Ledger.PostConsumeTokenQuota (ctx_token_id c) userQuota
                          (GoInt.sub 0 preConsumedQuota) preConsumedQuota true l) l
              else l in
            (l, failed (relayErrorHandler E resp) (Some req))
          else finish (Some req) (Some resp) isStream l
      end
  end.

Definition relayTextHelper (E : Env) (c : Context) (relayMode : RelayMode)
    (l : Ledger.t) : Ledger.t * Report :=
  match UnmarshalBodyReusable E (ctx_request_body c) with
  | Err e => (l, failed (errorWrapper e "bind_request_body_failed" StatusBadRequest) None)
  | Ok textRequest =>
      let textRequest := apply_default_model relayMode (ctx_param_model c) textRequest in
      match validate relayMode textRequest with
      | Err e => (l, failed e None)
      | Ok _ =>
      match map_model_name E (ctx_model_mapping c) textRequest with
      | Err e => (l, failed e None)
      | Ok (textRequest, isModelMapped) =>
      let apiType := apiType_of (ctx_channel c) in
      match full_request_url E c relayMode apiType textRequest with
      | Err e => (l, failed e None)
      | Ok fullRequestURL =>
      let p := price E (ctx_group c) relayMode textRequest in
      match preconsume (ctx_id c) (ctx_token_id c) (preConsumedQuota p) l with
      | (l, Err e) => (l, failed e None)
      | (l, Ok (userQuota, preConsumedQuota)) =>
      match request_body E c relayMode apiType textRequest isModelMapped with
      | Err e => (l, failed e None)
      | Ok requestBody =>
          dispatch_and_settle E c relayMode apiType textRequest p fullRequestURL
            requestBody userQuota preConsumedQuota l
      end end end end end
  end.

End controller.

(** ** [controller.asyncHTTPDo]: the racing dispatcher

    The goroutines of one call, interleaved: a state of the whole call and
    one transition per scheduling step.  The main goroutine sits in its
    [select] loop; attempt [i] runs the body of the goroutine started for
    [reqs[i]]; the escalation is the goroutine the timer case starts; the
    waiter is the goroutine around [wg.Wait()]. *)

Module racing.

Inductive ReqRef :=
| Original            (* the object behind the parameter [req] *)
| Clone (i : nat).    (* the object [req.Clone] made for [reqs[i]] *)

(** An [io.ReadCloser]: what is still to be read, or the error reading raises. *)
Inductive BodyReader :=
| Reader (rest : string)
| Broken (err : string).

Record Request := {
  ref : ReqRef;
  Body : BodyReader;
  ContentLength : Z;
  (** the context [WithContext] attached: [Some i] is the one made for attempt [i] *)
  ctx : option nat
}.

Record Response := {
  StatusCode : Z;
  (** [resp.Request]: the request that obtained this response *)
  Request_ : Request
}.

(** Where the goroutine of an attempt stands. *)
Inductive Phase :=
| InFlight                    (* inside [timeoutHTTPClient.Do] *)
| Got (resp : Response)       (* [Do] returned [resp], status not yet looked at *)
| Sending (resp : Response)   (* blocked in [respCh <- resp] *)
| Finished.                   (* returned; [wg.Done] has run *)

(** [time.Timer]: its channel holds at most one tick. *)
Inductive Timer :=
| Armed
| Expired     (* the tick sits in [timer.C] *)
| Drained     (* the tick was received *)
| Stopped.

Definition Stop (t : Timer) : Timer :=
  match t with Armed => Stopped | other => other end.

Record State := {
  asyncNum : Z;
  req : Request;                     (* the parameter [req], as [ReadAll] left it *)
  reqs : list Request;
  cancelFuncs : gmap nat nat;        (* attempt index to the context its func cancels *)
  cancelled : gset nat;              (* contexts whose cancel func has been invoked *)
  attempts : list Phase;
  escalation : option (Request * Phase);
  timer : Timer;
  done_closed : bool;                (* [close(done)], [close(respCh)] have run *)
  resps : list Response;
  closed_bodies : list Response;     (* closed by the deferred loop over [resps] *)
  lastErr : option string;
  returned : option (option Response * option string)
}.

Inductive Who := Attempt (i : nat) | Escalation.

Inductive Event :=
| DoFails (w : Who) (err : string)   (* [Do] returns an error *)
| DoReturns (w : Who) (status : Z)   (* [Do] returns a response *)
| Inspect (i : nat)                  (* attempt [i]: lines 753-758, up to the send *)
| Receive (w : Who)                  (* main takes [respCh]: rendezvous with [w] *)
| SendPanics                         (* the escalation sends on the closed [respCh] *)
| TimerExpires                       (* five seconds have passed *)
| TakeTimer                          (* main takes [timer.C] *)
| WaitReturns                        (* the waiter: [wg.Wait()] returns *)
| ReceiveClosed                      (* main takes the closed [respCh]: [ok] is false *)
| TakeDone.                          (* main takes [done] *)

Inductive Failure :=
| ReadAllError (err : string)
| MakeSlicePanic.

Definition with_body (b : string) (r : Request) : Request :=
  {| ref := ref r; Body := Reader b;
     ContentLength := Z.of_nat (String.length b); ctx := ctx r |}.

Definition clone (i : nat) (r : Request) : Request :=
  {| ref := Clone i; Body := Body r; ContentLength := ContentLength r; ctx := ctx r |}.

Definition WithContext (c : nat) (r : Request) : Request :=
  {| ref := ref r; Body := Body r; ContentLength := ContentLength r; ctx := Some c |}.

Definition drained (r : Request) : Request :=
  {| ref := ref r; Body := Reader EmptyString;
     ContentLength := ContentLength r; ctx := ctx r |}.

(** Lines 703-760: read the body, prepare [reqs], register one cancel
    func per attempt and start the attempts. *)
Definition start (req0 : Request) (asyncNum0 : Z) : Result Failure State :=
  if asyncNum0 <? 0 then Err MakeSlicePanic
  else
    match Body req0 with
    | Broken e => Err (ReadAllError e)
    | Reader bodyBytes =>
        let n := Z.to_nat asyncNum0 in
        let '(req1, reqs0) :=
          if asyncNum0 =? 1
          then (with_body bodyBytes req0, [with_body bodyBytes req0])
          else (drained req0,
                (fun i => with_body bodyBytes (clone i req0)) <$> seq 0 n) in
        Ok {| asyncNum := asyncNum0;
              req := req1;
              reqs := reqs0;
              cancelFuncs := list_to_map ((fun i => (i, i)) <$> seq 0 n);
              cancelled := ∅;
              attempts := replicate n InFlight;
              escalation := None;
              timer := Armed;
              done_closed := false;
              resps := [];
              closed_bodies := [];
              lastErr := None;
              returned := None |}
    end.

Definition set_attempt (i : nat) (ph : Phase) (st : State) : State :=
  {| asyncNum := asyncNum st; req := req st; reqs := reqs st;
     cancelFuncs := cancelFuncs st; cancelled := cancelled st;
     attempts := <[i := ph]> (attempts st);
     escalation := escalation st; timer := timer st; done_closed := done_closed st;
     resps := resps st; closed_bodies := closed_bodies st;
     lastErr := lastErr st; returned := returned st |}.

Definition set_escalation (e : option (Request * Phase)) (st : State) : State :=
  {| asyncNum := asyncNum st; req := req st; reqs := reqs st;
     cancelFuncs := cancelFuncs st; cancelled := cancelled st;
     attempts := attempts st;
     escalation := e; timer := timer st; done_closed := done_closed st;
     resps := resps st; closed_bodies := closed_bodies st;
     lastErr := lastErr st; returned := returned st |}.

Definition set_phase (w : Who) (ph : Phase) (st : State) : State :=
  match w with
  | Attempt i => set_attempt i ph st
  | Escalation =>
      match escalation st with
      | Some (r, _) => set_escalation (Some (r, ph)) st
      | None => st
      end
  end.

Definition phase_of (w : Who) (st : State) : option Phase :=
  match w with
  | Attempt i => attempts st !! i
  | Escalation => snd <$> escalation st
  end.

(** The request goroutine [w] hands to [Do]. *)
Definition request_of (w : Who) (st : State) : option Request :=
  match w with
  | Attempt i => WithContext i <$> reqs st !! i
  | Escalation => fst <$> escalation st
  end.

Definition set_lastErr (e : string) (st : State) : State :=
  {| asyncNum := asyncNum st; req := req st; reqs := reqs st;
     cancelFuncs := cancelFuncs st; cancelled := cancelled st;
     attempts := attempts st;
     escalation := escalation st; timer := timer st; done_closed := done_closed st;
     resps := resps st; closed_bodies := closed_bodies st;
     lastErr := Some e; returned := returned st |}.

(** [cancel()] of context [c]. *)
Definition cancel (c : nat) (st : State) : State :=
  {| asyncNum := asyncNum st; req := req st; reqs := reqs st;
     cancelFuncs := cancelFuncs st; cancelled := {[c]} ∪ cancelled st;
     attempts := attempts st;
     escalation := escalation st; timer := timer st; done_closed := done_closed st;
     resps := resps st; closed_bodies := closed_bodies st;
     lastErr := lastErr st; returned := returned st |}.

(** [delete(cancelFuncs, i)] *)
Definition delete_cancelFunc (i : nat) (st : State) : State :=
  {| asyncNum := asyncNum st; req := req st; reqs := reqs st;
     cancelFuncs := delete i (cancelFuncs st); cancelled := cancelled st;
     attempts := attempts st;
     escalation := escalation st; timer := timer st; done_closed := done_closed st;
     resps := resps st; closed_bodies := closed_bodies st;
     lastErr := lastErr st; returned := returned st |}.

(** [for _, cancel := range cancelFuncs { cancel() }], then the [return]
    with the deferred closing of what is left in [resps]. *)
Definition cancel_all_and_return (result : option Response * option string)
    (left : list Response) (t : Timer) (st : State) : State :=
  {| asyncNum := asyncNum st; req := req st; reqs := reqs st;
     cancelFuncs := cancelFuncs st;
     cancelled := map_img (cancelFuncs st) ∪ cancelled st;
     attempts := attempts st;
     escalation := escalation st; timer := t; done_closed := done_closed st;
     resps := left; closed_bodies := left;
     lastErr := lastErr st; returned := Some result |}.

Definition append_resp (r : Response) (st : State) : State :=
  {| asyncNum := asyncNum st; req := req st; reqs := reqs st;
     cancelFuncs := cancelFuncs st; cancelled := cancelled st;
     attempts := attempts st;
     escalation := escalation st; timer := timer st; done_closed := done_closed st;
     resps := resps st ++ [r]; closed_bodies := closed_bodies st;
     lastErr := lastErr st; returned := returned st |}.

Definition set_timer (t : Timer) (st : State) : State :=
  {| asyncNum := asyncNum st; req := req st; reqs := reqs st;
     cancelFuncs := cancelFuncs st; cancelled := cancelled st;
     attempts := attempts st;
     escalation := escalation st; timer := t; done_closed := done_closed st;
     resps := resps st; closed_bodies := closed_bodies st;
     lastErr := lastErr st; returned := returned st |}.

Definition close_done (st : State) : State :=
  {| asyncNum := asyncNum st; req := req st; reqs := reqs st;
     cancelFuncs := cancelFuncs st; cancelled := cancelled st;
     attempts := attempts st;
     escalation := escalation st; timer := Stop (timer st); done_closed := true;
     resps := resps st; closed_bodies := closed_bodies st;
     lastErr := lastErr st; returned := returned st |}.

Definition is_Finished (ph : Phase) : bool :=
  match ph with Finished => true | _ => false end.

(** The [WaitGroup] counter is zero. *)
Definition all_done (st : State) : bool :=
  forallb is_Finished (attempts st)
  && match escalation st with
     | Some (_, ph) => is_Finished ph
     | None => true
     end.

Definition is_main_running (st : State) : bool :=
  match returned st with None => true | Some _ => false end.

(** One scheduling step; [None] when the step is not enabled. *)
Definition step (st : State) (ev : Event) : option State :=
  match ev with
  | DoFails w err =>
      match phase_of w st with
      | Some InFlight =>
          let st := set_phase w Finished (set_lastErr err st) in
          Some match w with
               | Attempt i => cancel i st
               | Escalation => st
               end
      | _ => None
      end
  | DoReturns w status =>
      match phase_of w st, request_of w st with
      | Some InFlight, Some r =>
          let resp := {| StatusCode := status; Request_ := r |} in
          Some match w with
               | Attempt _ => set_phase w (Got resp) st
               | Escalation => set_phase w (Sending resp) st
               end
      | _, _ => None
      end
  | Inspect i =>
      match attempts st !! i with
      | Some (Got resp) =>
          let st := if StatusCode resp =? 200 then delete_cancelFunc i st else st in
          Some (set_attempt i (Sending resp) st)
      | _ => None
      end
  | Receive w =>
      match phase_of w st with
      | Some (Sending resp) =>
          if is_main_running st && negb (done_closed st) then
            let st := set_phase w Finished st in
            if StatusCode resp =? 200
            then Some (cancel_all_and_return (Some resp, None) (resps st)
                         (Stop (timer st)) st)
            else Some (append_resp resp st)
          else None
      | _ => None
      end
  | SendPanics =>
      match escalation st with
      | Some (_, Sending _) =>
          if done_closed st then Some (set_phase Escalation Finished st) else None
      | _ => None
      end
  | TimerExpires =>
      match timer st with
      | Armed => Some (set_timer Expired st)
      | _ => None
      end
  | TakeTimer =>
      match timer st with
      | Expired =>
          if is_main_running st then
            let st := set_timer Drained st in
            Some (if asyncNum st >? 1
                  then set_escalation (Some (req st, InFlight)) st
                  else st)
          else None
      | _ => None
      end
  | WaitReturns =>
      if all_done st && negb (done_closed st) then Some (close_done st) else None
  | ReceiveClosed =>
      if is_main_running st && done_closed st then Some st else None
  | TakeDone =>
      if is_main_running st && done_closed st
      then Some (cancel_all_and_return (hd_error (resps st), lastErr st)
                   (tl (resps st)) (timer st) st)
      else None
  end.

Fixpoint run (st : State) (evs : list Event) : option State :=
  match evs with
  | [] => Some st
  | ev :: evs =>
      match step st ev with
      | Some st' => run st' evs
      | None => None
      end
  end.

(** The response main takes from [respCh] at [ev], if [ev] is such a step. *)
Definition taken (st : State) (ev : Event) : option Response :=
  match ev with
  | Receive w =>
      match phase_of w st with
      | Some (Sending resp) => Some resp
      | _ => None
      end
  | _ => None
  end.

(** The responses main has taken from [respCh] along [evs], oldest first. *)
Fixpoint received (st : State) (evs : list Event) : list Response :=
  match evs with
  | [] => []
  | ev :: evs =>
      match step st ev with
      | Some st' => option_list (taken st ev) ++ received st' evs
      | None => []
      end
  end.

(** How many goroutines the timer case has started along [evs]. *)
Fixpoint escalations_started (st : State) (evs : list Event) : nat :=
  match evs with
  | [] => 0
  | ev :: evs =>
      match step st ev with
      | Some st' =>
          match ev with
          | TakeTimer => if asyncNum st >? 1 then 1 else 0
          | _ => 0
          end + escalations_started st' evs
      | None => 0
      end
  end.

(** A call with three attempts, as far as: attempt 1 came back with a 500,
    which main put aside; attempt 0 came back with a 200 and is handing it
    over; attempt 2 is still in flight. *)
Definition caller_request : Request :=
  {| ref := Original; Body := Reader "{}"; ContentLength := 2; ctx := None |}.

Definition three_way : State :=
  {| asyncNum := 3;
     req := drained caller_request;
     reqs := (fun i => with_body "{}" (clone i caller_request)) <$> [0; 1; 2]%nat;
     cancelFuncs := {[ 0%nat := 0%nat; 1%nat := 1%nat; 2%nat := 2%nat ]};
     cancelled := ∅;
     attempts := [InFlight; InFlight; InFlight];
     escalation := None;
     timer := Armed;
     done_closed := false;
     resps := [];
     closed_bodies := [];
     lastErr := None;
     returned := None |}.

Definition three_way_events : list Event :=
  [DoReturns (Attempt 1) 500; Inspect 1; Receive (Attempt 1);
   DoReturns (Attempt 0) 200; Inspect 0].

Definition ok_of_0 : Response :=
  {| StatusCode := 200; Request_ := WithContext 0 (with_body "{}" (clone 0 caller_request)) |}.

Definition three_way_mid : State := default three_way (run three_way three_way_events).

(** Two attempts, both still in flight when the five seconds are over. *)
Definition two_way_timeout : State :=
  default three_way
    (match start caller_request 2 with
     | Ok st => run st [TimerExpires]
     | Err _ => None
     end).

End racing.

(** ** [election]: leader election over the shared key-value store *)

Module election.

Definition leaderKey : string := "onehub:leader".

(** [time.Duration] counts nanoseconds in an [int64]. *)
Definition Nanosecond : Z := 1.
Definition Millisecond : Z := 1000000.
Definition Second : Z := 1000000000.

(** [viper.GetInt]: the configured value, [0] when the key is not set. *)
Definition viper_GetInt (configured : option Z) : Z := default 0 configured.

(** Lines 57-60. *)
Definition leaseSeconds (configured : option Z) : Z :=
  let leaseSeconds := viper_GetInt configured in
  if leaseSeconds <=? 0 then 15 else leaseSeconds.

(** Line 61: [time.Duration(leaseSeconds) * time.Second]. *)
Definition leaseTTL (configured : option Z) : Z :=
  GoInt.mul (leaseSeconds configured) Second.

(** Lines 63-66. *)
Definition renewInterval (configured : option Z) : Z :=
  let renewInterval := GoInt.div (leaseTTL configured) 2 in
  if renewInterval <? Second then Second else renewInterval.

(** Line 114: [int(leaseTTL / time.Millisecond)]. *)
Definition ttlMillis (configured : option Z) : Z :=
  GoInt.div (leaseTTL configured) Millisecond.

(** The shared store: per key, the value and the milliseconds it has left. *)
Record Entry := { value : string; pttl : Z }.

(** What a command's [Result()] carries besides the error. *)
Inductive RedisValue :=
| RNil
| RInt (v : Z)
| RString (s : string).

(** [PEXPIRE key ms] *)
Definition PEXPIRE (key : string) (ms : Z) (db : gmap string Entry) : gmap string Entry * Z :=
  match db !! key with
  | None => (db, 0)
  | Some e =>
      if ms <=? 0 then (delete key db, 1)
      else (<[key := {| value := value e; pttl := ms |}]> db, 1)
  end.

(** The script [renewLua], run atomically by the server. *)
Definition renewLua (KEYS1 ARGV1 : string) (ARGV2 : Z) (db : gmap string Entry)
  : gmap string Entry * Z :=
  match db !! KEYS1 with
  | Some v =>
      if String.eqb (value v) ARGV1 then PEXPIRE KEYS1 ARGV2 db else (db, 0)
  | None => (db, 0)
  end.

(** [SET key value PX ms NX] *)
Definition SetNX (key val : string) (ms : Z) (db : gmap string Entry) : gmap string Entry * bool :=
  match db !! key with
  | Some _ => (db, false)
  | None => (<[key := {| value := val; pttl := ms |}]> db, true)
  end.


(** How a round trip to the store can go. *)
Inductive Transport :=
| Delivered      (* command executed, reply received *)
| LostRequest    (* error before the server ran the command *)
| LostReply.     (* the server ran the command, the reply was lost *)

(** The role as the loop keeps it ([isLeader]) and as it publishes it
    ([config.IsMasterNode]). *)
Record Node := { isLeader : bool; IsMasterNode : bool }.

(** Lines 120-140: the type switch on the script's result. *)
Definition after_renew (res : RedisValue) (n : Node) : Node :=
  match res with
  | RInt v =>
      if v =? 1 then n
      else {| isLeader := false; IsMasterNode := false |}
  | _ => {| isLeader := false; IsMasterNode := false |}
  end.

(** Lines 93-107. *)
Definition after_SetNX (ok : bool) (n : Node) : Node :=
  if ok then {| isLeader := true; IsMasterNode := true |}
  else {| isLeader := isLeader n; IsMasterNode := false |}.

(** [Result()] of a command: on an error the value is the zero value. *)
Definition script_Result (t : Transport) (reply : Z) : RedisValue * option string :=
  match t with
  | Delivered => (RInt reply, None)
  | _ => (RNil, Some "transport error"%string)
  end.

Definition bool_Result (t : Transport) (reply : bool) : bool * option string :=
  match t with
  | Delivered => (reply, None)
  | _ => (false, Some "transport error"%string)
  end.

(** One turn of the loop at lines 86-143, before its [time.Sleep]. *)
Definition iteration (nodeID : string) (configured : option Z) (t : Transport)
    (n : Node) (db : gmap string Entry) : Node * gmap string Entry :=
  if negb (isLeader n) then
    let '(db', reply) :=
      match t with
      | LostRequest => (db, false)
      | _ => SetNX leaderKey nodeID (ttlMillis configured) db
      end in
    let '(ok, _) := bool_Result t reply in
    (after_SetNX ok n, db')
  else
    let '(db', reply) :=
      match t with
      | LostRequest => (db, 0)
      | _ => renewLua leaderKey nodeID (ttlMillis configured) db
      end in
    let '(res, _) := script_Result t reply in
    (after_renew res n, db').

(** [makeNodeID]: [host] is what [os.Hostname] handed back (the empty
    string when it failed), [id] is what [uuid.NewString] handed back. *)
Definition makeNodeID (host id : string) : string :=
  let host := if String.eqb host "" then "unknown-host"%string else host in
  host +:+ "-" +:+ id.

End election.

(** ** [realtime]: configuration sync over pub/sub *)

Module realtime.

Import GoStrings.

(** Modelled from the spec: the topic names [rds.RedisTopicOptionsSync] and
    [rds.RedisTopicChannelsSync] are not part of the sources at hand; the
    subscriber listens on `options_sync` and `channels_sync`. *)
Definition RedisTopicOptionsSync : string := "options_sync".
Definition RedisTopicChannelsSync : string := "channels_sync".

Record Message := { Channel : string; Payload : string }.

(** What [pubsub.ReceiveMessage] hands back. *)
Inductive Received :=
| Msg (msg : Message)
| Canceled                      (* [err == context.Canceled] *)
| ReceiveError (err : string).

(** The calls into [model] a reload is made of. *)
Inductive Call :=
| ReloadOptions
| ChannelGroup_Load
| PricingInstance_Init
| ModelOwnedBysInstance_Load.

(** The state of [model] the reload shells look at: which of the calls
    panic, and whether the two optional tables exist. *)
Record ModelState := {
  panics : Call -> bool;
  PricingInstance_set : bool;
  ModelOwnedBysInstance_set : bool
}.

(** Run the calls in order; a panic ends the shell, which recovers it. *)
Fixpoint until_panic (m : ModelState) (calls : list Call) : list Call :=
  match calls with
  | [] => []
  | k :: rest => k :: (if panics m k then [] else until_panic m rest)
  end.

Definition safeReloadOptions (m : ModelState) : list Call :=
  until_panic m [ReloadOptions].

Definition safeReloadChannels (m : ModelState) : list Call :=
  until_panic m
    ([ChannelGroup_Load]
       ++ (if PricingInstance_set m then [PricingInstance_Init] else [])
       ++ (if ModelOwnedBysInstance_set m then [ModelOwnedBysInstance_Load] else [])).

(** Lines 55-62: the origin a payload carries, and what is left of it. *)
Definition split_origin (payload : string) : option (string * string) :=
  let sep := Index payload "|" in
  if sep >? 0
  then Some (slice payload 0 (Z.to_nat sep), slice_from payload (Z.to_nat sep + 1))
  else None.

(** Lines 64-79. *)
Definition dispatch (m : ModelState) (channel payload : string) : list Call :=
  if String.eqb channel RedisTopicOptionsSync then
    if String.eqb (TrimSpace payload) "" || HasPrefix payload "reload"
    then safeReloadOptions m
    else safeReloadOptions m
  else if String.eqb channel RedisTopicChannelsSync then safeReloadChannels m
  else [].

(** Lines 54-79: the calls one received message leads to. *)
Definition handle (m : ModelState) (InstanceID : string) (msg : Message) : list Call :=
  let payload := Payload msg in
  match split_origin payload with
  | Some (originID, rest) =>
      if String.eqb originID InstanceID then []   (* continue *)
      else dispatch m (Channel msg) rest
  | None => dispatch m (Channel msg) payload
  end.

(** Lines 43-80: the subscriber loop over what arrives, giving every
    message with the calls it led to. *)
Fixpoint subscriber (m : ModelState) (InstanceID : string) (arrivals : list Received)
  : list (Message * list Call) :=
  match arrivals with
  | [] => []
  | Msg msg :: rest => (msg, handle m InstanceID msg) :: subscriber m InstanceID rest
  | Canceled :: _ => []
  | ReceiveError _ :: rest => subscriber m InstanceID rest
  end.

(** A node whose model reloads without a panic, a message of its own and
    a message of a peer. *)
Definition quiet_model : ModelState :=
  {| panics := fun _ => false;
     PricingInstance_set := true;
     ModelOwnedBysInstance_set := true |}.

Definition own_message : Message :=
  {| Channel := "channels_sync"; Payload := "node-1|reload" |}.

Definition peer_message : Message :=
  {| Channel := "channels_sync"; Payload := "node-2|reload" |}.

End realtime.

(** ** [controller]: the header of the outbound request

    Lines 374-422 of [relayTextHelper].  A [http.Header] maps a key in its
    canonical form to the values sent under it. *)

Module outbound.

Import GoStrings controller.

Definition Header : Type := gmap string (list string).

Definition is_lower (c : ascii) : bool :=
  let n := nat_of_ascii c in ((97 <=? n) && (n <=? 122))%nat.

Definition is_upper (c : ascii) : bool :=
  let n := nat_of_ascii c in ((65 <=? n) && (n <=? 90))%nat.

Definition is_digit (c : ascii) : bool :=
  let n := nat_of_ascii c in ((48 <=? n) && (n <=? 57))%nat.

Definition to_upper (c : ascii) : ascii :=
  if is_lower c then ascii_of_nat (nat_of_ascii c - 32) else c.

Definition to_lower (c : ascii) : ascii :=
  if is_upper c then ascii_of_nat (nat_of_ascii c + 32) else c.

(** [textproto.validHeaderFieldByte]: the bytes of an RFC 7230 token. *)
Definition validHeaderFieldByte (c : ascii) : bool :=
  is_lower c || is_upper c || is_digit c
  || existsb (Ascii.eqb c)
       ["!"; "#"; "$"; "%"; "&"; "'"; "*"; "+"; "-"; "."; "^"; "_"; "`"; "|"; "~"]%char.

Fixpoint all_valid (s : string) : bool :=
  match s with
  | EmptyString => true
  | String c r => validHeaderFieldByte c && all_valid r
  end.

(** The casing pass of [canonicalMIMEHeaderKey]: upper case at the start
    and after a hyphen, lower case elsewhere. *)
Fixpoint canonical_case (upper : bool) (s : string) : string :=
  match s with
  | EmptyString => EmptyString
  | String c r =>
      let c := if upper then to_upper c else to_lower c in
      String c (canonical_case (Ascii.eqb c "-") r)
  end.

(** [textproto.CanonicalMIMEHeaderKey]: a key with a byte that is not a
    token byte is left as it is. *)
Definition CanonicalMIMEHeaderKey (s : string) : string :=
  if all_valid s then canonical_case true s else s.

(** [h.Get(key)]: the first value under the key, [""] without one. *)
Definition Get (key : string) (h : Header) : string :=
  match h !! CanonicalMIMEHeaderKey key with
  | Some (v :: _) => v
  | _ => EmptyString
  end.

(** [h.Set(key, value)] *)
Definition Set_ (key value : string) (h : Header) : Header :=
  <[CanonicalMIMEHeaderKey key := [value]]> h.

(** [h.Del(key)] *)
Definition Del (key : string) (h : Header) : Header :=
  delete (CanonicalMIMEHeaderKey key) h.

(** The header of the request sent upstream, from the header of the
    inbound request [c.Request.Header]; no request is made for
    [APITypeXunfei].  [isStream] is [textRequest.Stream], which is what the
    variable [isStream] holds up to the dispatch.  [getZhipuToken] and the
    address [randomIPFromRanges] draws are handed in. *)
Definition request_header (getZhipuToken : string -> string) (randomIpString : string)
    (inbound : Header) (apiType : APIType) (channelType : ChannelType)
    (isStream : bool) : option Header :=
  let header := inbound in                         (* [c.Request.Header.Clone()] *)
  let apiKey := Get "Authorization" inbound in
  let apiKey := TrimPrefix apiKey "Bearer " in
  let with_key :=
    match apiType with
    | APITypeXunfei => None
    | APITypeOpenAI =>
        Some match channelType with
             | ChannelTypeAzure => Set_ "api-key" apiKey header
             | ChannelTypeOpenRouter =>
                 let header := Set_ "Authorization" (Get "Authorization" inbound) header in
                 let header :=
                   Set_ "HTTP-Referer" "https://github.com/songquanpeng/one-api" header in
                 Set_ "X-Title" "One API" header
             | _ => Set_ "Authorization" (Get "Authorization" inbound) header
             end
    | APITypeClaude =>
        let header := Set_ "x-api-key" apiKey header in
        let anthropicVersion := Get "anthropic-version" inbound in
        let anthropicVersion :=
          if String.eqb anthropicVersion "" then "2023-06-01"%string else anthropicVersion in
        Some (Set_ "anthropic-version" anthropicVersion header)
    | APITypeZhipu => Some (Set_ "Authorization" (getZhipuToken apiKey) header)
    | APITypeAli =>
        let header := Set_ "Authorization" ("Bearer " +:+ apiKey) header in
        Some (if isStream then Set_ "X-DashScope-SSE" "enable" header else header)
    | APITypeTencent => Some (Set_ "Authorization" apiKey header)
    | APITypePaLM => Some header                   (* do not set Authorization header *)
    | APITypeOpenAIWeb =>
        let header : Header := ∅ in                (* a request made anew *)
        let header := Set_ "x-real-ip" randomIpString header in
        let header :=
          Set_ "x-forwarded-for"
            ("2a06:98c0:3600::103, 2a0e:97c0:7d4:ff31::a,5.253.36.142," +:+ randomIpString)
            header in
        let header := Set_ "remote-host" randomIpString header in
        Some (Set_ "Authorization" ("Bearer " +:+ apiKey) header)
    | APITypeBaidu | APITypeAIProxyLibrary =>
        Some (Set_ "Authorization" ("Bearer " +:+ apiKey) header)
    end in
  match with_key with
  | None => None
  | Some header =>
      let header := if Contains apiKey "ignore" then Del "Authorization" header else header in
      let header := Set_ "Content-Type" (Get "Content-Type" inbound) header in
      let header := Set_ "Accept" (Get "Accept" inbound) header in
      Some (if isStream && String.eqb (Get "Accept" inbound) ""
            then Set_ "Accept" "text/event-stream" header
            else header)
  end.

End outbound.

(** ** [model]: the channel table and the cache of the enabled channels *)

Module channel_store.

Import model election.

(** Configuration of package [common] and the JSON codec. *)
Record Env := {
  RedisEnabled : bool;
  ChannelStatusEnabled : Z;
  ChannelStatusManuallyDisabled : Z;
  ChannelStatusAutoDisabled : Z;
  (** [json.Marshal] of a channel; its error is dropped by the caller *)
  json_Marshal : Channel -> string;
  (** [json.Unmarshal] into a channel; [None] is an error *)
  json_Unmarshal : string -> option Channel
}.

(** The table [channels], in the order the database hands rows back, and
    the error the next query meets, if it meets one. *)
Record DB := {
  rows : list Channel;
  db_error : option string
}.

(** The part of the key-value store the cache lives in. *)
Record Redis := {
  strings_ : gmap string string;
  lists : gmap string (list string);
  expires : gmap string Z        (* time to live, a [time.Duration] *)
}.

(** How each command of a call travels. *)
Record Net := {
  net_SetNX : Transport;
  net_LRange : Transport;
  net_LPush : nat -> Transport;   (* by the position of the channel pushed *)
  net_Expire : Transport;
  net_Del : Transport
}.

Definition lockKey : string := "channel:enable:list:lock".
Definition listKey : string := "channel:enable:list".

Definition exists_key (key : string) (rdb : Redis) : bool :=
  match strings_ rdb !! key, lists rdb !! key with
  | None, None => false
  | _, _ => true
  end.

(** [SET key value PX ttl NX] *)
Definition SetNX (key val : string) (ttl : Z) (rdb : Redis) : Redis * bool :=
  if exists_key key rdb then (rdb, false)
  else ({| strings_ := <[key := val]> (strings_ rdb);
           lists := lists rdb;
           expires := <[key := ttl]> (expires rdb) |}, true).

(** [DEL key] *)
Definition Del (key : string) (rdb : Redis) : Redis :=
  {| strings_ := delete key (strings_ rdb);
     lists := delete key (lists rdb);
     expires := delete key (expires rdb) |}.

(** [LRANGE key 0 -1] *)
Definition LRange (key : string) (rdb : Redis) : list string :=
  default [] (lists rdb !! key).

(** [LPUSH key value] *)
Definition LPush (key val : string) (rdb : Redis) : Redis :=
  {| strings_ := strings_ rdb;
     lists := <[key := val :: LRange key rdb]> (lists rdb);
     expires := expires rdb |}.

(** [EXPIRE key ttl] *)
Definition Expire (key : string) (ttl : Z) (rdb : Redis) : Redis :=
  if exists_key key rdb
  then {| strings_ := strings_ rdb; lists := lists rdb;
          expires := <[key := ttl]> (expires rdb) |}
  else rdb.

(** A command whose outcome the caller does not look at. *)
Definition send (t : Transport) (cmd : Redis -> Redis) (rdb : Redis) : Redis :=
  match t with
  | LostRequest => rdb
  | _ => cmd rdb
  end.

Definition enabled (E : Env) (channel : Channel) : bool :=
  Status channel =? ChannelStatusEnabled E.

(** [DB.Where("status = ?", common.ChannelStatusEnabled).Find(&channels)]:
    the rows found, each behind a pointer of its own, and the error. *)
Definition Find_enabled (E : Env) (db : DB) : list Channel * option string :=
  match db_error db with
  | Some e => ([], Some e)
  | None => (List.filter (enabled E) (rows db), None)
  end.

Definition readChannelsFromDB (E : Env) (db : DB) : list (ptr Channel) * option string :=
  let '(channels, err) := Find_enabled E db in
  (Some <$> channels, err).

(** Lines 94-97: the loop over [channels], at position [i]. *)
Fixpoint push_from (E : Env) (net : Net) (i : nat) (channels : list Channel)
    (rdb : Redis) : Redis :=
  match channels with
  | [] => rdb
  | channel :: rest =>
      push_from E net (S i) rest
        (send (net_LPush net i) (LPush listKey (json_Marshal E channel)) rdb)
  end.

Definition readAndCacheChannels (E : Env) (net : Net) (db : DB) (rdb : Redis)
  : Redis * (list (ptr Channel) * option string) :=
  match Find_enabled E db with
  | (_, Some err) => (rdb, ([], Some err))
  | (channels, None) =>
      let rdb := push_from E net 0 channels rdb in
      (send (net_Expire net) (Expire listKey (150 * Second)) rdb,
       (Some <$> channels, None))
  end.

(** Lines 69-77: the loop over [val], at position [i]. *)
Fixpoint parse_from (E : Env) (i : nat) (val : list string) (channels : list (ptr Channel))
  : list (ptr Channel) :=
  match val with
  | [] => channels
  | jsonData :: rest =>
      match json_Unmarshal E jsonData with
      | None => parse_from E (S i) rest channels                       (* continue *)
      | Some channel => parse_from E (S i) rest (<[i := Some channel]> channels)
      end
  end.

Definition GetEnableChannels (E : Env) (net : Net) (db : DB) (rdb : Redis)
  : Redis * (list (ptr Channel) * option string) :=
  if negb (RedisEnabled E) then (rdb, readChannelsFromDB E db)
  else
    let '(rdb, reply) :=
      match net_SetNX net with
      | LostRequest => (rdb, false)
      | _ => SetNX lockKey "1" (5 * Second) rdb
      end in
    match bool_Result (net_SetNX net) reply with
    | (_, Some _) => (rdb, readChannelsFromDB E db)
    | (false, None) => (rdb, readChannelsFromDB E db)
    | (true, None) =>
        let '(rdb, result) :=
          let val := match net_LRange net with
                     | Delivered => Some (LRange listKey rdb)
                     | _ => None                     (* [err != nil] *)
                     end in
          match val with
          | Some (jsonData :: rest) =>
              let val := jsonData :: rest in
              (rdb, (parse_from E 0 val (replicate (length val) None), None))
          | _ => readAndCacheChannels E net db rdb
          end in
        (send (net_Del net) (Del lockKey) rdb, result)   (* the deferred release *)
    end.

Definition zero_Channel : Channel :=
  {| Id := 0; Type_ := 0; Key := ""; Status := 0; Name := ""; Weight := None;
     CreatedTime := 0; TestTime := 0; ResponseTime := 0; FullURL := ""; BaseURL := None;
     Other := ""; Balance := 0%float; BalanceUpdatedTime := 0; Models := ""; Group := "";
     UsedQuota := 0; AsyncNum := 0; ModelMapping := None; Priority := None;
     AutoBan := None |}.

Definition with_Id (id : Z) (c : Channel) : Channel :=
  {| Id := id; Type_ := Type_ c; Key := Key c; Status := Status c; Name := Name c;
     Weight := Weight c; CreatedTime := CreatedTime c; TestTime := TestTime c;
     ResponseTime := ResponseTime c; FullURL := FullURL c; BaseURL := BaseURL c;
     Other := Other c; Balance := Balance c; BalanceUpdatedTime := BalanceUpdatedTime c;
     Models := Models c; Group := Group c; UsedQuota := UsedQuota c;
     AsyncNum := AsyncNum c; ModelMapping := ModelMapping c; Priority := Priority c;
     AutoBan := AutoBan c |}.

(** A row read with [Omit("key")] into a channel whose [Key] is [key]. *)
Definition with_Key (key : string) (c : Channel) : Channel :=
  {| Id := Id c; Type_ := Type_ c; Key := key; Status := Status c; Name := Name c;
     Weight := Weight c; CreatedTime := CreatedTime c; TestTime := TestTime c;
     ResponseTime := ResponseTime c; FullURL := FullURL c; BaseURL := BaseURL c;
     Other := Other c; Balance := Balance c; BalanceUpdatedTime := BalanceUpdatedTime c;
     Models := Models c; Group := Group c; UsedQuota := UsedQuota c;
     AsyncNum := AsyncNum c; ModelMapping := ModelMapping c; Priority := Priority c;
     AutoBan := AutoBan c |}.

(** [DB.First(&channel, "id = ?", id)]: the row is scanned into [channel];
    without a row [channel] stays as it was. *)
Definition GetChannelById (db : DB) (id : Z) (selectAll : bool)
  : ptr Channel * option string :=
  let channel := with_Id id zero_Channel in
  match db_error db with
  | Some e => (Some channel, Some e)
  | None =>
      match List.find (fun row => Id row =? id) (rows db) with
      | Some row =>
          (Some (if selectAll then row else with_Key (Key channel) row), None)
      | None => (Some channel, Some "record not found"%string)
      end
  end.

(** [DB.Where(cond).Delete(&Channel{})]: the table left, [RowsAffected]
    and the error. *)
Definition Delete_where (cond : Channel -> bool) (db : DB) : DB * (Z * option string) :=
  match db_error db with
  | Some e => (db, (0, Some e))
  | None =>
      ({| rows := List.filter (fun row => negb (cond row)) (rows db); db_error := None |},
       (Z.of_nat (length (List.filter cond (rows db))), None))
  end.

Definition DeleteChannelByStatus (status : Z) (db : DB) : DB * (Z * option string) :=
  Delete_where (fun row => Status row =? status) db.

(** The deferred [UpdateAllAbilities] works on the abilities table, which
    is not part of this state. *)
Definition DeleteDisabledChannel (E : Env) (db : DB) : DB * (Z * option string) :=
  Delete_where
    (fun row => (Status row =? ChannelStatusAutoDisabled E)
                || (Status row =? ChannelStatusManuallyDisabled E)) db.

End channel_store.

(** ** A relay call, run *)

Module Scenario.

Import controller.

Definition hello : GeneralOpenAIRequest :=
  {| Model := "gpt-4";
     Messages := [{| Role := "user"; Content := "hi" |}];
     Prompt := ""; Stream := false; MaxTokens := 0; Input := ""; Instruction := "" |}.

(** Ratios 15 for [gpt-4] and 3/4 for everything else, group ratio 1/2,
    completion ratio 2; ten prompt tokens; the upstream answers 200 with
    the usage given. *)
Definition env (modelMap : gmap string string) (usage : option Usage) : Env :=
  {| UnmarshalBodyReusable := fun _ => Ok hello;
     json_Unmarshal_map := fun _ => Ok modelMap;
     json_Marshal := fun _ => Ok EmptyString;
     GetModelRatio := fun m => if String.eqb m "gpt-4" then 15%float else 0.75%float;
     GetGroupRatio := fun _ => 0.5%float;
     GetCompletionRatio := fun _ => 2%float;
     GOARCH := arm64;
     countTokenMessages := fun _ _ => 10;
     countTokenInput := fun _ _ => 10;
     countTokenText := fun _ _ => 0;
     PreConsumedQuota := 500;
     BatchUpdateEnabled := false;
     ChannelBaseURLs := fun _ => "https://api.openai.com"%string;
     getFullRequestURL := fun baseURL requestURL _ => baseURL +:+ requestURL;
     getBaiduAccessToken := fun k => Ok k;
     parseTencentConfig := fun _ => Err "no tencent"%string;
     Do := fun _ _ => Ok {| StatusCode := 200; ContentType := "application/json" |};
     relayErrorHandler := fun r => errorWrapper "upstream" "upstream_error" (StatusCode r);
     textStreamHandler := fun _ _ _ => Ok EmptyString;
     usageHandler := fun _ _ _ _ _ _ _ => Ok usage |}.

Definition ctx (modelMapping : string) : Context :=
  {| ctx_channel := ChannelTypeOpenAI; ctx_channel_id := 3; ctx_token_id := 7;
     ctx_id := 1; ctx_group := "default"; ctx_token_name := "demo";
     ctx_model_mapping := modelMapping; ctx_base_url := "";
     ctx_full_url := ""; ctx_library_id := ""; ctx_async_num := 1;
     ctx_param_model := ""; ctx_request_url := "/v1/chat/completions";
     ctx_request_body := "{}"; ctx_authorization := "Bearer sk-abc";
     ctx_api_version := "" |}.

Definition ledger (userQuota : Z) : Ledger.t :=
  {| Ledger.user_quota := {[ 1 := userQuota ]};
     Ledger.user_quota_cache := {[ 1 := userQuota ]};
     Ledger.token_remain := {[ 7 := 50000 ]};
     Ledger.user_used_quota := ∅;
     Ledger.user_request_count := ∅;
     Ledger.channel_used_quota := ∅;
     Ledger.batch_channel_used := ∅;
     Ledger.consume_logs := [] |}.

Definition usage_10_20 : Usage :=
  {| PromptTokens := 10; CompletionTokens := 20; TotalTokens := 30 |}.

(** The plain call: no mapping, a usage of 10 and 20 tokens. *)
Definition plain_run : Ledger.t * Report :=
  relayTextHelper (env ∅ (Some usage_10_20)) (ctx "") RelayModeChatCompletions
    (ledger 100000).

Definition plain_settlement : Settlement :=
  {| s_modelName := "gpt-4";
     s_modelRatio := 15%float;
     s_groupRatio := 0.5%float;
     s_completionRatio := 2%float;
     s_promptTokens := 10;
     s_completionTokens := 20;
     s_preConsumedQuota := 3750;
     s_quota := 375;
     s_quotaDelta := -3375 |}.

(** The channel maps [gpt-4] to [gpt-3.5-turbo].  The text of the mapping
    is parsed by the environment, which hands back [turbo_map]. *)
Definition turbo_map : gmap string string := {[ "gpt-4"%string := "gpt-3.5-turbo"%string ]}.

Definition mapped_env : Env := env turbo_map (Some usage_10_20).

Definition mapped_ctx : Context := ctx "{gpt-4: gpt-3.5-turbo}".

Definition mapped_run : Ledger.t * Report :=
  relayTextHelper mapped_env mapped_ctx RelayModeChatCompletions (ledger 100000).

Definition mapped_hello : GeneralOpenAIRequest := with_Model "gpt-3.5-turbo" hello.

Definition mapped_settlement : Settlement :=
  {| s_modelName := "gpt-3.5-turbo";
     s_modelRatio := 0.75%float;
     s_groupRatio := 0.5%float;
     s_completionRatio := 2%float;
     s_promptTokens := 10;
     s_completionTokens := 20;
     s_preConsumedQuota := 0;
     s_quota := 19;
     s_quotaDelta := 19 |}.

Definition mapped_sent : OutboundRequest :=
  {| out_url := "https://api.openai.com/v1/chat/completions";
     out_body := Marshalled (CanonicalJSON mapped_hello);
     out_via := ViaHTTPClient |}.

(** The settlement of the plain call, taken by itself. *)
Definition plain_settle : Ledger.t * Settlement :=
  settle (env ∅ (Some usage_10_20)) (ctx "") "gpt-4"
    (price (env ∅ (Some usage_10_20)) "default" RelayModeChatCompletions
       hello)
    100000 3750 usage_10_20
    (fst (preconsume 1 7 3750 (ledger 100000))).

(** An Azure channel. *)
Definition azure_env : Env :=
  {| UnmarshalBodyReusable := fun _ => Err "unused"%string;
     json_Unmarshal_map := fun _ => Ok ∅;
     json_Marshal := fun _ => Ok EmptyString;
     GetModelRatio := fun _ => 1%float;
     GetGroupRatio := fun _ => 1%float;
     GetCompletionRatio := fun _ => 1%float;
     GOARCH := arm64;
     countTokenMessages := fun _ _ => 0;
     countTokenInput := fun _ _ => 0;
     countTokenText := fun _ _ => 0;
     PreConsumedQuota := 500;
     BatchUpdateEnabled := false;
     ChannelBaseURLs := fun _ => EmptyString;
     getFullRequestURL := fun baseURL requestURL _ => baseURL +:+ requestURL;
     getBaiduAccessToken := fun k => Ok k;
     parseTencentConfig := fun _ => Err "unused"%string;
     Do := fun _ _ => Err "unused"%string;
     relayErrorHandler := fun _ => errorWrapper "" "" 0;
     textStreamHandler := fun _ _ _ => Ok EmptyString;
     usageHandler := fun _ _ _ _ _ _ _ => Ok None |}.

Definition azure_ctx : Context :=
  {| ctx_channel := ChannelTypeAzure; ctx_channel_id := 1; ctx_token_id := 1;
     ctx_id := 1; ctx_group := "default"; ctx_token_name := "t";
     ctx_model_mapping := ""; ctx_base_url := "https://example.openai.azure.com";
     ctx_full_url := ""; ctx_library_id := ""; ctx_async_num := 1;
     ctx_param_model := ""; ctx_request_url := "/v1/chat/completions?x=1";
     ctx_request_body := ""; ctx_authorization := "Bearer k";
     ctx_api_version := "2023-05-15" |}.

Definition azure_req : GeneralOpenAIRequest :=
  {| Model := "gpt-3.5-turbo-0613"; Messages := []; Prompt := ""; Stream := false;
     MaxTokens := 0; Input := ""; Instruction := "" |}.

(** The upstream call yields no usage: nothing is counted. *)
Definition silent_run : Ledger.t * Report :=
  relayTextHelper (env ∅ None) (ctx "") RelayModeChatCompletions (ledger 100000).

(** Calls that differ in the two ratios and in the number of prompt
    tokens; the completion ratio is 1 and no completion token is counted. *)
Definition priced_env (platform : Arch) (modelRatio groupRatio : float) (tokens : Z) : Env :=
  {| UnmarshalBodyReusable := fun _ => Ok hello;
     json_Unmarshal_map := fun _ => Ok ∅;
     json_Marshal := fun _ => Ok EmptyString;
     GetModelRatio := fun _ => modelRatio;
     GetGroupRatio := fun _ => groupRatio;
     GetCompletionRatio := fun _ => 1%float;
     GOARCH := platform;
     countTokenMessages := fun _ _ => tokens;
     countTokenInput := fun _ _ => tokens;
     countTokenText := fun _ _ => 0;
     PreConsumedQuota := 500;
     BatchUpdateEnabled := false;
     ChannelBaseURLs := fun _ => "https://api.openai.com"%string;
     getFullRequestURL := fun baseURL requestURL _ => baseURL +:+ requestURL;
     getBaiduAccessToken := fun k => Ok k;
     parseTencentConfig := fun _ => Err "no tencent"%string;
     Do := fun _ _ => Ok {| StatusCode := 200; ContentType := "application/json" |};
     relayErrorHandler := fun r => errorWrapper "upstream" "upstream_error" (StatusCode r);
     textStreamHandler := fun _ _ _ => Ok EmptyString;
     usageHandler := fun _ _ _ _ _ _ _ =>
       Ok (Some {| PromptTokens := tokens; CompletionTokens := 0; TotalTokens := tokens |}) |}.

(** Model ratio 0.05, group ratio 0.8, 25 prompt tokens. *)
Definition nickel_run (platform : Arch) : Ledger.t * Report :=
  relayTextHelper (priced_env platform (5 / 100) (8 / 10) 25) (ctx "")
    RelayModeChatCompletions (ledger 100000).

(** Model ratio 0.05, group ratio 1, 20 prompt tokens. *)
Definition twenty_run (platform : Arch) : Ledger.t * Report :=
  relayTextHelper (priced_env platform (5 / 100) 1 20) (ctx "")
    RelayModeChatCompletions (ledger 100000).

(** The same environment with another upstream behind [Do]. *)
Definition with_Do (d : Context -> OutboundRequest -> Result string Response) (E : Env)
  : Env :=
  {| UnmarshalBodyReusable := UnmarshalBodyReusable E;
     json_Unmarshal_map := json_Unmarshal_map E;
     json_Marshal := json_Marshal E;
     GetModelRatio := GetModelRatio E;
     GetGroupRatio := GetGroupRatio E;
     GetCompletionRatio := GetCompletionRatio E;
     GOARCH := GOARCH E;
     countTokenMessages := countTokenMessages E;
     countTokenInput := countTokenInput E;
     countTokenText := countTokenText E;
     PreConsumedQuota := PreConsumedQuota E;
     BatchUpdateEnabled := BatchUpdateEnabled E;
     ChannelBaseURLs := ChannelBaseURLs E;
     getFullRequestURL := getFullRequestURL E;
     getBaiduAccessToken := getBaiduAccessToken E;
     parseTencentConfig := parseTencentConfig E;
     Do := d;
     relayErrorHandler := relayErrorHandler E;
     textStreamHandler := textStreamHandler E;
     usageHandler := usageHandler E |}.

(** The upstream answers 429. *)
Definition busy_env : Env :=
  with_Do (fun _ _ => Ok {| StatusCode := 429; ContentType := "application/json" |})
    (env ∅ (Some usage_10_20)).

Definition busy_run : Ledger.t * Report :=
  relayTextHelper busy_env (ctx "") RelayModeChatCompletions (ledger 100000).

(** The upstream cannot be reached. *)
Definition down_env : Env :=
  with_Do (fun _ _ => Err "connection refused"%string) (env ∅ (Some usage_10_20)).

Definition down_run : Ledger.t * Report :=
  relayTextHelper down_env (ctx "") RelayModeChatCompletions (ledger 100000).

(** The request the plain call sends. *)
Definition plain_sent : OutboundRequest :=
  {| out_url := "https://api.openai.com/v1/chat/completions";
     out_body := InboundBody "{}";
     out_via := ViaHTTPClient |}.



End Scenario.

(** * Properties *)

(** ** Machine integers *)

Module GoIntFacts.

Import GoInt.

Lemma wrap_in_range (x : Z) : in_range (wrap x).
Proof.
  unfold in_range, wrap, int_min, int_max.
  pose proof (Z.mod_pos_bound (x + 2 ^ 63) (2 ^ 64) ltac:(lia)). lia.
Qed.

Lemma wrap_id (x : Z) : in_range x -> wrap x = x.
Proof.
  unfold in_range, wrap, int_min, int_max. intros Hx.
  rewrite Z.mod_small by lia. lia.
Qed.

Lemma add_exact (x y : Z) : in_range (x + y) -> add x y = x + y.
Proof. apply wrap_id. Qed.

Lemma sub_exact (x y : Z) : in_range (x - y) -> sub x y = x - y.
Proof. apply wrap_id. Qed.

Lemma mul_exact (x y : Z) : in_range (x * y) -> mul x y = x * y.
Proof. apply wrap_id. Qed.

(** A sum of two non-negative [int64] values wraps to zero only if it is zero. *)
Lemma add_nonneg_eq_0 (x y : Z) :
  0 <= x <= int_max -> 0 <= y <= int_max -> add x y = 0 <-> x + y = 0.
Proof.
  unfold add, wrap, int_max. intros Hx Hy. split; intros H.
  - destruct (Z_lt_le_dec (x + y) (2 ^ 63)) as [Hlt | Hge].
    + rewrite Z.mod_small in H by lia. lia.
    + replace (x + y + 2 ^ 63) with ((x + y - 2 ^ 63) + 1 * 2 ^ 64) in H by lia.
      rewrite Z.mod_add in H by lia. rewrite Z.mod_small in H by lia. lia.
  - rewrite H. reflexivity.
Qed.

Lemma quot2_in_range (x : Z) : in_range x -> in_range (Z.quot x 2).
Proof.
  unfold in_range, int_min, int_max. intros Hx.
  pose proof (Z.quot_rem' x 2) as Hqr.
  pose proof (Z.rem_bound_abs x 2 ltac:(lia)) as Hr.
  lia.
Qed.

End GoIntFacts.

(** ** Strings *)

Module GoStringsFacts.

Import GoStrings.

Lemma append_nil (t : string) : "" +:+ t = t.
Proof. reflexivity. Qed.

Lemma append_cons (c : ascii) (s t : string) : String c s +:+ t = String c (s +:+ t).
Proof. reflexivity. Qed.

Ltac str_simpl := repeat (rewrite ?append_cons, ?append_nil; simpl).

Lemma length_app (s t : string) :
  String.length (s +:+ t) = (String.length s + String.length t)%nat.
Proof. induction s as [| c s IH]; str_simpl; [reflexivity | now rewrite IH]. Qed.

Lemma app_nil_r (s : string) : s +:+ "" = s.
Proof. induction s as [| c s IH]; str_simpl; [reflexivity | now rewrite IH]. Qed.

Lemma app_assoc (s t u : string) : (s +:+ t) +:+ u = s +:+ (t +:+ u).
Proof. induction s as [| c s IH]; str_simpl; [reflexivity | now rewrite IH]. Qed.

Lemma take_app_exact (s t : string) : take (String.length s) (s +:+ t) = s.
Proof.
  induction s as [| c s IH]; str_simpl.
  - now destruct t.
  - now rewrite IH.
Qed.

Lemma drop_app_exact (s t : string) : drop (String.length s) (s +:+ t) = t.
Proof. induction s as [| c s IH]; str_simpl; [reflexivity | exact IH]. Qed.

Lemma take_drop (n : nat) (s : string) : take n s +:+ drop n s = s.
Proof.
  revert s. induction n as [| n IH]; intros [| c s]; str_simpl; try reflexivity.
  now rewrite IH.
Qed.

Lemma take_all (n : nat) (s : string) : (String.length s <= n)%nat -> take n s = s.
Proof.
  revert s. induction n as [| n IH]; intros [| c s]; simpl; intros H;
    try reflexivity; try lia.
  rewrite IH by lia. reflexivity.
Qed.

Lemma length_take (n : nat) (s : string) :
  String.length (take n s) = Nat.min n (String.length s).
Proof.
  revert s. induction n as [| n IH]; intros [| c s]; simpl; try reflexivity.
  now rewrite IH.
Qed.

Lemma length_drop (n : nat) (s : string) :
  String.length (drop n s) = (String.length s - n)%nat.
Proof.
  revert s. induction n as [| n IH]; intros [| c s]; simpl; try reflexivity.
  now rewrite IH.
Qed.

Lemma eqb_true (s t : string) : String.eqb s t = true <-> s = t.
Proof. apply String.eqb_eq. Qed.

(** [HasPrefix] and [HasSuffix] decide the two factorisations. *)

Lemma HasPrefix_iff (s p : string) :
  HasPrefix s p = true <-> exists t, s = p +:+ t.
Proof.
  unfold HasPrefix, slice. simpl. rewrite Nat.sub_0_r. split.
  - intros H. apply andb_true_iff in H as [_ H]. apply eqb_true in H.
    exists (drop (String.length p) s).
    rewrite <- H at 1. apply eq_sym, take_drop.
  - intros [t ->]. apply andb_true_iff. split.
    + apply Nat.leb_le. rewrite length_app. lia.
    + apply eqb_true, take_app_exact.
Qed.

Lemma HasSuffix_iff (s x : string) :
  HasSuffix s x = true <-> exists t, s = t +:+ x.
Proof.
  unfold HasSuffix, slice_from. split.
  - intros H. apply andb_true_iff in H as [_ H]. apply eqb_true in H.
    exists (take (String.length s - String.length x) s).
    rewrite <- (take_drop (String.length s - String.length x) s) at 1.
    now rewrite H.
  - intros [t ->]. apply andb_true_iff. split.
    + apply Nat.leb_le. rewrite length_app. lia.
    + apply eqb_true. rewrite length_app.
      replace (String.length t + String.length x - String.length x)%nat
        with (String.length t) by lia.
      apply drop_app_exact.
Qed.

Lemma TrimPrefix_app (p t : string) : TrimPrefix (p +:+ t) p = t.
Proof.
  unfold TrimPrefix.
  replace (HasPrefix (p +:+ t) p) with true
    by (symmetry; apply HasPrefix_iff; eauto).
  apply drop_app_exact.
Qed.

Lemma TrimSuffix_app (t x : string) : TrimSuffix (t +:+ x) x = t.
Proof.
  unfold TrimSuffix, slice.
  replace (HasSuffix (t +:+ x) x) with true
    by (symmetry; apply HasSuffix_iff; eauto).
  simpl. rewrite Nat.sub_0_r, length_app.
  replace (String.length t + String.length x - String.length x)%nat
    with (String.length t) by lia.
  apply take_app_exact.
Qed.

Lemma TrimSuffix_cases (s x : string) :
  (exists t, s = t +:+ x /\ TrimSuffix s x = t)
  \/ (HasSuffix s x = false /\ TrimSuffix s x = s).
Proof.
  destruct (HasSuffix s x) eqn:H.
  - left. apply HasSuffix_iff in H as [t ->]. exists t. split; [reflexivity |].
    apply TrimSuffix_app.
  - right. split; [reflexivity |]. unfold TrimSuffix. now rewrite H.
Qed.

Lemma TrimPrefix_cases (s p : string) :
  (exists t, s = p +:+ t /\ TrimPrefix s p = t)
  \/ (HasPrefix s p = false /\ TrimPrefix s p = s).
Proof.
  destruct (HasPrefix s p) eqn:H.
  - left. apply HasPrefix_iff in H as [t ->]. exists t. split; [reflexivity |].
    apply TrimPrefix_app.
  - right. split; [reflexivity |]. unfold TrimPrefix. now rewrite H.
Qed.

(** Bytes that do not occur. *)

Lemma free_of_app (c : ascii) (s t : string) :
  free_of c (s +:+ t) = free_of c s && free_of c t.
Proof.
  induction s as [| d s IH]; str_simpl; [reflexivity |].
  rewrite IH. now rewrite andb_assoc.
Qed.

Lemma free_of_take (c : ascii) (n : nat) (s : string) :
  free_of c s = true -> free_of c (take n s) = true.
Proof.
  intros H. rewrite <- (take_drop n s), free_of_app in H.
  now apply andb_true_iff in H as [H _].
Qed.

Lemma free_of_TrimSuffix (c : ascii) (s x : string) :
  free_of c s = true -> free_of c (TrimSuffix s x) = true.
Proof.
  intros H. unfold TrimSuffix, slice.
  destruct (HasSuffix s x); [| exact H]. now apply free_of_take.
Qed.

Lemma free_of_without (c : ascii) (s : string) : free_of c (without c s) = true.
Proof.
  induction s as [| d s IH]; simpl; [reflexivity |].
  destruct (Ascii.eqb d c) eqn:Hd; [exact IH |].
  simpl. now rewrite Hd, IH.
Qed.

Lemma without_free (c : ascii) (s : string) : free_of c s = true -> without c s = s.
Proof.
  induction s as [| d s IH]; simpl; [reflexivity |].
  intros H. apply andb_true_iff in H as [Hd Hs].
  apply negb_true_iff in Hd. rewrite Hd, IH by exact Hs. reflexivity.
Qed.

(** A one-byte pattern. *)

Lemma HasPrefix_byte (c a : ascii) (r : string) :
  HasPrefix (String c r) (String a "") = Ascii.eqb c a.
Proof.
  unfold HasPrefix, slice. simpl. now destruct (Ascii.eqb c a).
Qed.

Lemma HasPrefix_byte_nil (a : ascii) : HasPrefix "" (String a "") = false.
Proof. reflexivity. Qed.

(** [strings.Replace(s, old, "", -1)] with a one-byte [old] drops that byte. *)
Lemma ReplaceAll_byte (a : ascii) (s : string) :
  ReplaceAll s (String a "") "" = without a s.
Proof.
  unfold ReplaceAll. induction s as [| c s IH]; [reflexivity |].
  cbn [replace_from without]. rewrite HasPrefix_byte.
  destruct (Ascii.eqb c a).
  - rewrite append_nil. exact IH.
  - now rewrite IH.
Qed.

Lemma Index_byte_free (a : ascii) (s t : string) :
  free_of a s = true ->
  Index (s +:+ String a t) (String a "") = Z.of_nat (String.length s).
Proof.
  induction s as [| c s IH]; intros H.
  - rewrite append_nil. cbn [Index]. rewrite HasPrefix_byte.
    now rewrite Ascii.eqb_refl.
  - simpl in H. apply andb_true_iff in H as [Hc Hs].
    apply negb_true_iff in Hc.
    rewrite append_cons. cbn [Index]. rewrite HasPrefix_byte, Hc.
    rewrite IH by exact Hs.
    destruct (Z.ltb_spec (Z.of_nat (String.length s)) 0) as [Hlt | _]; [lia |].
    cbn [String.length]. lia.
Qed.

Lemma Index_byte_absent (a : ascii) (s : string) :
  free_of a s = true -> Index s (String a "") = -1.
Proof.
  induction s as [| c s IH]; intros H; [reflexivity |].
  simpl in H. apply andb_true_iff in H as [Hc Hs].
  apply negb_true_iff in Hc.
  cbn [Index]. rewrite HasPrefix_byte, Hc, IH by exact Hs. reflexivity.
Qed.

Lemma Index_lower_bound (s sep : string) : -1 <= Index s sep.
Proof.
  induction s as [| c s IH]; cbn [Index].
  - destruct (HasPrefix "" sep); lia.
  - destruct (HasPrefix (String c s) sep); [lia |].
    destruct (Index s sep <? 0); lia.
Qed.

(** What [Split] puts first. *)
Lemma Split_hd (s sep : string) : hd EmptyString (Split s sep) = before_first s sep.
Proof.
  unfold Split, before_first.
  destruct s as [| c s].
  - cbn [String.length split_rounds hd].
    destruct (Index "" sep <? 0) eqn:Hi; [reflexivity |].
    unfold slice. now destruct (Z.to_nat (Index "" sep) - 0)%nat.
  - cbn [String.length split_rounds].
    now destruct (Index (String c s) sep <? 0).
Qed.

Lemma Split_nonempty (s sep : string) : Split s sep <> [].
Proof.
  unfold Split. destruct (String.length s); cbn [split_rounds]; [discriminate |].
  destruct (Index s sep <? 0); discriminate.
Qed.

(** Suffixes of one length. *)
Lemma HasSuffix_app_same_length (b x y : string) :
  String.length x = String.length y -> HasSuffix (b +:+ x) y = String.eqb x y.
Proof.
  intros Hl. unfold HasSuffix, slice_from. rewrite length_app, <- Hl.
  replace (String.length b + String.length x - String.length x)%nat
    with (String.length b) by lia.
  rewrite drop_app_exact.
  replace (String.length x <=? String.length b + String.length x)%nat with true
    by (symmetry; apply Nat.leb_le; lia).
  reflexivity.
Qed.

Lemma TrimSuffix_is_prefix (s x : string) : exists t, s = TrimSuffix s x +:+ t.
Proof.
  destruct (TrimSuffix_cases s x) as [(t & -> & ->) | [_ ->]].
  - now exists x.
  - exists EmptyString. now rewrite app_nil_r.
Qed.

Lemma slice_0 (s : string) (n : nat) : slice s 0 n = take n s.
Proof. unfold slice. simpl. now rewrite Nat.sub_0_r. Qed.

End GoStringsFacts.

(** ** [model.Channel]: the accessors *)

Module modelProps.

Import model.

(** C10.  For every [Channel] value the three accessors return without a
    panic: [GetPriority] gives the pointed-to priority, and [0] when the
    [Priority] pointer is nil; [GetBaseURL] and [GetModelMapping] give the
    pointed-to string, and the empty string when their pointer is nil. *)
Theorem accessors_total_on_nil (c : Channel) :
  GetPriority (Some c) = Ok (match Priority c with Some v => v | None => 0 end)
  /\ GetBaseURL (Some c) = Ok (match BaseURL c with Some v => v | None => EmptyString end)
  /\ GetModelMapping (Some c)
     = Ok (match ModelMapping c with Some v => v | None => EmptyString end).
Proof.
  unfold GetPriority, GetBaseURL, GetModelMapping. simpl.
  destruct (Priority c), (BaseURL c), (ModelMapping c); repeat split; reflexivity.
Qed.

(** The receiver itself is a pointer: on a nil receiver the field read panics. *)
Lemma accessors_nil_receiver :
  GetPriority None = Err NilDereference
  /\ GetBaseURL None = Err NilDereference
  /\ GetModelMapping None = Err NilDereference.
Proof. repeat split; reflexivity. Qed.

End modelProps.

(** ** The Azure deployment URL *)

Module AzureURL.

Import GoStrings GoStringsFacts controller.

Definition dot : ascii := "."%char.

Lemma azure_model_eq (m : string) :
  azure_model m
  = TrimSuffix (TrimSuffix (TrimSuffix (without dot m) "-0301") "-0314") "-0613".
Proof. unfold azure_model. now rewrite (ReplaceAll_byte dot). Qed.

Lemma azure_model_no_dot (m : string) : free_of dot (azure_model m) = true.
Proof.
  rewrite azure_model_eq.
  do 3 apply free_of_TrimSuffix. apply free_of_without.
Qed.

Lemma azure_model_is_prefix (m : string) : exists t, without dot m = azure_model m +:+ t.
Proof.
  rewrite azure_model_eq.
  destruct (TrimSuffix_is_prefix (without dot m) "-0301") as [t1 H1].
  destruct (TrimSuffix_is_prefix (TrimSuffix (without dot m) "-0301") "-0314") as [t2 H2].
  destruct (TrimSuffix_is_prefix
              (TrimSuffix (TrimSuffix (without dot m) "-0301") "-0314") "-0613")
    as [t3 H3].
  exists (t3 +:+ t2 +:+ t1).
  rewrite H1 at 1. rewrite H2 at 1. rewrite H3 at 1.
  now rewrite !app_assoc.
Qed.

(** A name that, once its dots are gone, ends in one of the three version
    suffixes loses that suffix (and perhaps more). *)
Lemma azure_model_strips (m b sfx : string) :
  sfx = "-0301" \/ sfx = "-0314" \/ sfx = "-0613" ->
  without dot m = b +:+ sfx ->
  exists t, b = azure_model m +:+ t.
Proof.
  intros Hs Hm. rewrite azure_model_eq, Hm.
  destruct Hs as [-> | [-> | ->]].
  - rewrite TrimSuffix_app.
    destruct (TrimSuffix_is_prefix b "-0314") as [t2 H2].
    destruct (TrimSuffix_is_prefix (TrimSuffix b "-0314") "-0613") as [t3 H3].
    exists (t3 +:+ t2). rewrite H2 at 1. rewrite H3 at 1. now rewrite app_assoc.
  - assert (H1 : TrimSuffix (b +:+ "-0314") "-0301" = b +:+ "-0314").
    { unfold TrimSuffix. now rewrite HasSuffix_app_same_length. }
    rewrite H1, TrimSuffix_app.
    destruct (TrimSuffix_is_prefix b "-0613") as [t3 H3]. now exists t3.
  - assert (H1 : TrimSuffix (b +:+ "-0613") "-0301" = b +:+ "-0613").
    { unfold TrimSuffix. now rewrite HasSuffix_app_same_length. }
    assert (H2 : TrimSuffix (b +:+ "-0613") "-0314" = b +:+ "-0613").
    { unfold TrimSuffix. now rewrite HasSuffix_app_same_length. }
    rewrite H1, H2, TrimSuffix_app. exists EmptyString. now rewrite app_nil_r.
Qed.

(** Without any of the three suffixes only the dots go. *)
Lemma azure_model_keeps (m : string) :
  HasSuffix (without dot m) "-0301" = false ->
  HasSuffix (without dot m) "-0314" = false ->
  HasSuffix (without dot m) "-0613" = false ->
  azure_model m = without dot m.
Proof.
  intros H1 H2 H3. rewrite azure_model_eq. unfold TrimSuffix.
  rewrite H1, H2, H3. reflexivity.
Qed.

(** The query is appended before [/v1/] is trimmed; the trimming does not
    reach into it, since [/v1/] has no question mark. *)
Lemma task_with_query (p q : string) :
  TrimPrefix (p +:+ String "?" q) "/v1/" = TrimPrefix p "/v1/" +:+ String "?" q.
Proof.
  destruct (TrimPrefix_cases p "/v1/") as [(t & -> & ->) | [Hno ->]].
  - rewrite app_assoc. apply TrimPrefix_app.
  - destruct (TrimPrefix_cases (p +:+ String "?" q) "/v1/")
      as [(t & Ht & _) | [_ ->]]; [exfalso | reflexivity].
    destruct p as [| c1 [| c2 [| c3 [| c4 p]]]];
      repeat (rewrite ?append_cons, ?append_nil in Ht);
      try (injection Ht as; discriminate).
    injection Ht as -> -> -> -> _.
    assert (Hyes : HasPrefix ("/v1/" +:+ p) "/v1/" = true)
      by (apply HasPrefix_iff; eauto).
    repeat (rewrite ?append_cons, ?append_nil in Hyes). congruence.
Qed.

(** C9, as the code has it.  On an Azure channel the URL handed on is built
    from the path [/openai/deployments/{deployment}/{task}?api-version={v}],
    the task being the inbound path up to its query with a leading [/v1/]
    removed.  The deployment is the model name with every dot removed and
    then a trailing [-0301], a trailing [-0314] and a trailing [-0613]
    stripped, in this order: it has no dot, it is a prefix of the dot-free
    name, and a dot-free name ending in one of the three suffixes loses it.
    So [gpt-4-0613] and [gpt-3.5-turbo-0613] become [gpt-4] and
    [gpt-35-turbo], while [gpt-4.0613] becomes [gpt-40613]. *)
Theorem azure_deployment_url (E : Env) (c : Context) (relayMode : RelayMode)
    (textRequest : GeneralOpenAIRequest) :
  ctx_channel c = ChannelTypeAzure ->
  full_request_url E c relayMode (apiType_of (ctx_channel c)) textRequest
  = Ok (getFullRequestURL E (ctx_base_url c)
          ("/openai/deployments/" +:+ azure_model (Model textRequest) +:+ "/"
           +:+ TrimPrefix (before_first (ctx_request_url c) "?") "/v1/"
           +:+ "?api-version=" +:+ ctx_api_version c)
          ChannelTypeAzure)
  /\ free_of dot (azure_model (Model textRequest)) = true
  /\ (exists t, without dot (Model textRequest) = azure_model (Model textRequest) +:+ t)
  /\ (forall b sfx,
        sfx = "-0301" \/ sfx = "-0314" \/ sfx = "-0613" ->
        without dot (Model textRequest) = b +:+ sfx ->
        exists t, b = azure_model (Model textRequest) +:+ t)
  /\ (HasSuffix (without dot (Model textRequest)) "-0301" = false ->
      HasSuffix (without dot (Model textRequest)) "-0314" = false ->
      HasSuffix (without dot (Model textRequest)) "-0613" = false ->
      azure_model (Model textRequest) = without dot (Model textRequest))
  /\ azure_model "gpt-4-0613" = "gpt-4"
  /\ azure_model "gpt-3.5-turbo-0613" = "gpt-35-turbo"
  /\ azure_model "gpt-4.0613" = "gpt-40613".
Proof.
  intros Hch. split; [| split; [| split; [| split; [| split; [| repeat split]]]]].
  - unfold full_request_url. rewrite Hch. cbn [apiType_of].
    unfold azure_requestURL. rewrite Split_hd.
    change ("?api-version=" +:+ ctx_api_version c)
      with (String "?" ("api-version=" +:+ ctx_api_version c)).
    now rewrite task_with_query.
  - apply azure_model_no_dot.
  - apply azure_model_is_prefix.
  - intros b sfx. apply azure_model_strips.
  - apply azure_model_keeps.
Qed.

Lemma azure_deployment_url_witness :
  full_request_url Scenario.azure_env Scenario.azure_ctx RelayModeChatCompletions APITypeOpenAI Scenario.azure_req
  = Ok "https://example.openai.azure.com/openai/deployments/gpt-35-turbo/chat/completions?api-version=2023-05-15"%string.
Proof.
  destruct (azure_deployment_url Scenario.azure_env Scenario.azure_ctx RelayModeChatCompletions Scenario.azure_req
              eq_refl) as [H _].
  cbn [Scenario.azure_ctx ctx_channel apiType_of] in H. rewrite H. vm_compute. reflexivity.
Defined.

(** The specification's example does not come out as [gpt-4]: after the dot
    is removed no hyphen precedes [0613], so no suffix matches. *)
Lemma azure_gpt4_dot_0613 :
  azure_model "gpt-4.0613" = "gpt-40613" /\ "gpt-40613"%string <> "gpt-4"%string.
Proof. split; [vm_compute; reflexivity | discriminate]. Qed.

End AzureURL.

(** ** Realtime sync: self-origin suppression *)

Module RealtimeProps.

Import GoStrings GoStringsFacts realtime.

Definition bar : ascii := "|"%char.

(** A payload as a peer publishes it, [{origin}|{text}], is read back as
    that origin and that text, provided the origin is not empty and has no
    bar of its own. *)
Lemma split_origin_published (origin text : string) :
  origin <> EmptyString ->
  free_of bar origin = true ->
  split_origin (origin +:+ "|" +:+ text) = Some (origin, text).
Proof.
  intros Hne Hfree. unfold split_origin.
  change ("|" +:+ text) with (String bar text).
  change "|"%string with (String bar "").
  rewrite Index_byte_free by exact Hfree.
  destruct origin as [| c origin]; [congruence |].
  replace (Z.of_nat (String.length (String c origin)) >? 0) with true
    by (symmetry; apply Z.gtb_lt; cbn [String.length]; lia).
  rewrite Nat2Z.id, slice_0, take_app_exact. unfold slice_from.
  replace (String.length (String c origin) + 1)%nat
    with (String.length (String c origin +:+ String bar "")).
  2:{ rewrite length_app. reflexivity. }
  replace (String c origin +:+ String bar text)
    with ((String c origin +:+ String bar "") +:+ text).
  2:{ rewrite app_assoc. reflexivity. }
  now rewrite drop_app_exact.
Qed.

Lemma handle_self_origin (m : ModelState) (InstanceID : string) (msg : Message) (rest : string) :
  split_origin (Payload msg) = Some (InstanceID, rest) ->
  handle m InstanceID msg = [].
Proof.
  intros H. unfold handle. rewrite H. now rewrite String.eqb_refl.
Qed.

(** A reload is made of at least its first call. *)
Lemma dispatch_reloads (m : ModelState) (channel payload : string) :
  channel = RedisTopicOptionsSync \/ channel = RedisTopicChannelsSync ->
  dispatch m channel payload <> [].
Proof.
  intros [-> | ->]; unfold dispatch; cbn.
  - destruct (_ || _); discriminate.
  - discriminate.
Qed.

(** C8.  Whatever arrives at the subscriber, a message whose origin
    instance id (the text before the first bar of its payload) is the
    receiver's own [InstanceID] leads to no call at all, hence to no options
    reload and to no channels reload, on any topic. *)
Theorem self_origin_never_reloads (m : ModelState) (InstanceID : string)
    (arrivals : list Received) (msg : Message) (calls : list Call) (rest : string) :
  In (msg, calls) (subscriber m InstanceID arrivals) ->
  split_origin (Payload msg) = Some (InstanceID, rest) ->
  calls = [].
Proof.
  intros Hin Horigin.
  induction arrivals as [| [msg' | | err] arrivals IH]; cbn [subscriber] in Hin.
  - destruct Hin.
  - destruct Hin as [Heq | Hin]; [| exact (IH Hin)].
    injection Heq as -> <-. now apply handle_self_origin with (rest := rest).
  - destruct Hin.
  - exact (IH Hin).
Qed.

Lemma self_origin_never_reloads_witness :
  In (own_message, []) (subscriber quiet_model "node-1" [Msg peer_message; Msg own_message])
  /\ split_origin (Payload own_message) = Some ("node-1"%string, "reload"%string)
  /\ (@nil Call) = [].
Proof.
  assert (Hin : In (own_message, [])
                  (subscriber quiet_model "node-1" [Msg peer_message; Msg own_message]))
    by (right; left; reflexivity).
  assert (Ho : split_origin (Payload own_message)
               = Some ("node-1"%string, "reload"%string)) by reflexivity.
  split; [exact Hin | split; [exact Ho |]].
  exact (self_origin_never_reloads quiet_model "node-1"
           [Msg peer_message; Msg own_message] own_message [] "reload" Hin Ho).
Defined.

(** The same for a payload in the published form, on both topics. *)
Lemma published_by_self_never_reloads (m : ModelState) (InstanceID topic text : string) :
  InstanceID <> EmptyString ->
  free_of bar InstanceID = true ->
  handle m InstanceID {| Channel := topic; Payload := InstanceID +:+ "|" +:+ text |} = [].
Proof.
  intros Hne Hfree.
  apply handle_self_origin with (rest := text).
  now apply split_origin_published.
Qed.

(** A peer's message on either topic does reload. *)
Lemma peer_message_reloads :
  subscriber quiet_model "node-1" [Msg peer_message]
  = [(peer_message, [ChannelGroup_Load; PricingInstance_Init; ModelOwnedBysInstance_Load])].
Proof. reflexivity. Qed.

End RealtimeProps.

(** ** Leader election: lease timing and renewal *)

Module ElectionProps.

Import election.

Definition follower : Node := {| isLeader := false; IsMasterNode := false |}.

Lemma leaseSeconds_default (configured : option Z) :
  leaseSeconds configured
  = match configured with
    | Some s => if s <=? 0 then 15 else s
    | None => 15
    end.
Proof. destruct configured; reflexivity. Qed.

Lemma leaseSeconds_pos (configured : option Z) : 0 < leaseSeconds configured.
Proof.
  rewrite leaseSeconds_default. destruct configured as [s |]; [| lia].
  destruct (Z.leb_spec s 0); lia.
Qed.

Lemma renewInterval_eq (configured : option Z) :
  renewInterval configured = Z.max (Z.quot (leaseTTL configured) 2) Second.
Proof.
  unfold renewInterval, GoInt.div.
  rewrite GoIntFacts.wrap_id
    by (apply GoIntFacts.quot2_in_range, GoIntFacts.wrap_in_range).
  destruct (Z.ltb_spec (Z.quot (leaseTTL configured) 2) Second); lia.
Qed.

Lemma leaseTTL_exact (configured : option Z) :
  leaseSeconds configured <= 9223372036 ->
  leaseTTL configured = leaseSeconds configured * Second.
Proof.
  intros H. unfold leaseTTL. apply GoIntFacts.mul_exact.
  pose proof (leaseSeconds_pos configured).
  unfold GoInt.in_range, GoInt.int_min, GoInt.int_max, Second. lia.
Qed.

(** The script answers [1] exactly when the key holds the caller's value. *)
Lemma renewLua_reply (key nodeID : string) (ms : Z) (db : gmap string Entry) :
  snd (renewLua key nodeID ms db) = 1 <-> value <$> db !! key = Some nodeID.
Proof.
  unfold renewLua, PEXPIRE.
  destruct (db !! key) as [e |] eqn:He; cbn [fmap option_fmap option_map].
  - destruct (String.eqb_spec (value e) nodeID) as [Heq | Hne].
    + destruct (ms <=? 0); cbn [snd]; split; congruence.
    + cbn [snd]. split; [discriminate | congruence].
  - cbn [snd]. split; discriminate.
Qed.

Lemma renewLua_reply_01 (key nodeID : string) (ms : Z) (db : gmap string Entry) :
  snd (renewLua key nodeID ms db) = 1 \/ snd (renewLua key nodeID ms db) = 0.
Proof.
  unfold renewLua, PEXPIRE.
  destruct (db !! key) as [e |] eqn:He; [| now right].
  destruct (String.eqb (value e) nodeID); [| now right].
  destruct (ms <=? 0); now left.
Qed.

(** Somebody else's lease, or no lease, is left as it is. *)
Lemma renewLua_foreign (key nodeID : string) (ms : Z) (db : gmap string Entry) :
  value <$> db !! key <> Some nodeID ->
  renewLua key nodeID ms db = (db, 0).
Proof.
  intros H. unfold renewLua.
  destruct (db !! key) as [e |] eqn:He; [| reflexivity].
  destruct (String.eqb_spec (value e) nodeID) as [Heq | Hne]; [| reflexivity].
  exfalso. apply H. cbn. now rewrite Heq.
Qed.

(** The owner's lease is set to the new time to live. *)
Lemma renewLua_own (key nodeID : string) (ms : Z) (db : gmap string Entry) :
  value <$> db !! key = Some nodeID ->
  0 < ms ->
  renewLua key nodeID ms db = (<[key := {| value := nodeID; pttl := ms |}]> db, 1).
Proof.
  intros H Hms. unfold renewLua, PEXPIRE.
  destruct (db !! key) as [e |] eqn:He; [| discriminate].
  cbn in H. injection H as H. rewrite <- H, String.eqb_refl.
  destruct (Z.leb_spec ms 0); [lia | reflexivity].
Qed.

Lemma after_renew_other (res : RedisValue) (n : Node) :
  res <> RInt 1 -> after_renew res n = follower.
Proof.
  intros H. destruct res as [| v |]; cbn; try reflexivity.
  destruct (Z.eqb_spec v 1) as [-> | _]; [congruence | reflexivity].
Qed.

Lemma script_Result_error (t : Transport) (reply : Z) :
  t <> Delivered -> fst (script_Result t reply) = RNil.
Proof. destruct t; [congruence | reflexivity | reflexivity]. Qed.

(** A leader is still leader after a turn of the loop exactly when its
    renewal got through and found its own identity under the key. *)
Lemma leader_iteration (nodeID : string) (configured : option Z) (t : Transport)
    (n : Node) (db : gmap string Entry) :
  isLeader n = true ->
  (t = Delivered /\ value <$> db !! leaderKey = Some nodeID ->
   fst (iteration nodeID configured t n db) = n)
  /\ (~ (t = Delivered /\ value <$> db !! leaderKey = Some nodeID) ->
      fst (iteration nodeID configured t n db) = follower).
Proof.
  intros Hl. unfold iteration. rewrite Hl. cbn [negb].
  split.
  - intros [-> Hown]. apply renewLua_reply with (ms := ttlMillis configured) in Hown.
    destruct (renewLua leaderKey nodeID (ttlMillis configured) db) as [db' reply].
    cbn in Hown |- *. now rewrite Hown.
  - intros Hnot. destruct t; cbn.
    + destruct (renewLua_reply_01 leaderKey nodeID (ttlMillis configured) db) as [H1 | H0].
      * exfalso. apply Hnot. split; [reflexivity |]. now apply renewLua_reply in H1.
      * destruct (renewLua leaderKey nodeID (ttlMillis configured) db) as [db' reply].
        cbn in H0 |- *. now rewrite H0.
    + reflexivity.
    + now destruct (renewLua leaderKey nodeID (ttlMillis configured) db).
Qed.

(** The time to live handed to the store, in milliseconds. *)
Lemma ttlMillis_exact (configured : option Z) :
  leaseSeconds configured <= 9223372036 ->
  ttlMillis configured = leaseSeconds configured * 1000.
Proof.
  intros H. unfold ttlMillis, GoInt.div. rewrite (leaseTTL_exact configured H).
  pose proof (leaseSeconds_pos configured) as Hpos.
  replace (leaseSeconds configured * Second)
    with (leaseSeconds configured * 1000 * Millisecond) by (unfold Second, Millisecond; lia).
  rewrite Z.quot_mul by (unfold Millisecond; lia).
  apply GoIntFacts.wrap_id. unfold GoInt.in_range, GoInt.int_min, GoInt.int_max. lia.
Qed.

Lemma ttlMillis_pos (configured : option Z) :
  leaseSeconds configured <= 9223372036 -> 0 < ttlMillis configured.
Proof.
  intros H. rewrite (ttlMillis_exact configured H).
  pose proof (leaseSeconds_pos configured). lia.
Qed.

(** The store after a leader's turn of the loop: what the script made of
    it, unless the request never reached the server. *)
Lemma leader_iteration_store (nodeID : string) (configured : option Z) (t : Transport)
    (n : Node) (db : gmap string Entry) :
  isLeader n = true ->
  snd (iteration nodeID configured t n db)
  = match t with
    | LostRequest => db
    | _ => fst (renewLua leaderKey nodeID (ttlMillis configured) db)
    end.
Proof.
  intros Hl. unfold iteration. rewrite Hl. cbn [negb].
  destruct t; cbn; try reflexivity;
    now destruct (renewLua leaderKey nodeID (ttlMillis configured) db).
Qed.

(** C7.  The lease lasts the configured number of seconds, and 15 when that
    is not set or not positive; the renew interval is half the lease time,
    and one second when the half is shorter.  The renewal script extends the
    lease of the caller whose identity is stored under the key and leaves
    every other state of the key alone, answering 0.  After the renewal the
    node stays as it is when the answer is the integer 1; every other answer,
    and every transport error, leaves it a follower with [IsMasterNode] off.

    So it is in the loop.  A leader's turn whose command reaches the server
    while the key holds the leader's own identity leaves the store with that
    identity under the key and the full lease time, in milliseconds, to live;
    when the reply comes back as well, the node stays as it was.  A leader's
    turn that finds another identity under the key, or none, or whose request
    is lost, leaves the store exactly as it was. *)
Theorem lease_renewal (configured : option Z) (nodeID : string) (n : Node)
    (db : gmap string Entry) :
  leaseSeconds configured
  = match configured with
    | Some s => if s <=? 0 then 15 else s
    | None => 15
    end
  /\ (leaseSeconds configured <= 9223372036 ->
      leaseTTL configured = leaseSeconds configured * Second)
  /\ renewInterval configured = Z.max (Z.quot (leaseTTL configured) 2) Second
  /\ (forall ms,
        (value <$> db !! leaderKey = Some nodeID -> 0 < ms ->
         renewLua leaderKey nodeID ms db
         = (<[leaderKey := {| value := nodeID; pttl := ms |}]> db, 1))
        /\ (value <$> db !! leaderKey <> Some nodeID ->
            renewLua leaderKey nodeID ms db = (db, 0)))
  /\ after_renew (RInt 1) n = n
  /\ (forall res, res <> RInt 1 -> after_renew res n = follower)
  /\ (forall t reply, t <> Delivered ->
        after_renew (fst (script_Result t reply)) n = follower)
  /\ (forall t, isLeader n = true ->
        ~ (t = Delivered /\ value <$> db !! leaderKey = Some nodeID) ->
        fst (iteration nodeID configured t n db) = follower)
  /\ (leaseSeconds configured <= 9223372036 ->
      ttlMillis configured = leaseSeconds configured * 1000)
  /\ (forall t, isLeader n = true ->
        leaseSeconds configured <= 9223372036 ->
        t <> LostRequest ->
        value <$> db !! leaderKey = Some nodeID ->
        snd (iteration nodeID configured t n db)
        = <[leaderKey := {| value := nodeID; pttl := leaseSeconds configured * 1000 |}]> db)
  /\ (isLeader n = true ->
      leaseSeconds configured <= 9223372036 ->
      value <$> db !! leaderKey = Some nodeID ->
      iteration nodeID configured Delivered n db
      = (n, <[leaderKey := {| value := nodeID; pttl := leaseSeconds configured * 1000 |}]> db))
  /\ (forall t, isLeader n = true ->
        value <$> db !! leaderKey <> Some nodeID ->
        iteration nodeID configured t n db = (follower, db))
  /\ (isLeader n = true ->
      iteration nodeID configured LostRequest n db = (follower, db)).
Proof.
  split; [apply leaseSeconds_default |].
  split; [apply leaseTTL_exact |].
  split; [apply renewInterval_eq |].
  split; [intros ms; split; [apply renewLua_own | apply renewLua_foreign] |].
  split; [reflexivity |].
  split; [intros res; apply after_renew_other |].
  split.
  { intros t reply Ht. rewrite script_Result_error by exact Ht. reflexivity. }
  split; [intros t Hl; now apply leader_iteration |].
  split; [apply ttlMillis_exact |].
  split.
  { intros t Hl Hcfg Ht Hown.
    rewrite (leader_iteration_store nodeID configured t n db Hl).
    rewrite (renewLua_own _ _ _ _ Hown (ttlMillis_pos configured Hcfg)).
    rewrite (ttlMillis_exact configured Hcfg). now destruct t. }
  split.
  { intros Hl Hcfg Hown.
    rewrite (surjective_pairing (iteration nodeID configured Delivered n db)).
    rewrite (proj1 (leader_iteration nodeID configured Delivered n db Hl) (conj eq_refl Hown)).
    rewrite (leader_iteration_store nodeID configured Delivered n db Hl).
    rewrite (renewLua_own _ _ _ _ Hown (ttlMillis_pos configured Hcfg)).
    now rewrite (ttlMillis_exact configured Hcfg). }
  split.
  { intros t Hl Hnot.
    rewrite (surjective_pairing (iteration nodeID configured t n db)).
    rewrite (proj2 (leader_iteration nodeID configured t n db Hl))
      by (intros [_ Hown]; contradiction).
    rewrite (leader_iteration_store nodeID configured t n db Hl).
    rewrite (renewLua_foreign _ _ _ _ Hnot). now destruct t. }
  intros Hl.
  rewrite (surjective_pairing (iteration nodeID configured LostRequest n db)).
  rewrite (proj2 (leader_iteration nodeID configured LostRequest n db Hl))
    by (intros [Ht _]; discriminate Ht).
  now rewrite (leader_iteration_store nodeID configured LostRequest n db Hl).
Qed.

(** The loop on a store of its own: fifteen seconds by default, renewed
    every seven and a half; one second is renewed every second. *)
Example renew_intervals :
  renewInterval None = 7500 * Millisecond
  /\ renewInterval (Some 0) = 7500 * Millisecond
  /\ renewInterval (Some 1) = Second
  /\ renewInterval (Some 3) = 1500 * Millisecond
  /\ renewInterval (Some 60) = 30 * Second.
Proof. repeat split; reflexivity. Qed.

End ElectionProps.

(** ** The anatomy of a settled call *)

Module PipelineFacts.

Import controller.

Lemma dispatch_and_settle_settled (E : Env) (c : Context) (relayMode : RelayMode)
    (apiType : APIType) (textRequest : GeneralOpenAIRequest) (p : Pricing)
    (url : string) (body : RequestBody) (userQuota pre : Z)
    (l l' : Ledger.t) (rep : Report) (s : Settlement) :
  dispatch_and_settle E c relayMode apiType textRequest p url body userQuota pre l
  = (l', rep) ->
  rep_settled rep = Some s ->
  (exists usage, settle E c (Model textRequest) p userQuota pre usage l = (l', s))
  /\ (forall req, rep_sent rep = Some req -> out_url req = url /\ out_body req = body).
Proof.
  unfold dispatch_and_settle. intros Hrun Hs.
  assert (Hfin : forall sent resp isStream,
             (forall req, sent = Some req -> out_url req = url /\ out_body req = body) ->
             (let '(err, usage) :=
                run_handler E c apiType relayMode isStream textRequest (promptTokens p) resp in
              let '(l2, s2) :=
                settle E c (Model textRequest) p userQuota pre usage l in
              (l2, {| rep_error := err; rep_sent := sent; rep_settled := Some s2 |}))
             = (l', rep) ->
             (exists usage, settle E c (Model textRequest) p userQuota pre usage l = (l', s))
             /\ (forall req, rep_sent rep = Some req ->
                              out_url req = url /\ out_body req = body)).
  { intros sent resp isStream Hsent H.
    destruct (run_handler E c apiType relayMode isStream textRequest (promptTokens p) resp)
      as [err usage].
    destruct (settle E c (Model textRequest) p userQuota pre usage l) as [l2 s2] eqn:Hst.
    injection H as <- <-. cbn in Hs. injection Hs as <-.
    split; [exists usage; exact Hst | exact Hsent]. }
  assert (Hnone : forall req : OutboundRequest,
             None = Some req -> out_url req = url /\ out_body req = body)
    by (intros req H; discriminate H).
  assert (Hsome : forall via (req : OutboundRequest),
             Some {| out_url := url; out_body := body; out_via := via |} = Some req ->
             out_url req = url /\ out_body req = body)
    by (intros via req H; injection H as <-; split; reflexivity).
  destruct apiType;
    try (eapply Hfin; [exact Hnone | exact Hrun]);
    (destruct (Do E c _) as [resp | e];
     [ destruct (negb (StatusCode resp =? StatusOK));
       [ injection Hrun as _ <-; discriminate Hs
       | eapply Hfin; [apply Hsome | exact Hrun] ]
     | injection Hrun as _ <-; discriminate Hs ]).
Qed.

(** A call that settles went through every stage before the settlement. *)
Lemma relayTextHelper_settled (E : Env) (c : Context) (relayMode : RelayMode)
    (l l' : Ledger.t) (rep : Report) (s : Settlement) :
  relayTextHelper E c relayMode l = (l', rep) ->
  rep_settled rep = Some s ->
  exists r0 textRequest isModelMapped l1 userQuota pre usage url body,
    UnmarshalBodyReusable E (ctx_request_body c) = Ok r0
    /\ map_model_name E (ctx_model_mapping c)
         (apply_default_model relayMode (ctx_param_model c) r0)
       = Ok (textRequest, isModelMapped)
    /\ preconsume (ctx_id c) (ctx_token_id c)
         (preConsumedQuota (price E (ctx_group c) relayMode textRequest)) l
       = (l1, Ok (userQuota, pre))
    /\ settle E c (Model textRequest) (price E (ctx_group c) relayMode textRequest)
         userQuota pre usage l1
       = (l', s)
    /\ full_request_url E c relayMode (apiType_of (ctx_channel c)) textRequest = Ok url
    /\ request_body E c relayMode (apiType_of (ctx_channel c)) textRequest isModelMapped
       = Ok body
    /\ (forall req, rep_sent rep = Some req -> out_url req = url /\ out_body req = body).
Proof.
  unfold relayTextHelper. intros Hrun Hs.
  destruct (UnmarshalBodyReusable E (ctx_request_body c)) as [r0 | e];
    [| injection Hrun as _ <-; discriminate Hs].
  destruct (validate relayMode _) as [[] | e];
    [| injection Hrun as _ <-; discriminate Hs].
  destruct (map_model_name E _ _) as [[textRequest isModelMapped] | e] eqn:Hmap;
    [| injection Hrun as _ <-; discriminate Hs].
  destruct (full_request_url E c relayMode _ textRequest) as [url | e] eqn:Hurl;
    [| injection Hrun as _ <-; discriminate Hs].
  destruct (preconsume _ _ _ l) as [l1 [[userQuota pre] | e]] eqn:Hpre;
    [| injection Hrun as _ <-; discriminate Hs].
  destruct (request_body E c relayMode _ textRequest isModelMapped) as [body | e] eqn:Hbody;
    [| injection Hrun as _ <-; discriminate Hs].
  destruct (dispatch_and_settle_settled _ _ _ _ _ _ _ _ _ _ _ _ _ _ Hrun Hs)
    as [[usage Hsettle] Hsent].
  exists r0, textRequest, isModelMapped, l1, userQuota, pre, usage, url, body.
  repeat split; try assumption; now apply Hsent.
Qed.

Lemma settle_fields (E : Env) (c : Context) (modelName : string) (p : Pricing)
    (userQuota pre : Z) (usage : Usage) (l l' : Ledger.t) (s : Settlement) :
  settle E c modelName p userQuota pre usage l = (l', s) ->
  s_modelName s = modelName
  /\ s_modelRatio s = modelRatio p
  /\ s_groupRatio s = groupRatio p
  /\ s_completionRatio s = GetCompletionRatio E modelName
  /\ s_promptTokens s = PromptTokens usage
  /\ s_completionTokens s = CompletionTokens usage
  /\ s_preConsumedQuota s = pre
  /\ s_quota s = settle_quota (GOARCH E) (ratio p) (GetCompletionRatio E modelName)
                   (PromptTokens usage) (CompletionTokens usage)
  /\ s_quotaDelta s = GoInt.sub (s_quota s) pre.
Proof.
  unfold settle. intros H. injection H as _ <-. cbn. repeat split; reflexivity.
Qed.

(** What the mapping step can have done. *)
Lemma map_model_name_mapped (E : Env) (modelMapping : string)
    (r r' : GeneralOpenAIRequest) :
  map_model_name E modelMapping r = Ok (r', true) ->
  exists modelMap target,
    json_Unmarshal_map E modelMapping = Ok modelMap
    /\ modelMap !! Model r = Some target
    /\ target <> EmptyString
    /\ r' = with_Model target r.
Proof.
  unfold map_model_name.
  destruct (negb (String.eqb modelMapping "") && negb (String.eqb modelMapping "{}"));
    [| discriminate].
  destruct (json_Unmarshal_map E modelMapping) as [modelMap | e]; [| discriminate].
  destruct (modelMap !! Model r) as [target |] eqn:Hlook;
    unfold default; cbn [from_option id].
  - destruct (String.eqb_spec target "") as [-> | Hne]; cbn [negb]; [discriminate |].
    intros H. injection H as <-. now exists modelMap, target.
  - cbn. discriminate.
Qed.

Lemma map_model_name_unmapped (E : Env) (modelMapping : string)
    (r r' : GeneralOpenAIRequest) :
  map_model_name E modelMapping r = Ok (r', false) -> r' = r.
Proof.
  unfold map_model_name.
  destruct (negb (String.eqb modelMapping "") && negb (String.eqb modelMapping "{}"));
    [| congruence].
  destruct (json_Unmarshal_map E modelMapping) as [modelMap | e]; [| discriminate].
  destruct (negb (String.eqb (default EmptyString (modelMap !! Model r)) ""));
    [discriminate | congruence].
Qed.

(** A remapped request never goes out as the inbound bytes. *)
Lemma request_body_mapped (E : Env) (c : Context) (relayMode : RelayMode)
    (apiType : APIType) (textRequest : GeneralOpenAIRequest) (body : RequestBody) :
  request_body E c relayMode apiType textRequest true = Ok body ->
  exists p, body = Marshalled p /\ payload_request p = textRequest.
Proof.
  unfold request_body, marshal. cbn [result_bind].
  destruct (json_Marshal E (CanonicalJSON textRequest)); cbn [result_bind];
    [| discriminate].
  destruct apiType;
    repeat match goal with
      | |- context [json_Marshal E ?p] => destruct (json_Marshal E p)
      | |- context [parseTencentConfig E ?k] => destruct (parseTencentConfig E k)
      end;
    intros H; try discriminate H; injection H as <-; eexists; split; reflexivity.
Qed.

End PipelineFacts.

(** ** Settlement: the quota charged *)

Module SettlementProps.

Import controller PipelineFacts.

(** The amount before the two adjustments, as line 470 computes it: every
    conversion, sum and product in [float64], then [math.Ceil] and [int]. *)
Definition raw_quota (arch : Arch) (ratio completionRatio : float)
    (promptTokens completionTokens : Z) : Z :=
  int_of_float64 arch
    (math_Ceil (mul_add arch (float64_of_int completionTokens) completionRatio
                  (float64_of_int promptTokens) * ratio)%float).

Lemma settle_quota_eq (arch : Arch) (ratio cr : float) (p c : Z) :
  settle_quota arch ratio cr p c
  = if GoInt.add p c =? 0 then 0
    else if float64_neq ratio 0 && (raw_quota arch ratio cr p c <=? 0) then 1
         else raw_quota arch ratio cr p c.
Proof. reflexivity. Qed.

(** A ratio above zero passes the test [ratio != 0]. *)
Lemma positive_neq_0 (r : float) : (0 <? r)%float = true -> float64_neq r 0 = true.
Proof.
  unfold float64_neq. intros H.
  rewrite FloatAxioms.ltb_spec in H. rewrite FloatAxioms.eqb_spec.
  change (Prim2SF 0) with (S754_zero false) in *.
  destruct (Prim2SF r) as [s | s | | s m e]; cbn in *; try discriminate H;
    destruct s; cbn in *; try discriminate H; reflexivity.
Qed.

(** The cases of the charge, for token counts that are not negative. *)
Lemma settle_quota_cases (arch : Arch) (ratio cr : float) (p c : Z) :
  0 <= p <= GoInt.int_max -> 0 <= c <= GoInt.int_max ->
  (p + c = 0 -> settle_quota arch ratio cr p c = 0)
  /\ ((0 <? ratio)%float = true -> 0 < p + c -> raw_quota arch ratio cr p c = 0 ->
      settle_quota arch ratio cr p c = 1)
  /\ (0 < p + c -> float64_neq ratio 0 = true -> raw_quota arch ratio cr p c <= 0 ->
      settle_quota arch ratio cr p c = 1)
  /\ (0 < p + c -> ~ (float64_neq ratio 0 = true /\ raw_quota arch ratio cr p c <= 0) ->
      settle_quota arch ratio cr p c = raw_quota arch ratio cr p c).
Proof.
  intros Hp Hc.
  pose proof (GoIntFacts.add_nonneg_eq_0 p c Hp Hc) as Hadd.
  rewrite settle_quota_eq.
  assert (Hone : 0 < p + c -> float64_neq ratio 0 = true ->
                 raw_quota arch ratio cr p c <= 0 ->
                 (if GoInt.add p c =? 0 then 0
                  else if float64_neq ratio 0 && (raw_quota arch ratio cr p c <=? 0) then 1
                       else raw_quota arch ratio cr p c) = 1).
  { intros Htok Hneq Hle.
    destruct (Z.eqb_spec (GoInt.add p c) 0) as [H0 | _]; [apply Hadd in H0; lia |].
    rewrite Hneq. destruct (Z.leb_spec (raw_quota arch ratio cr p c) 0); [reflexivity | lia]. }
  split; [| split; [| split]].
  - intros H0. apply Hadd in H0. now rewrite H0.
  - intros Hpos Htok Hz. apply Hone; [exact Htok | now apply positive_neq_0 | lia].
  - exact Hone.
  - intros Htok Hnot.
    destruct (Z.eqb_spec (GoInt.add p c) 0) as [H0 | _]; [apply Hadd in H0; lia |].
    destruct (float64_neq ratio 0) eqn:Hneq; [| reflexivity].
    destruct (Z.leb_spec (raw_quota arch ratio cr p c) 0) as [Hle | _]; [| reflexivity].
    exfalso. apply Hnot. now split.
Qed.

(** C1, as the code has it.  A relay call that reaches settlement is
    charged, for prompt and completion token counts that are not negative,

    - nothing when no token was counted,
    - one unit when tokens were counted, the ratio is not zero and the
      ceiling is zero or less, in particular when the ratio is above zero
      and the ceiling is zero,
    - and the ceiling otherwise,

    where the ratio is the model ratio times the group ratio, the ratios are
    the configured ones of the request's model and of the caller's group,
    and the ceiling is [int(math.Ceil((float64(prompt) + float64(completion)
    * completion_ratio) * ratio))] with every conversion, product and sum
    carried out in [float64] and rounded there, as the platform does it. *)
Theorem settled_quota (E : Env) (c : Context) (relayMode : RelayMode)
    (l l' : Ledger.t) (rep : Report) (s : Settlement) :
  relayTextHelper E c relayMode l = (l', rep) ->
  rep_settled rep = Some s ->
  0 <= s_promptTokens s <= GoInt.int_max ->
  0 <= s_completionTokens s <= GoInt.int_max ->
  let ratio := (s_modelRatio s * s_groupRatio s)%float in
  let ceiling :=
    int_of_float64 (GOARCH E)
      (math_Ceil (mul_add (GOARCH E) (float64_of_int (s_completionTokens s))
                    (s_completionRatio s) (float64_of_int (s_promptTokens s))
                  * ratio)%float) in
  (s_modelRatio s = GetModelRatio E (s_modelName s)
   /\ s_groupRatio s = GetGroupRatio E (ctx_group c)
   /\ s_completionRatio s = GetCompletionRatio E (s_modelName s))
  /\ (s_promptTokens s + s_completionTokens s = 0 -> s_quota s = 0)
  /\ ((0 <? ratio)%float = true -> 0 < s_promptTokens s + s_completionTokens s ->
      ceiling = 0 -> s_quota s = 1)
  /\ (0 < s_promptTokens s + s_completionTokens s -> float64_neq ratio 0 = true ->
      ceiling <= 0 -> s_quota s = 1)
  /\ (0 < s_promptTokens s + s_completionTokens s ->
      ~ (float64_neq ratio 0 = true /\ ceiling <= 0) ->
      s_quota s = ceiling).
Proof.
  intros Hrun Hs Hp Hc ratio ceiling.
  destruct (relayTextHelper_settled E c relayMode l l' rep s Hrun Hs)
    as (r0 & textRequest & mapped & l1 & userQuota & pre & usage & url & body
        & _ & _ & _ & Hsettle & _).
  destruct (settle_fields _ _ _ _ _ _ _ _ _ _ Hsettle)
    as (Hname & Hm & Hg & Hcomp & Hpt & Hct & _ & Hq & _).
  split.
  - rewrite Hm, Hg, Hcomp, Hname. repeat split; reflexivity.
  - assert (Hratio : ratio = controller.ratio (price E (ctx_group c) relayMode textRequest)).
    { unfold ratio. rewrite Hm, Hg. reflexivity. }
    rewrite Hq, <- Hcomp, <- Hpt, <- Hct, <- Hratio.
    exact (settle_quota_cases (GOARCH E) ratio (s_completionRatio s) (s_promptTokens s)
             (s_completionTokens s) Hp Hc).
Qed.

Lemma plain_run_settles :
  rep_settled (snd Scenario.plain_run) = Some Scenario.plain_settlement.
Proof. vm_compute. reflexivity. Qed.

Lemma settled_quota_witness :
  rep_settled (snd Scenario.plain_run) = Some Scenario.plain_settlement
  /\ s_quota Scenario.plain_settlement = 375.
Proof.
  split; [exact plain_run_settles |].
  refine (proj2 (proj2 (proj2 (proj2
    (settled_quota (Scenario.env ∅ (Some Scenario.usage_10_20)) (Scenario.ctx "")
       RelayModeChatCompletions (Scenario.ledger 100000)
       (fst Scenario.plain_run) (snd Scenario.plain_run) Scenario.plain_settlement
       (surjective_pairing _) plain_run_settles _ _)))) _ _);
    cbn.
  - unfold GoInt.int_max. lia.
  - unfold GoInt.int_max. lia.
  - lia.
  - intros [_ H]. vm_compute in H. apply H. reflexivity.
Defined.

(** The exact value of a finite [float64], as a rational number. *)
Definition exact_value (x : float) : Q :=
  match Prim2SF x with
  | S754_finite s m e =>
      let n := if s then Z.neg m else Z.pos m in
      if 0 <=? e then inject_Z (n * 2 ^ e) else n # Z.to_pos (2 ^ (- e))
  | _ => 0
  end.

(** A call that settles for [tokens] prompt tokens and no completion
    token, at the ratios given and a completion ratio of 1, and is charged
    [quota]. *)
Definition charged (run : Ledger.t * Report) (tokens : Z) (modelRatio groupRatio : float)
    (quota : Z) : Prop :=
  exists s,
    rep_settled (snd run) = Some s
    /\ s_promptTokens s = tokens /\ s_completionTokens s = 0
    /\ s_modelRatio s = modelRatio /\ s_groupRatio s = groupRatio
    /\ s_completionRatio s = 1%float
    /\ s_quota s = quota.

(** The ceiling in [float64] is not the ceiling of the exact expression,
    on either platform.

    With a model ratio of 0.05 and a group ratio of 0.8, as configured, 25
    prompt tokens are charged 2: the product of the two ratios is rounded up
    to the next [float64] above 0.04, and so is its product with 25, above
    1.  The exact expression on the configured decimals is 1.

    With a model ratio of 0.05 and a group ratio of 1, 20 prompt tokens are
    charged 1: the [float64] next to 0.05 lies above it, its exact product
    with 20 lies above 1 and has the ceiling 2, but the product in [float64]
    is rounded to 1. *)
Lemma rounding_changes_the_charge :
  charged (Scenario.nickel_run arm64) 25 (5 / 100) (8 / 10) 2
  /\ charged (Scenario.nickel_run amd64) 25 (5 / 100) (8 / 10) 2
  /\ Qceiling ((25 + 0 * 1) * ((5 # 100) * (8 # 10)))%Q = 1
  /\ charged (Scenario.twenty_run arm64) 20 (5 / 100) 1 1
  /\ charged (Scenario.twenty_run amd64) 20 (5 / 100) 1 1
  /\ Qceiling ((20 + 0 * exact_value 1) * (exact_value (5 / 100) * exact_value 1))%Q = 2.
Proof.
  unfold charged.
  repeat split;
    try (eexists; split; [vm_compute; reflexivity | repeat split]);
    vm_compute; reflexivity.
Qed.

End SettlementProps.

(** ** Preconsumption *)

Module PreconsumeProps.

Import controller.

Lemma CacheDecreaseUserQuota_cache (userId quota : Z) (l l1 : Ledger.t) :
  Ledger.CacheDecreaseUserQuota userId quota l = Ok l1 ->
  Ledger.user_quota_cache l1 !! userId
  = Some (default 0 (Ledger.user_quota_cache l !! userId) - quota)
  /\ Ledger.token_remain l1 = Ledger.token_remain l.
Proof.
  unfold Ledger.CacheDecreaseUserQuota. intros H. injection H as <-. cbn.
  unfold Ledger.bump. rewrite lookup_insert_eq. split; [f_equal; lia | reflexivity].
Qed.

Lemma PreConsumeTokenQuota_ok (tokenId quota : Z) (l l2 : Ledger.t) :
  Ledger.PreConsumeTokenQuota tokenId quota l = Ok l2 ->
  Ledger.user_quota_cache l2 = Ledger.user_quota_cache l
  /\ exists r, Ledger.token_remain l !! tokenId = Some r
               /\ quota <= r
               /\ Ledger.token_remain l2 = <[tokenId := r - quota]> (Ledger.token_remain l).
Proof.
  unfold Ledger.PreConsumeTokenQuota. intros H.
  destruct (Ledger.token_remain l !! tokenId) as [r |]; [| discriminate].
  destruct (Z.ltb_spec r quota); [discriminate |].
  injection H as <-. cbn. split; [reflexivity |]. exists r. repeat split; [lia].
Qed.

(** C2, as the code has it.  A request that gets past preconsumption has
    had the user's cached quota decreased by the estimate, trusted or not.
    When the cached user quota was more than a hundred times the estimate,
    the preconsumed amount is recorded as zero and the token's remaining
    quota is untouched; otherwise the estimate is recorded and the token's
    remaining quota is decreased by it as well. *)
Theorem preconsume_ledger (userId tokenId estimate : Z) (l l1 : Ledger.t)
    (userQuota recorded : Z) :
  GoInt.in_range (userQuota - estimate) ->
  GoInt.in_range (100 * estimate) ->
  preconsume userId tokenId estimate l = (l1, Ok (userQuota, recorded)) ->
  Ledger.CacheGetUserQuota userId l = Ok userQuota
  /\ estimate <= userQuota
  /\ Ledger.user_quota_cache l1 !! userId
     = Some (default 0 (Ledger.user_quota_cache l !! userId) - estimate)
  /\ (userQuota > 100 * estimate ->
      recorded = 0 /\ Ledger.token_remain l1 = Ledger.token_remain l)
  /\ (userQuota <= 100 * estimate ->
      recorded = estimate
      /\ forall r, Ledger.token_remain l !! tokenId = Some r ->
                   Ledger.token_remain l1 !! tokenId = Some (r - estimate)).
Proof.
  intros Hsub Hmul. unfold preconsume.
  destruct (Ledger.CacheGetUserQuota userId l) as [uq | e]; [| discriminate].
  rewrite (GoIntFacts.mul_exact 100 estimate Hmul).
  destruct (Z.ltb_spec (GoInt.sub uq estimate) 0) as [Hlt | Hge]; [discriminate |].
  destruct (Ledger.CacheDecreaseUserQuota userId estimate l) as [l0 | e] eqn:Hdec;
    [| discriminate].
  apply CacheDecreaseUserQuota_cache in Hdec as [Hcache Htok].
  destruct (Z.gtb_spec uq (100 * estimate)) as [Htrust | Hno].
  - cbn. intros H. injection H as <- <- <-.
    rewrite GoIntFacts.sub_exact in Hge by exact Hsub.
    repeat split; try assumption; try lia.
  - destruct (Z.gtb_spec estimate 0) as [Hpos | Hzero].
    + destruct (Ledger.PreConsumeTokenQuota tokenId estimate l0) as [l2 | e] eqn:Hpre;
        [| discriminate].
      intros H. injection H as <- <- <-.
      rewrite GoIntFacts.sub_exact in Hge by exact Hsub.
      apply PreConsumeTokenQuota_ok in Hpre as (Hc2 & r & Hr & _ & Ht2).
      repeat split; try lia.
      * now rewrite Hc2.
      * intros r' Hr'. rewrite Ht2, lookup_insert_eq. rewrite Htok in Hr. congruence.
    + intros H. injection H as <- <- <-.
      rewrite GoIntFacts.sub_exact in Hge by exact Hsub.
      assert (estimate = 0) as -> by lia.
      repeat split; try assumption; try lia.
      intros r Hr. rewrite Htok, Hr. f_equal. lia.
Qed.

(** A request whose cached user quota does not cover the estimate is
    turned away with the ledger as it was. *)
Lemma preconsume_insufficient (userId tokenId estimate userQuota : Z) (l : Ledger.t) :
  GoInt.in_range (userQuota - estimate) ->
  Ledger.CacheGetUserQuota userId l = Ok userQuota ->
  userQuota < estimate ->
  preconsume userId tokenId estimate l
  = (l, Err (errorWrapper "user quota is not enough" "insufficient_user_quota"
               StatusForbidden)).
Proof.
  intros Hsub Hget Hlt. unfold preconsume. rewrite Hget.
  rewrite GoIntFacts.sub_exact by exact Hsub.
  destruct (Z.ltb_spec (userQuota - estimate) 0); [reflexivity | lia].
Qed.

(** Not trusted: user 1 holds 100000, the estimate is 3750. *)
Lemma preconsume_ledger_witness :
  snd (preconsume 1 7 3750 (Scenario.ledger 100000)) = Ok (100000, 3750)
  /\ Ledger.user_quota_cache (fst (preconsume 1 7 3750 (Scenario.ledger 100000))) !! 1
     = Some 96250
  /\ Ledger.token_remain (fst (preconsume 1 7 3750 (Scenario.ledger 100000))) !! 7
     = Some 46250.
Proof.
  assert (Hrun : preconsume 1 7 3750 (Scenario.ledger 100000)
                 = (fst (preconsume 1 7 3750 (Scenario.ledger 100000)), Ok (100000, 3750)))
    by (vm_compute; reflexivity).
  assert (H1 : GoInt.in_range (100000 - 3750))
    by (unfold GoInt.in_range, GoInt.int_min, GoInt.int_max; lia).
  assert (H2 : GoInt.in_range (100 * 3750))
    by (unfold GoInt.in_range, GoInt.int_min, GoInt.int_max; lia).
  destruct (preconsume_ledger 1 7 3750 (Scenario.ledger 100000)
              (fst (preconsume 1 7 3750 (Scenario.ledger 100000))) 100000 3750
              H1 H2 Hrun) as (_ & _ & Hcache & _ & Hnot).
  split; [now rewrite Hrun | split].
  - rewrite Hcache. vm_compute. reflexivity.
  - apply (proj2 (Hnot ltac:(lia)) 50000). vm_compute. reflexivity.
Defined.

(** Trusted: user 1 holds 100000, more than a hundred times the estimate
    of 250.  Nothing is recorded and the token keeps its 50000, yet the
    user's cached quota has gone down to 99750. *)
Lemma trusted_user_cache_decreased :
  Ledger.CacheGetUserQuota 1 (Scenario.ledger 100000) = Ok 100000
  /\ 100000 > 100 * 250
  /\ snd (preconsume 1 7 250 (Scenario.ledger 100000)) = Ok (100000, 0)
  /\ Ledger.token_remain (fst (preconsume 1 7 250 (Scenario.ledger 100000))) !! 7
     = Some 50000
  /\ Ledger.user_quota_cache (Scenario.ledger 100000) !! 1 = Some 100000
  /\ Ledger.user_quota_cache (fst (preconsume 1 7 250 (Scenario.ledger 100000))) !! 1
     = Some 99750.
Proof. repeat split; vm_compute; reflexivity. Qed.

End PreconsumeProps.

(** ** Model mapping and pricing *)

Module ModelMappingProps.

Import controller PipelineFacts.

(** C5, as the code has it.  When the channel's mapping replaces the
    request's model name, the replacement is written into the request
    itself; the model ratio and the completion ratio of the call are those of
    the mapped name, and the mapped name is the one in the request the
    outbound body is marshalled from. *)
Theorem mapped_name_prices_and_goes_out (E : Env) (c : Context) (relayMode : RelayMode)
    (l l' : Ledger.t) (rep : Report) (s : Settlement)
    (r0 textRequest : GeneralOpenAIRequest) :
  relayTextHelper E c relayMode l = (l', rep) ->
  rep_settled rep = Some s ->
  UnmarshalBodyReusable E (ctx_request_body c) = Ok r0 ->
  map_model_name E (ctx_model_mapping c)
    (apply_default_model relayMode (ctx_param_model c) r0)
  = Ok (textRequest, true) ->
  (exists modelMap,
      json_Unmarshal_map E (ctx_model_mapping c) = Ok modelMap
      /\ modelMap !! Model (apply_default_model relayMode (ctx_param_model c) r0)
         = Some (Model textRequest))
  /\ s_modelName s = Model textRequest
  /\ s_modelRatio s = GetModelRatio E (Model textRequest)
  /\ s_completionRatio s = GetCompletionRatio E (Model textRequest)
  /\ (forall req, rep_sent rep = Some req ->
        exists p, out_body req = Marshalled p /\ payload_request p = textRequest).
Proof.
  intros Hrun Hs Hbind Hmap.
  destruct (relayTextHelper_settled E c relayMode l l' rep s Hrun Hs)
    as (r0' & tr & mapped & l1 & userQuota & pre & usage & url & body
        & Hbind' & Hmap' & _ & Hsettle & _ & Hbody & Hsent).
  rewrite Hbind in Hbind'. injection Hbind' as <-.
  rewrite Hmap in Hmap'. injection Hmap' as <- <-.
  destruct (settle_fields _ _ _ _ _ _ _ _ _ _ Hsettle)
    as (Hname & Hm & _ & Hcomp & _).
  split; [| split; [exact Hname | split; [exact Hm | split; [exact Hcomp |]]]].
  - destruct (map_model_name_mapped _ _ _ _ Hmap) as (modelMap & target & Hj & Hl & _ & ->).
    exists modelMap. split; [exact Hj | exact Hl].
  - intros req Hreq. destruct (Hsent req Hreq) as [_ ->].
    now apply request_body_mapped in Hbody.
Qed.

Lemma mapped_run_settles :
  rep_settled (snd Scenario.mapped_run) = Some Scenario.mapped_settlement.
Proof. vm_compute. reflexivity. Qed.

Lemma mapped_run_sends : rep_sent (snd Scenario.mapped_run) = Some Scenario.mapped_sent.
Proof. vm_compute. reflexivity. Qed.

Lemma mapped_name_prices_and_goes_out_witness :
  s_modelRatio Scenario.mapped_settlement
  = GetModelRatio Scenario.mapped_env "gpt-3.5-turbo"
  /\ exists p, out_body Scenario.mapped_sent = Marshalled p
               /\ Model (payload_request p) = "gpt-3.5-turbo"%string.
Proof.
  destruct (mapped_name_prices_and_goes_out Scenario.mapped_env Scenario.mapped_ctx
              RelayModeChatCompletions (Scenario.ledger 100000)
              (fst Scenario.mapped_run) (snd Scenario.mapped_run)
              Scenario.mapped_settlement Scenario.hello Scenario.mapped_hello
              (surjective_pairing _) mapped_run_settles eq_refl eq_refl)
    as (_ & _ & Hratio & _ & Hbody).
  split; [exact Hratio |].
  destruct (Hbody Scenario.mapped_sent mapped_run_sends) as (p & Hp & Hreq).
  exists p. split; [exact Hp | now rewrite Hreq].
Defined.

(** The request asks for [gpt-4], whose model ratio is 15; the channel maps
    it to [gpt-3.5-turbo]; the call is priced at 3/4, the ratio of the mapped
    name, not at the ratio of the name the caller gave. *)
Lemma priced_by_mapped_name :
  Model Scenario.hello = "gpt-4"%string
  /\ map_model_name Scenario.mapped_env (ctx_model_mapping Scenario.mapped_ctx) Scenario.hello
     = Ok (Scenario.mapped_hello, true)
  /\ rep_settled (snd Scenario.mapped_run) = Some Scenario.mapped_settlement
  /\ s_modelRatio Scenario.mapped_settlement = 0.75%float
  /\ GetModelRatio Scenario.mapped_env "gpt-4" = 15%float
  /\ (0.75 =? 15)%float = false.
Proof. repeat split; vm_compute; reflexivity. Qed.

End ModelMappingProps.

(** ** Settlement: what is written *)

Module SettlementEffects.

Import controller PipelineFacts.

(** The two updates every settlement attempts leave the counters and the
    log alone. *)
Lemma logged_PostConsume (tokenId userQuota delta pre : Z) (l : Ledger.t) :
  let l1 := logged (Ledger.PostConsumeTokenQuota tokenId userQuota delta pre true l) l in
  (forall r, Ledger.token_remain l !! tokenId = Some r ->
             Ledger.token_remain l1 !! tokenId = Some (r - delta))
  /\ Ledger.user_quota l1 = Ledger.user_quota l
  /\ Ledger.user_used_quota l1 = Ledger.user_used_quota l
  /\ Ledger.user_request_count l1 = Ledger.user_request_count l
  /\ Ledger.channel_used_quota l1 = Ledger.channel_used_quota l
  /\ Ledger.batch_channel_used l1 = Ledger.batch_channel_used l
  /\ Ledger.consume_logs l1 = Ledger.consume_logs l.
Proof.
  unfold Ledger.PostConsumeTokenQuota.
  destruct (Ledger.token_remain l !! tokenId) as [r |] eqn:Hr; cbn.
  - repeat split; try reflexivity.
    intros r' Hr'. injection Hr' as <-. apply lookup_insert_eq.
  - repeat split; try reflexivity. intros r' Hr'. discriminate Hr'.
Qed.

Lemma logged_CacheUpdate (userId : Z) (l : Ledger.t) :
  let l1 := logged (Ledger.CacheUpdateUserQuota userId l) l in
  Ledger.token_remain l1 = Ledger.token_remain l
  /\ Ledger.user_used_quota l1 = Ledger.user_used_quota l
  /\ Ledger.user_request_count l1 = Ledger.user_request_count l
  /\ Ledger.channel_used_quota l1 = Ledger.channel_used_quota l
  /\ Ledger.batch_channel_used l1 = Ledger.batch_channel_used l
  /\ Ledger.consume_logs l1 = Ledger.consume_logs l
  /\ (forall q, Ledger.user_quota l !! userId = Some q ->
                Ledger.user_quota_cache l1 !! userId = Some q).
Proof.
  unfold Ledger.CacheUpdateUserQuota.
  destruct (Ledger.user_quota l !! userId) as [q |] eqn:Hq; cbn.
  - repeat split; try reflexivity.
    intros q' Hq'. injection Hq' as <-. apply lookup_insert_eq.
  - repeat split; try reflexivity. intros q' Hq'. discriminate Hq'.
Qed.

(** The record a settlement with a charge writes. *)
Definition consume_log_of (c : Context) (userQuota : Z) (s : Settlement) : Ledger.ConsumeLog :=
  {| Ledger.log_userId := ctx_id c;
     Ledger.log_channelId := ctx_channel_id c;
     Ledger.log_promptTokens := s_promptTokens s;
     Ledger.log_completionTokens := s_completionTokens s;
     Ledger.log_modelName := s_modelName s;
     Ledger.log_tokenName := ctx_token_name c;
     Ledger.log_quota := s_quota s;
     Ledger.log_content := (s_modelRatio s, s_groupRatio s);
     Ledger.log_tokenId := ctx_token_id c;
     Ledger.log_userQuota := userQuota |}.

(** C6, as the code has it.  Every settlement applies the delta
    [quota - preconsumed] to the token's remaining quota and refreshes the
    user's cached quota.  When the quota charged is not zero it also adds the
    quota to the user's used-quota counter and to the channel's (at once, or
    to the pending batch when batch updates are on) and appends one
    consume-log record that carries the model ratio and the group ratio.
    When the quota charged is zero, the counters and the log stay as they
    were. *)
Theorem settlement_writes (E : Env) (c : Context) (modelName : string) (p : Pricing)
    (userQuota pre : Z) (usage : Usage) (l l' : Ledger.t) (s : Settlement) :
  settle E c modelName p userQuota pre usage l = (l', s) ->
  s_quotaDelta s = GoInt.sub (s_quota s) pre
  /\ (forall r, Ledger.token_remain l !! ctx_token_id c = Some r ->
        Ledger.token_remain l' !! ctx_token_id c = Some (r - s_quotaDelta s))
  /\ (forall q, Ledger.user_quota l !! ctx_id c = Some q ->
        Ledger.user_quota_cache l' !! ctx_id c = Some q)
  /\ (s_quota s <> 0 ->
      Ledger.consume_logs l' = Ledger.consume_logs l ++ [consume_log_of c userQuota s]
      /\ (s_modelRatio s, s_groupRatio s) = (modelRatio p, groupRatio p)
      /\ Ledger.user_used_quota l' !! ctx_id c
         = Some (default 0 (Ledger.user_used_quota l !! ctx_id c) + s_quota s)
      /\ (BatchUpdateEnabled E = false ->
          Ledger.channel_used_quota l' !! ctx_channel_id c
          = Some (default 0 (Ledger.channel_used_quota l !! ctx_channel_id c) + s_quota s))
      /\ (BatchUpdateEnabled E = true ->
          Ledger.batch_channel_used l' !! ctx_channel_id c
          = Some (default 0 (Ledger.batch_channel_used l !! ctx_channel_id c) + s_quota s)))
  /\ (s_quota s = 0 ->
      Ledger.consume_logs l' = Ledger.consume_logs l
      /\ Ledger.user_used_quota l' = Ledger.user_used_quota l
      /\ Ledger.user_request_count l' = Ledger.user_request_count l
      /\ Ledger.channel_used_quota l' = Ledger.channel_used_quota l
      /\ Ledger.batch_channel_used l' = Ledger.batch_channel_used l).
Proof.
  intros Hsettle.
  destruct (settle_fields _ _ _ _ _ _ _ _ _ _ Hsettle)
    as (Hname & Hm & Hg & Hcomp & Hpt & Hct & Hpre & Hq & Hd).
  split; [exact Hd |].
  revert Hsettle. unfold settle.
  rewrite <- Hq, <- Hd, <- Hcomp, <- Hpt, <- Hct.
  set (l1 := logged (Ledger.PostConsumeTokenQuota (ctx_token_id c) userQuota
                       (s_quotaDelta s) pre true l) l).
  set (l2 := logged (Ledger.CacheUpdateUserQuota (ctx_id c) l1) l1).
  destruct (logged_PostConsume (ctx_token_id c) userQuota (s_quotaDelta s) pre l)
    as (Ht1 & Hu1 & Huu1 & Hrc1 & Hcu1 & Hb1 & Hlog1).
  destruct (logged_CacheUpdate (ctx_id c) l1)
    as (Ht2 & Huu2 & Hrc2 & Hcu2 & Hb2 & Hlog2 & Hcache2).
  fold l1 in Ht1, Hu1, Huu1, Hrc1, Hcu1, Hb1, Hlog1.
  fold l2 in Ht2, Huu2, Hrc2, Hcu2, Hb2, Hlog2, Hcache2.
  destruct (Z.eqb_spec (s_quota s) 0) as [Hz | Hnz]; cbn [negb].
  - intros H. injection H as <- _.
    split; [| split; [| split; [intros Hne; contradiction | intros _]]].
    + intros r Hr. rewrite Ht2. now apply Ht1.
    + intros q Hq0. apply Hcache2. now rewrite Hu1.
    + repeat split; congruence.
  - intros H. injection H as <- _.
    split; [| split; [| split; [intros _ | intros Hz; contradiction]]].
    + intros r Hr.
      unfold Ledger.UpdateChannelUsedQuota.
      destruct (BatchUpdateEnabled E); cbn; rewrite Ht2; now apply Ht1.
    + intros q Hq0.
      unfold Ledger.UpdateChannelUsedQuota.
      destruct (BatchUpdateEnabled E); cbn; apply Hcache2; now rewrite Hu1.
    + split; [| split; [| split; [| split]]].
      * unfold Ledger.UpdateChannelUsedQuota, consume_log_of.
        rewrite Hname, Hm, Hg.
        destruct (BatchUpdateEnabled E); cbn; now rewrite Hlog2, Hlog1.
      * now rewrite Hm, Hg.
      * unfold Ledger.UpdateChannelUsedQuota.
        destruct (BatchUpdateEnabled E); cbn; unfold Ledger.bump;
          now rewrite lookup_insert_eq, Huu2, Huu1.
      * intros ->. cbn. unfold Ledger.bump.
        now rewrite lookup_insert_eq, Hcu2, Hcu1.
      * intros ->. cbn. unfold Ledger.bump.
        now rewrite lookup_insert_eq, Hb2, Hb1.
Qed.

Lemma settlement_writes_witness :
  snd Scenario.plain_settle = Scenario.plain_settlement
  /\ Ledger.token_remain (fst Scenario.plain_settle) !! 7 = Some 49625
  /\ Ledger.consume_logs (fst Scenario.plain_settle)
     = [consume_log_of (Scenario.ctx "") 100000 Scenario.plain_settlement].
Proof.
  assert (Hrun : Scenario.plain_settle = (fst Scenario.plain_settle, Scenario.plain_settlement))
    by (vm_compute; reflexivity).
  pose proof Hrun as Hsettle. unfold Scenario.plain_settle at 1 in Hsettle.
  destruct (settlement_writes _ _ _ _ _ _ _ _ _ _ Hsettle)
    as (_ & Htok & _ & Hcharged & _).
  split; [now rewrite Hrun | split].
  - apply (Htok 46250). vm_compute. reflexivity.
  - apply Hcharged. discriminate.
Defined.

(** A call the upstream answered without any usage is settled with a quota
    of zero: the refund of the preconsumed 3750 is applied to the token, but
    no consume-log record is written and neither used-quota counter moves. *)
Lemma zero_quota_settlement_writes_no_log :
  (exists s, rep_settled (snd Scenario.silent_run) = Some s /\ s_quota s = 0)
  /\ Ledger.token_remain (fst Scenario.silent_run) !! 7 = Some 50000
  /\ Ledger.consume_logs (fst Scenario.silent_run) = []
  /\ Ledger.user_used_quota (fst Scenario.silent_run) !! 1 = None
  /\ Ledger.channel_used_quota (fst Scenario.silent_run) !! 3 = None
  /\ Ledger.batch_channel_used (fst Scenario.silent_run) !! 3 = None.
Proof.
  split; [eexists; split; vm_compute; reflexivity |].
  repeat split; vm_compute; reflexivity.
Qed.

End SettlementEffects.

(** ** The racing dispatcher *)

Module RacingProps.

Import racing.

Lemma Some_eq {A : Type} (x y : A) : Some x = Some y -> x = y.
Proof. congruence. Qed.

(** Take a successful step apart, one enabled case at a time. *)
Ltac step_inv H :=
  unfold step in H;
  repeat match type of H with
    | context [match ?x with _ => _ end] =>
        let E := fresh "E" in destruct x eqn:E; try discriminate H
    end;
  try (apply Some_eq in H); subst.

Lemma run_snoc (st : State) (evs : list Event) (ev : Event) :
  run st (evs ++ [ev])
  = match run st evs with
    | Some st' => step st' ev
    | None => None
    end.
Proof.
  revert st. induction evs as [| e evs IH]; intros st; cbn [run app].
  - now destruct (step st ev).
  - destruct (step st e); [apply IH | reflexivity].
Qed.

Lemma run_app (st : State) (evs1 evs2 : list Event) :
  run st (evs1 ++ evs2)
  = match run st evs1 with
    | Some st' => run st' evs2
    | None => None
    end.
Proof.
  revert st. induction evs1 as [| e evs IH]; intros st; cbn [run app]; [reflexivity |].
  destruct (step st e); [apply IH | reflexivity].
Qed.

(** A property kept by every step holds along every run. *)
Lemma run_preserves (P : State -> Prop) :
  (forall st ev st', P st -> step st ev = Some st' -> P st') ->
  forall evs st st', P st -> run st evs = Some st' -> P st'.
Proof.
  intros Hstep. induction evs as [| e evs IH]; intros st st' HP Hrun; cbn [run] in Hrun.
  - now injection Hrun as <-.
  - destruct (step st e) as [st1 |] eqn:Hs; [| discriminate].
    exact (IH st1 st' (Hstep st e st1 HP Hs) Hrun).
Qed.

(** *** [set_phase], field by field *)

Ltac set_phase_field :=
  intros w ph st; destruct w as [i |]; cbn; [reflexivity |];
  destruct (escalation st) as [[r ph'] |]; reflexivity.

Lemma asyncNum_set_phase : forall w ph st, asyncNum (set_phase w ph st) = asyncNum st.
Proof. set_phase_field. Qed.
Lemma req_set_phase : forall w ph st, req (set_phase w ph st) = req st.
Proof. set_phase_field. Qed.
Lemma reqs_set_phase : forall w ph st, reqs (set_phase w ph st) = reqs st.
Proof. set_phase_field. Qed.
Lemma cancelFuncs_set_phase : forall w ph st, cancelFuncs (set_phase w ph st) = cancelFuncs st.
Proof. set_phase_field. Qed.
Lemma cancelled_set_phase : forall w ph st, cancelled (set_phase w ph st) = cancelled st.
Proof. set_phase_field. Qed.
Lemma timer_set_phase : forall w ph st, timer (set_phase w ph st) = timer st.
Proof. set_phase_field. Qed.
Lemma done_closed_set_phase : forall w ph st, done_closed (set_phase w ph st) = done_closed st.
Proof. set_phase_field. Qed.
Lemma resps_set_phase : forall w ph st, resps (set_phase w ph st) = resps st.
Proof. set_phase_field. Qed.
Lemma lastErr_set_phase : forall w ph st, lastErr (set_phase w ph st) = lastErr st.
Proof. set_phase_field. Qed.
Lemma returned_set_phase : forall w ph st, returned (set_phase w ph st) = returned st.
Proof. set_phase_field. Qed.

Lemma attempts_set_phase (w : Who) (ph : Phase) (st : State) :
  attempts (set_phase w ph st)
  = match w with
    | Attempt i => <[i := ph]> (attempts st)
    | Escalation => attempts st
    end.
Proof.
  destruct w as [i |]; cbn; [reflexivity |].
  destruct (escalation st) as [[r ph'] |]; reflexivity.
Qed.

Lemma escalation_set_phase (w : Who) (ph : Phase) (st : State) :
  escalation (set_phase w ph st)
  = match w with
    | Attempt _ => escalation st
    | Escalation => (fun e => (fst e, ph)) <$> escalation st
    end.
Proof.
  destruct w as [i |]; cbn; [reflexivity |].
  destruct (escalation st) as [[r ph'] |] eqn:He; cbn; [reflexivity | exact He].
Qed.

Create Rewrite HintDb racing.
#[local] Hint Rewrite asyncNum_set_phase req_set_phase reqs_set_phase cancelFuncs_set_phase
  cancelled_set_phase timer_set_phase done_closed_set_phase resps_set_phase
  lastErr_set_phase returned_set_phase attempts_set_phase escalation_set_phase : racing.

(** Bring the fields of a state after a step into view. *)
Ltac fields := repeat (cbn -[set_phase] in *; autorewrite with racing in * ).

(** All the ways a step can have gone. *)
Ltac step_cases ev H :=
  destruct ev as [[a |] err | [a |] status | a | [a |] | | | | | |];
  step_inv H; fields.

(** *** What no step changes *)

Lemma step_const (st st' : State) (ev : Event) :
  step st ev = Some st' ->
  asyncNum st' = asyncNum st /\ req st' = req st /\ reqs st' = reqs st.
Proof.
  intros H. step_cases ev H; repeat split; reflexivity.
Qed.

(** *** Invariants of a call *)

(** Looking up attempt [j] after attempt [i] moved on. *)
Lemma lookup_moved (l : list Phase) (i j : nat) (ph old x : Phase) :
  l !! i = Some old ->
  <[i := ph]> l !! j = Some x ->
  (j = i /\ x = ph) \/ (j <> i /\ l !! j = Some x).
Proof.
  intros Hold Hx. destruct (decide (j = i)) as [-> | Hne].
  - left. split; [reflexivity |].
    rewrite list_lookup_insert_eq in Hx by (eapply lookup_lt_Some; eauto).
    congruence.
  - right. split; [exact Hne |]. now rewrite list_lookup_insert_ne in Hx by congruence.
Qed.

(** Every entry of the table cancels the context of its own attempt. *)
Definition entries_own (st : State) : Prop :=
  forall i c, cancelFuncs st !! i = Some c -> c = i.

Lemma entries_own_step (st st' : State) (ev : Event) :
  entries_own st -> step st ev = Some st' -> entries_own st'.
Proof.
  unfold entries_own. intros Hinv H i c.
  step_cases ev H; try apply Hinv.
  intros Hl. apply lookup_delete_Some in Hl as [_ Hl]. now apply Hinv.
Qed.

(** A response an attempt holds was obtained under that attempt's context. *)
Definition responses_tagged (st : State) : Prop :=
  forall i resp,
    attempts st !! i = Some (Got resp) \/ attempts st !! i = Some (Sending resp) ->
    ctx (Request_ resp) = Some i.

Lemma responses_tagged_step (st st' : State) (ev : Event) :
  responses_tagged st -> step st ev = Some st' -> responses_tagged st'.
Proof.
  unfold responses_tagged. intros Hinv H j resp.
  step_cases ev H; try apply Hinv;
    try match goal with
      | E : attempts ?s !! ?i = Some _ |- <[?i := _]> (attempts ?s) !! _ = _ \/ _ -> _ =>
          intros [Hx | Hx];
          destruct (lookup_moved _ _ _ _ _ _ E Hx) as [[-> Heq] | [_ Hold]];
          try discriminate Heq; try (apply Hinv; auto; fail)
      end.
  - (* attempt [a] got its response *)
    injection Heq as ->. cbn.
    destruct (reqs st !! a); cbn in *; [| discriminate].
    match goal with E : Some _ = Some _ |- _ => injection E as <- end. reflexivity.
  - (* attempt [n] looked at a 200 *)
    injection Heq as ->. apply Hinv. auto.
  - (* attempt [n] looked at another status *)
    injection Heq as ->. apply Hinv. auto.
Qed.

(** An attempt waiting to hand over a 200 has taken its entry out. *)
Definition winner_unlisted (st : State) : Prop :=
  forall i resp,
    attempts st !! i = Some (Sending resp) ->
    StatusCode resp = 200 ->
    cancelFuncs st !! i = None.

Lemma winner_unlisted_step (st st' : State) (ev : Event) :
  winner_unlisted st -> step st ev = Some st' -> winner_unlisted st'.
Proof.
  unfold winner_unlisted. intros Hinv H j resp.
  step_cases ev H; try apply Hinv;
    try match goal with
      | E : attempts ?s !! ?i = Some _ |- <[?i := _]> (attempts ?s) !! _ = _ -> _ =>
          intros Hx;
          destruct (lookup_moved _ _ _ _ _ _ E Hx) as [[-> Heq] | [Hne Hold]];
          try discriminate Heq
      end;
    try (intros; eapply Hinv; eauto; fail).
  - (* looked at a 200: the entry goes *)
    intros _. apply lookup_delete_eq.
  - intros Hs. rewrite lookup_delete_ne by congruence. eapply Hinv; eauto.
  - (* looked at another status *)
    injection Heq as ->. intros Hs.
    match goal with E : (StatusCode _ =? 200) = false |- _ =>
      apply Z.eqb_neq in E; contradiction end.
Qed.

(** While main is in its loop, only attempts that failed have been cancelled. *)
Definition cancelled_failed (st : State) : Prop :=
  returned st = None ->
  forall k, k ∈ cancelled st -> attempts st !! k = Some Finished.

Lemma lookup_moved_Finished (l : list Phase) (i k : nat) (ph old : Phase) :
  l !! i = Some old ->
  l !! k = Some Finished ->
  old <> Finished ->
  <[i := ph]> l !! k = Some Finished.
Proof.
  intros Hold Hk Hne. rewrite list_lookup_insert_ne; [exact Hk |].
  intros ->. congruence.
Qed.

Lemma cancelled_failed_step (st st' : State) (ev : Event) :
  cancelled_failed st -> step st ev = Some st' -> cancelled_failed st'.
Proof.
  unfold cancelled_failed. intros Hinv H.
  step_cases ev H; try discriminate; try exact Hinv;
    intros Hret k Hk;
    try (eapply lookup_moved_Finished; eauto; try discriminate; fail).
  (* an attempt fails and cancels itself *)
  apply elem_of_union in Hk as [Hk | Hk].
  - apply elem_of_singleton in Hk as ->.
    apply list_lookup_insert_eq. eapply lookup_lt_Some; eauto.
  - eapply lookup_moved_Finished; eauto; discriminate.
Qed.

(** While main is in its loop, what it has put aside is not a 200. *)
Definition resps_not_ok (st : State) : Prop :=
  returned st = None -> Forall (fun r => StatusCode r <> 200) (resps st).

Lemma resps_not_ok_step (st st' : State) (ev : Event) :
  resps_not_ok st -> step st ev = Some st' -> resps_not_ok st'.
Proof.
  unfold resps_not_ok. intros Hinv H.
  step_cases ev H; try discriminate; try exact Hinv;
    intros Hret; apply Forall_app; (split; [now apply Hinv |]);
    apply Forall_cons; (split; [| apply Forall_nil]);
    match goal with E : (StatusCode _ =? 200) = false |- _ =>
      now apply Z.eqb_neq in E end.
Qed.

(** The escalation exists only once the tick has been taken, only for more
    than one attempt, and runs on the request [asyncHTTPDo] was given. *)
Definition escalation_late (st : State) : Prop :=
  forall r ph,
    escalation st = Some (r, ph) ->
    r = req st /\ timer st = Drained /\ asyncNum st > 1
    /\ (forall resp, ph = Sending resp -> Request_ resp = req st).

Lemma escalation_late_step (st st' : State) (ev : Event) :
  escalation_late st -> step st ev = Some st' -> escalation_late st'.
Proof.
  unfold escalation_late. intros Hinv H r ph.
  step_cases ev H; try apply Hinv;
    try (destruct (escalation st) as [[r0 ph0] |] eqn:He; cbn in *; try discriminate;
         intros Hx; injection Hx as <- <-;
         destruct (Hinv r0 ph0 eq_refl) as (-> & Ht & Hn & Hs);
         repeat split; try assumption; try discriminate;
         try (intros resp Hr; injection Hr as <-; cbn; congruence);
         try (rewrite Ht; reflexivity); fail).
  - (* the escalation got its response *)
    destruct (escalation st) as [[r1 ph1] |] eqn:He; cbn in *; [| discriminate].
    match goal with E : Some r1 = Some _ |- _ => injection E as -> end.
    intros Hx. injection Hx as <- <-.
    destruct (Hinv r0 ph1 eq_refl) as (Hr & Ht & Hn & _).
    repeat split; try assumption.
    intros resp Hresp. injection Hresp as <-. exact Hr.
  - (* the escalation found the channel closed *)
    match goal with E : escalation st = Some _ |- _ => rewrite E end.
    cbn. intros Hx. injection Hx as <- <-.
    destruct (Hinv r0 _ eq_refl) as (Hr & Ht & Hn & _).
    repeat split; try assumption. discriminate.
  - (* the tick is taken with more than one attempt *)
    intros Hx. injection Hx as <- <-.
    repeat split; try discriminate.
    match goal with E : (asyncNum st >? 1) = true |- _ => apply Z.gtb_lt in E; lia end.
Qed.

(** *** Main's return is final *)

Lemma returned_sticky (st st' : State) (ev : Event) (x : option Response * option string) :
  step st ev = Some st' -> returned st = Some x -> returned st' = Some x.
Proof.
  intros H Hx. unfold step in H.
  destruct ev as [[a |] err | [a |] status | a | [a |] | | | | | |];
    unfold is_main_running in H; rewrite ?Hx in H; cbn [andb] in H;
    repeat match type of H with
      | context [match ?x with _ => _ end] =>
          let E := fresh "E" in destruct x eqn:E; try discriminate H
      end;
    try congruence;
    apply Some_eq in H; subst; fields; exact Hx.
Qed.

(** After the return nobody cancels an attempt that has finished. *)
Definition finished_uncancelled (k : nat) (st : State) : Prop :=
  returned st <> None /\ attempts st !! k = Some Finished /\ k ∉ cancelled st.

Lemma finished_uncancelled_step (k : nat) (st st' : State) (ev : Event) :
  finished_uncancelled k st -> step st ev = Some st' -> finished_uncancelled k st'.
Proof.
  unfold finished_uncancelled. intros (Hret & Hfin & Hk) H.
  destruct (returned st) as [x |] eqn:Hx; [| congruence].
  pose proof (returned_sticky st st' ev x H Hx) as Hret'.
  split; [congruence |].
  unfold step in H.
  destruct ev as [[a |] err | [a |] status | a | [a |] | | | | | |];
    unfold is_main_running in H; rewrite ?Hx in H; cbn [andb] in H;
    repeat match type of H with
      | context [match ?x with _ => _ end] =>
          let E := fresh "E" in destruct x eqn:E; try discriminate H
      end;
    try congruence;
    apply Some_eq in H; subst; fields;
    try (split; [exact Hfin | exact Hk]);
    try (split; [eapply lookup_moved_Finished; eauto; discriminate | exact Hk]).
  split; [eapply lookup_moved_Finished; eauto; discriminate |].
  intros Hin. apply elem_of_union in Hin as [Hin | Hin]; [| contradiction].
  apply elem_of_singleton in Hin as ->. congruence.
Qed.

(** *** What main has received *)

Lemma step_resps (st st' : State) (ev : Event) :
  step st ev = Some st' ->
  returned st' = None ->
  resps st' = resps st ++ option_list (taken st ev).
Proof.
  intros H. pose proof H as H0.
  step_cases ev H; try discriminate; intros _; unfold taken;
    rewrite ?app_nil_r; try reflexivity;
    match goal with E : _ = Some (Sending _) |- _ => cbn; rewrite E end;
    reflexivity.
Qed.

Lemma received_resps (evs : list Event) (st st' : State) :
  run st evs = Some st' ->
  returned st' = None ->
  resps st' = resps st ++ received st evs.
Proof.
  revert st. induction evs as [| ev evs IH]; intros st Hrun Hret; cbn [run received] in *.
  - injection Hrun as <-. now rewrite app_nil_r.
  - destruct (step st ev) as [st1 |] eqn:Hs; [| discriminate].
    assert (Hret1 : returned st1 = None).
    { destruct (returned st1) as [x |] eqn:Hx; [| reflexivity].
      assert (Hall : returned st' = Some x).
      { revert Hrun. apply (run_preserves (fun s => returned s = Some x)); [| exact Hx].
        intros s e s' Hp Hstep. exact (returned_sticky s s' e x Hstep Hp). }
      congruence. }
    rewrite (IH st1 Hrun Hret), (step_resps st st1 ev Hs Hret1).
    now rewrite <- List.app_assoc.
Qed.

(** *** The state a call starts in *)

Lemma start_state (req0 : Request) (N : Z) (st0 : State) :
  start req0 N = Ok st0 ->
  0 <= N
  /\ asyncNum st0 = N
  /\ attempts st0 = replicate (Z.to_nat N) InFlight
  /\ cancelFuncs st0 = list_to_map ((fun i => (i, i)) <$> seq 0 (Z.to_nat N))
  /\ cancelled st0 = ∅
  /\ escalation st0 = None
  /\ timer st0 = Armed
  /\ done_closed st0 = false
  /\ resps st0 = []
  /\ returned st0 = None
  /\ length (reqs st0) = Z.to_nat N
  /\ (N <> 1 ->
      req st0 = drained req0
      /\ forall i r, reqs st0 !! i = Some r -> ref r = Clone i).
Proof.
  unfold start. destruct (Z.ltb_spec N 0) as [Hneg | Hpos]; [discriminate |].
  destruct (Body req0) as [bodyBytes | e]; [| discriminate].
  destruct (Z.eqb_spec N 1) as [-> | Hne]; intros H; injection H as <-; cbn.
  - repeat split; try reflexivity; lia.
  - repeat split; try reflexivity; try lia.
    + now rewrite length_fmap, length_seq.
    + intros i r Hr. apply list_lookup_fmap_Some in Hr as (j & -> & Hj).
      apply lookup_seq in Hj as [-> _]. reflexivity.
Qed.

Lemma start_invariants (req0 : Request) (N : Z) (st0 : State) :
  start req0 N = Ok st0 ->
  entries_own st0 /\ responses_tagged st0 /\ winner_unlisted st0
  /\ cancelled_failed st0 /\ resps_not_ok st0 /\ escalation_late st0.
Proof.
  intros H. apply start_state in H
    as (_ & _ & Hatt & Hcf & Hc & Hesc & _ & _ & Hresps & _ & _ & _).
  split; [| split; [| split; [| split; [| split]]]].
  - intros i c Hl. rewrite Hcf in Hl.
    apply elem_of_list_to_map_2, list_elem_of_fmap in Hl as (j & Heq & _).
    congruence.
  - intros i resp [Hx | Hx]; rewrite Hatt in Hx;
      apply lookup_replicate in Hx as [Hx _]; discriminate Hx.
  - intros i resp Hx. rewrite Hatt in Hx.
    apply lookup_replicate in Hx as [Hx _]. discriminate Hx.
  - intros _ k Hk. rewrite Hc in Hk. set_solver.
  - intros _. rewrite Hresps. constructor.
  - intros r ph Hx. rewrite Hesc in Hx. discriminate Hx.
Qed.

(** Every state of a call satisfies the invariants. *)
Lemma reachable_invariants (req0 : Request) (N : Z) (st0 st : State) (evs : list Event) :
  start req0 N = Ok st0 ->
  run st0 evs = Some st ->
  entries_own st /\ responses_tagged st /\ winner_unlisted st
  /\ cancelled_failed st /\ resps_not_ok st /\ escalation_late st.
Proof.
  intros Hstart Hrun.
  destruct (start_invariants req0 N st0 Hstart) as (H1 & H2 & H3 & H4 & H5 & H6).
  split; [| split; [| split; [| split; [| split]]]].
  - revert Hrun. apply run_preserves; [| exact H1].
    intros s e s' Hp Hs. exact (entries_own_step s s' e Hp Hs).
  - revert Hrun. apply run_preserves; [| exact H2].
    intros s e s' Hp Hs. exact (responses_tagged_step s s' e Hp Hs).
  - revert Hrun. apply run_preserves; [| exact H3].
    intros s e s' Hp Hs. exact (winner_unlisted_step s s' e Hp Hs).
  - revert Hrun. apply run_preserves; [| exact H4].
    intros s e s' Hp Hs. exact (cancelled_failed_step s s' e Hp Hs).
  - revert Hrun. apply run_preserves; [| exact H5].
    intros s e s' Hp Hs. exact (resps_not_ok_step s s' e Hp Hs).
  - revert Hrun. apply run_preserves; [| exact H6].
    intros s e s' Hp Hs. exact (escalation_late_step s s' e Hp Hs).
Qed.

Lemma reachable_const (st0 st : State) (evs : list Event) :
  run st0 evs = Some st ->
  asyncNum st = asyncNum st0 /\ req st = req st0 /\ reqs st = reqs st0.
Proof.
  apply (run_preserves
           (fun s => asyncNum s = asyncNum st0 /\ req s = req st0 /\ reqs s = reqs st0));
    [| now repeat split].
  intros s e s' (Ha & Hr & Hrs) Hs.
  destruct (step_const s s' e Hs) as (-> & -> & ->). now repeat split.
Qed.

(** *** The winner *)

Lemma receive_ok_step (st : State) (w : Who) (resp : Response) :
  returned st = None ->
  done_closed st = false ->
  phase_of w st = Some (Sending resp) ->
  StatusCode resp = 200 ->
  step st (Receive w)
  = Some (cancel_all_and_return (Some resp, None) (resps st) (Stop (timer st))
            (set_phase w Finished st)).
Proof.
  intros Hret Hopen Hph Hok. unfold step, is_main_running.
  rewrite Hph, Hret, Hopen, Hok. cbn [andb negb Z.eqb Pos.eqb].
  now rewrite resps_set_phase, timer_set_phase.
Qed.

(** C3.  While main is in its loop and the channel is open, an attempt that
    holds a response with status 200 can hand it over; main then returns that
    response and no error.  Nothing main had received before was a 200.  If
    the winner is one of the attempts started at the outset, it has removed
    its own entry from the cancel table before handing over; main invokes the
    cancel func of every entry then in the table before it returns; and the
    winner's context is not cancelled then nor at any later point of the call. *)
Theorem first_ok_response_wins (req0 : Request) (N : Z) (st0 st : State)
    (evs : list Event) (w : Who) (resp : Response) :
  start req0 N = Ok st0 ->
  ctx req0 = None ->
  run st0 evs = Some st ->
  returned st = None ->
  done_closed st = false ->
  phase_of w st = Some (Sending resp) ->
  StatusCode resp = 200 ->
  exists st',
    step st (Receive w) = Some st'
    /\ returned st' = Some (Some resp, None)
    /\ Forall (fun r => StatusCode r <> 200) (received st0 evs)
    /\ (forall i, w = Attempt i ->
          cancelFuncs st !! i = None /\ ctx (Request_ resp) = Some i)
    /\ (forall j c, cancelFuncs st !! j = Some c -> c ∈ cancelled st')
    /\ (forall evs' st'',
          run st' evs' = Some st'' ->
          returned st'' = Some (Some resp, None)
          /\ forall k, ctx (Request_ resp) = Some k -> k ∉ cancelled st'').
Proof.
  intros Hstart Hctx Hrun Hret Hopen Hph Hok.
  destruct (reachable_invariants req0 N st0 st evs Hstart Hrun)
    as (Hown & Htag & Hunl & Hcf & Hres & Hesc).
  destruct (start_state req0 N st0 Hstart)
    as (_ & HN & _ & _ & _ & _ & _ & _ & Hresps0 & _ & _ & Hreq0).
  destruct (reachable_const st0 st evs Hrun) as (HNst & Hreq & _).
  eexists. split; [exact (receive_ok_step st w resp Hret Hopen Hph Hok) |].
  split; [reflexivity |].
  split.
  { pose proof (received_resps evs st0 st Hrun Hret) as Hrec.
    rewrite Hresps0 in Hrec. cbn in Hrec. rewrite <- Hrec. now apply Hres. }
  split.
  { intros i ->. cbn in Hph. split; [now apply (Hunl i resp) |]. apply Htag. now right. }
  split.
  { intros j c Hj. cbn. rewrite cancelFuncs_set_phase.
    apply elem_of_union_l. now apply (elem_of_map_img_2 _ j). }
  intros evs' st'' Hrun'.
  split.
  { revert Hrun'.
    apply (run_preserves (fun s => returned s = Some (Some resp, None))); [| reflexivity].
    intros s e s' Hp Hs. exact (returned_sticky s s' e _ Hs Hp). }
  intros k Hk. destruct w as [i |].
  - (* one of the attempts started at the outset *)
    cbn in Hph.
    assert (ctx (Request_ resp) = Some i) as Hi by (apply Htag; now right).
    rewrite Hi in Hk. injection Hk as <-.
    assert (Hsafe : finished_uncancelled i st'').
    { revert Hrun'. apply (run_preserves (finished_uncancelled i)).
      - intros s e s' Hp Hs. exact (finished_uncancelled_step i s s' e Hp Hs).
      - split; [discriminate |]. fields. split.
        + apply list_lookup_insert_eq. eapply lookup_lt_Some; eauto.
        + intros Hin. apply elem_of_union in Hin as [Hin | Hin].
          * apply elem_of_map_img in Hin as [j Hj].
            pose proof (Hown j i Hj) as ->.
            rewrite (Hunl j resp Hph Hok) in Hj. discriminate Hj.
          * pose proof (Hcf Hret i Hin) as Hfin. congruence. }
    now destruct Hsafe as (_ & _ & Hnot).
  - (* the escalation: it runs under the caller's context *)
    cbn in Hph. destruct (escalation st) as [[r ph] |] eqn:He; [| discriminate].
    cbn in Hph. injection Hph as ->.
    destruct (Hesc r (Sending resp) He) as (_ & _ & Hgt & Hsame).
    rewrite (Hsame resp eq_refl), Hreq in Hk.
    destruct Hreq0 as [Hd _]; [lia |]. rewrite Hd in Hk. cbn in Hk. congruence.
Qed.

Lemma three_way_start : start caller_request 3 = Ok three_way.
Proof. vm_compute. reflexivity. Qed.

Lemma three_way_run : run three_way three_way_events = Some three_way_mid.
Proof. vm_compute. reflexivity. Qed.

Lemma first_ok_response_wins_witness :
  exists st',
    step three_way_mid (Receive (Attempt 0)) = Some st'
    /\ returned st' = Some (Some ok_of_0, None)
    /\ cancelFuncs three_way_mid !! 0%nat = None
    /\ 1%nat ∈ cancelled st' /\ 2%nat ∈ cancelled st'.
Proof.
  destruct (first_ok_response_wins caller_request 3 three_way three_way_mid
              three_way_events (Attempt 0) ok_of_0
              three_way_start eq_refl three_way_run eq_refl eq_refl eq_refl eq_refl)
    as (st' & Hstep & Hret & _ & Hwin & Hall & _).
  exists st'. split; [exact Hstep |]. split; [exact Hret |].
  split; [exact (proj1 (Hwin 0%nat eq_refl)) |].
  split; [apply (Hall 1%nat) | apply (Hall 2%nat)]; vm_compute; reflexivity.
Defined.

(** *** The escalation *)

(** The timer has no tick left to give. *)
Definition spent (t : Timer) : Prop := t = Drained \/ t = Stopped.

Lemma spent_step (st st' : State) (ev : Event) :
  step st ev = Some st' -> spent (timer st) -> spent (timer st') /\ ev <> TakeTimer.
Proof.
  unfold spent. intros H Hsp.
  step_cases ev H; (split; [| discriminate || (destruct Hsp; discriminate)]);
    try exact Hsp; try (destruct Hsp; discriminate);
    try (destruct Hsp as [Hd | Hs]; [left | right];
         match goal with
         | E : timer _ = _ |- _ => congruence
         | _ => first [ rewrite Hd | rewrite Hs ]; reflexivity
         end).
Qed.

Lemma no_escalation_when_spent (evs : list Event) (st : State) :
  spent (timer st) -> escalations_started st evs = 0%nat.
Proof.
  revert st. induction evs as [| ev evs IH]; intros st Hsp; cbn [escalations_started];
    [reflexivity |].
  destruct (step st ev) as [st1 |] eqn:Hs; [| reflexivity].
  destruct (spent_step st st1 ev Hs Hsp) as [Hsp1 Hne].
  rewrite (IH st1 Hsp1). destruct ev; try reflexivity. congruence.
Qed.

Lemma take_timer_drains (st st' : State) :
  step st TakeTimer = Some st' -> timer st = Expired /\ timer st' = Drained
                                 /\ returned st = None.
Proof.
  intros H. pose proof H as H0. unfold step in H.
  destruct (timer st) eqn:Ht; try discriminate.
  destruct (is_main_running st) eqn:Hm; [| discriminate].
  unfold is_main_running in Hm.
  destruct (returned st); [discriminate |].
  apply Some_eq in H. subst.
  repeat split. destruct (asyncNum (set_timer Drained st) >? 1); reflexivity.
Qed.

Lemma escalations_at_most_one (evs : list Event) (st : State) :
  (escalations_started st evs <= 1)%nat.
Proof.
  revert st. induction evs as [| ev evs IH]; intros st; cbn [escalations_started];
    [lia |].
  destruct (step st ev) as [st1 |] eqn:Hs; [| lia].
  destruct ev; try (cbn; apply IH).
  destruct (take_timer_drains st st1 Hs) as (_ & Hd & _).
  rewrite (no_escalation_when_spent evs st1) by (now left).
  destruct (asyncNum st >? 1); lia.
Qed.

Lemma no_escalation_for_one (evs : list Event) (st : State) :
  asyncNum st <= 1 -> escalations_started st evs = 0%nat.
Proof.
  revert st. induction evs as [| ev evs IH]; intros st Hn; cbn [escalations_started];
    [reflexivity |].
  destruct (step st ev) as [st1 |] eqn:Hs; [| reflexivity].
  destruct (step_const st st1 ev Hs) as (Ha & _).
  rewrite (IH st1) by lia.
  destruct ev; try reflexivity.
  destruct (Z.gtb_spec (asyncNum st) 1); [lia | reflexivity].
Qed.

Lemma step_attempts_length (st st' : State) (ev : Event) :
  step st ev = Some st' -> length (attempts st') = length (attempts st).
Proof.
  intros H. step_cases ev H; rewrite ?length_insert; reflexivity.
Qed.

Lemma reachable_attempts_length (st0 st : State) (evs : list Event) :
  run st0 evs = Some st -> length (attempts st) = length (attempts st0).
Proof.
  apply (run_preserves (fun s => length (attempts s) = length (attempts st0)));
    [| reflexivity].
  intros s e s' Hp Hs. now rewrite (step_attempts_length s s' e Hs).
Qed.

(** C4.  Through a whole call the number of attempts asked for stays as it
    was and so do the prepared requests and the attempts started for them;
    the timer case starts at most one further attempt.  With more than one
    attempt asked for, when the tick is there and main is still in its loop
    (it has returned no response, so it has received no 200), main can take
    the tick, no escalation exists yet, and taking it starts exactly the
    escalation, on the request [asyncHTTPDo] was given (its body read out),
    while the attempts of the outset run on clones.  With one attempt asked
    for, no escalation is ever started.  The tick is only ever taken while
    nothing main has received was a 200. *)
Theorem escalation_once (req0 : Request) (N : Z) (st0 st : State) (evs : list Event) :
  start req0 N = Ok st0 ->
  run st0 evs = Some st ->
  (asyncNum st = N
   /\ length (reqs st) = Z.to_nat N
   /\ length (attempts st) = Z.to_nat N)
  /\ (escalations_started st0 evs <= 1)%nat
  /\ (N > 1 -> timer st = Expired -> returned st = None ->
      escalation st = None
      /\ (forall i r, reqs st !! i = Some r -> ref r = Clone i)
      /\ exists st',
          step st TakeTimer = Some st'
          /\ escalation st' = Some (drained req0, InFlight)
          /\ ref (drained req0) = ref req0
          /\ escalations_started st [TakeTimer] = 1%nat
          /\ asyncNum st' = N
          /\ reqs st' = reqs st
          /\ attempts st' = attempts st)
  /\ (N <= 1 ->
      escalation st = None
      /\ escalations_started st0 evs = 0%nat
      /\ forall st', step st TakeTimer = Some st' ->
                     escalation st' = None /\ attempts st' = attempts st)
  /\ (forall st', step st TakeTimer = Some st' ->
        returned st = None
        /\ Forall (fun r => StatusCode r <> 200) (received st0 evs)).
Proof.
  intros Hstart Hrun.
  destruct (reachable_invariants req0 N st0 st evs Hstart Hrun)
    as (_ & _ & _ & _ & Hres & Hesc).
  destruct (start_state req0 N st0 Hstart)
    as (_ & HN & Hatt & _ & _ & _ & _ & _ & Hresps0 & _ & Hlen & Hreq0).
  destruct (reachable_const st0 st evs Hrun) as (HNst & Hreq & Hreqs).
  split; [| split; [| split; [| split]]].
  - split; [congruence |]. split; [congruence |].
    rewrite (reachable_attempts_length st0 st evs Hrun), Hatt. apply length_replicate.
  - apply escalations_at_most_one.
  - intros Hgt Ht Hret.
    assert (Hnone : escalation st = None).
    { destruct (escalation st) as [[r ph] |] eqn:He; [| reflexivity].
      destruct (Hesc r ph He) as (_ & Hd & _). congruence. }
    destruct Hreq0 as [Hd Hclones]; [lia |].
    split; [exact Hnone |]. split; [rewrite Hreqs; exact Hclones |].
    assert (Hstep : step st TakeTimer
                    = Some (set_escalation (Some (req st, InFlight)) (set_timer Drained st))).
    { unfold step, is_main_running. rewrite Ht, Hret. cbn.
      replace (asyncNum st >? 1) with true; [reflexivity |].
      symmetry. apply Z.gtb_lt. lia. }
    assert (Hcount : escalations_started st [TakeTimer] = 1%nat).
    { cbn [escalations_started]. rewrite Hstep.
      replace (asyncNum st >? 1) with true; [reflexivity |].
      symmetry. apply Z.gtb_lt. lia. }
    eexists. split; [exact Hstep |].
    split; [cbn; now rewrite Hreq, Hd |].
    split; [reflexivity |]. split; [exact Hcount |].
    cbn. repeat split; congruence.
  - intros Hle.
    assert (Hnone : escalation st = None).
    { destruct (escalation st) as [[r ph] |] eqn:He; [| reflexivity].
      destruct (Hesc r ph He) as (_ & _ & Hgt & _). lia. }
    split; [exact Hnone |]. split; [apply no_escalation_for_one; lia |].
    intros st' Hstep. unfold step in Hstep.
    destruct (timer st); try discriminate.
    destruct (is_main_running st); [| discriminate].
    cbn in Hstep. destruct (Z.gtb_spec (asyncNum st) 1) as [Hgt | _]; [lia |].
    apply Some_eq in Hstep. subst. cbn. now split.
  - intros st' Hstep. destruct (take_timer_drains st st' Hstep) as (_ & _ & Hret).
    split; [exact Hret |].
    pose proof (received_resps evs st0 st Hrun Hret) as Hrec.
    rewrite Hresps0 in Hrec. cbn in Hrec. rewrite <- Hrec. now apply Hres.
Qed.

Lemma two_way_run :
  match start caller_request 2 with
  | Ok st => run st [TimerExpires]
  | Err _ => None
  end = Some two_way_timeout.
Proof. vm_compute. reflexivity. Qed.

Lemma escalation_once_witness :
  exists st',
    step two_way_timeout TakeTimer = Some st'
    /\ escalation st' = Some (drained caller_request, InFlight)
    /\ asyncNum st' = 2
    /\ length (attempts st') = 2%nat.
Proof.
  destruct (start caller_request 2) as [st0 | e] eqn:Hstart;
    [| exfalso; vm_compute in Hstart; discriminate Hstart].
  pose proof two_way_run as Hrun. rewrite Hstart in Hrun.
  destruct (escalation_once caller_request 2 st0 two_way_timeout [TimerExpires]
              Hstart Hrun) as ((_ & _ & Hlen) & _ & Hmany & _).
  destruct (Hmany ltac:(lia) eq_refl eq_refl)
    as (_ & _ & st' & Hstep & Hesc & _ & _ & HN & _ & Hatt).
  exists st'. repeat split; try assumption. now rewrite Hatt.
Defined.

(** One attempt: the tick changes nothing but the timer. *)
Example single_attempt_no_escalation :
  match start caller_request 1 with
  | Ok st => escalation <$> run st [TimerExpires; TakeTimer]
  | Err _ => None
  end = Some None.
Proof. vm_compute. reflexivity. Qed.

End RacingProps.

(** ** The relay call as a whole: what the ledger sees *)

Module RelayOutcomes.

Import controller PipelineFacts SettlementProps SettlementEffects.

(** The ledger after the refund of lines 447-455. *)
Definition refunded (c : Context) (userQuota pre : Z) (l : Ledger.t) : Ledger.t :=
  if negb (pre =? 0)
  then logged (Ledger.PostConsumeTokenQuota (ctx_token_id c) userQuota
                 (GoInt.sub 0 pre) pre true l) l
  else l.

(** What a call that sent a request upstream went through. *)
Lemma dispatch_and_settle_sent (E : Env) (c : Context) (relayMode : RelayMode)
    (apiType : APIType) (textRequest : GeneralOpenAIRequest) (p : Pricing)
    (url : string) (body : RequestBody) (userQuota pre : Z)
    (l l' : Ledger.t) (rep : Report) (req : OutboundRequest) :
  dispatch_and_settle E c relayMode apiType textRequest p url body userQuota pre l
  = (l', rep) ->
  rep_sent rep = Some req ->
  out_url req = url /\ out_body req = body
  /\ match Do E c req with
     | Err e =>
         l' = l /\ rep_settled rep = None
         /\ rep_error rep
            = Some (errorWrapper e "do_request_failed" StatusInternalServerError)
     | Ok resp =>
         if StatusCode resp =? StatusOK
         then exists s, rep_settled rep = Some s
         else l' = refunded c userQuota pre l /\ rep_settled rep = None
              /\ rep_error rep = Some (relayErrorHandler E resp)
     end.
Proof.
  unfold dispatch_and_settle, refunded. intros Hrun Hsent.
  assert (Hfin : forall sent resp isStream,
             (let '(err, usage) :=
                run_handler E c apiType relayMode isStream textRequest (promptTokens p) resp in
              let '(l2, s2) :=
                settle E c (Model textRequest) p userQuota pre usage l in
              (l2, {| rep_error := err; rep_sent := sent; rep_settled := Some s2 |}))
             = (l', rep) ->
             rep_sent rep = sent /\ exists s, rep_settled rep = Some s).
  { intros sent resp isStream H.
    destruct (run_handler E c apiType relayMode isStream textRequest (promptTokens p) resp)
      as [err usage].
    destruct (settle E c (Model textRequest) p userQuota pre usage l) as [l2 s2].
    injection H as <- <-. cbn. eauto. }
  destruct apiType;
    try (apply Hfin in Hrun as [Hn _]; rewrite Hn in Hsent; discriminate Hsent);
    match type of Hrun with
    | context [Do E c ?r] =>
        destruct (Do E c r) as [resp | e] eqn:HDo;
        [ destruct (StatusCode resp =? StatusOK) eqn:Hst; cbn [negb] in Hrun;
          [ apply Hfin in Hrun as [Hn Hs]; rewrite Hn in Hsent;
            injection Hsent as <-; cbn [out_url out_body];
            rewrite HDo, Hst; auto
          | injection Hrun as <- <-; cbn in Hsent; injection Hsent as <-;
            cbn [out_url out_body]; rewrite HDo, Hst; cbn; auto ]
        | injection Hrun as <- <-; cbn in Hsent; injection Hsent as <-;
          cbn [out_url out_body]; rewrite HDo; cbn; auto ]
    end.
Qed.

Lemma relayTextHelper_sent (E : Env) (c : Context) (relayMode : RelayMode)
    (l l' : Ledger.t) (rep : Report) (req : OutboundRequest) :
  relayTextHelper E c relayMode l = (l', rep) ->
  rep_sent rep = Some req ->
  exists r0 textRequest isModelMapped l1 userQuota pre url body,
    UnmarshalBodyReusable E (ctx_request_body c) = Ok r0
    /\ map_model_name E (ctx_model_mapping c)
         (apply_default_model relayMode (ctx_param_model c) r0)
       = Ok (textRequest, isModelMapped)
    /\ preconsume (ctx_id c) (ctx_token_id c)
         (preConsumedQuota (price E (ctx_group c) relayMode textRequest)) l
       = (l1, Ok (userQuota, pre))
    /\ full_request_url E c relayMode (apiType_of (ctx_channel c)) textRequest = Ok url
    /\ request_body E c relayMode (apiType_of (ctx_channel c)) textRequest isModelMapped
       = Ok body
    /\ dispatch_and_settle E c relayMode (apiType_of (ctx_channel c)) textRequest
         (price E (ctx_group c) relayMode textRequest) url body userQuota pre l1
       = (l', rep).
Proof.
  unfold relayTextHelper. intros Hrun Hs.
  destruct (UnmarshalBodyReusable E (ctx_request_body c)) as [r0 | e];
    [| injection Hrun as _ <-; discriminate Hs].
  destruct (validate relayMode _) as [[] | e];
    [| injection Hrun as _ <-; discriminate Hs].
  destruct (map_model_name E _ _) as [[textRequest isModelMapped] | e] eqn:Hmap;
    [| injection Hrun as _ <-; discriminate Hs].
  destruct (full_request_url E c relayMode _ textRequest) as [url | e] eqn:Hurl;
    [| injection Hrun as _ <-; discriminate Hs].
  destruct (preconsume _ _ _ l) as [l1 [[userQuota pre] | e]] eqn:Hpre;
    [| injection Hrun as _ <-; discriminate Hs].
  destruct (request_body E c relayMode _ textRequest isModelMapped) as [body | e] eqn:Hbody;
    [| injection Hrun as _ <-; discriminate Hs].
  exists r0, textRequest, isModelMapped, l1, userQuota, pre, url, body.
  repeat split; assumption.
Qed.

(** What preconsumption does to the token's remaining quota: it takes off
    what it records when that is positive, and nothing otherwise. *)
Lemma preconsume_token (userId tokenId estimate : Z) (l l1 : Ledger.t)
    (userQuota recorded : Z) :
  preconsume userId tokenId estimate l = (l1, Ok (userQuota, recorded)) ->
  (recorded = 0 \/ recorded = estimate)
  /\ (recorded <= 0 -> Ledger.token_remain l1 = Ledger.token_remain l)
  /\ (0 < recorded ->
      exists r, Ledger.token_remain l !! tokenId = Some r
                /\ recorded <= r
                /\ Ledger.token_remain l1
                   = <[tokenId := r - recorded]> (Ledger.token_remain l))
  /\ Ledger.consume_logs l1 = Ledger.consume_logs l
  /\ Ledger.user_used_quota l1 = Ledger.user_used_quota l
  /\ Ledger.channel_used_quota l1 = Ledger.channel_used_quota l
  /\ Ledger.user_quota l1 = Ledger.user_quota l.
Proof.
  unfold preconsume.
  destruct (Ledger.CacheGetUserQuota userId l) as [uq | e]; [| discriminate].
  destruct (GoInt.sub uq estimate <? 0); [discriminate |].
  cbn [Ledger.CacheDecreaseUserQuota].
  destruct (uq >? GoInt.mul 100 estimate).
  - cbn. intros H. injection H as <- <- <-. cbn.
    repeat split; try reflexivity; lia.
  - destruct (Z.gtb_spec estimate 0) as [Hpos | Hle].
    + unfold Ledger.PreConsumeTokenQuota. cbn.
      destruct (Ledger.token_remain l !! tokenId) as [r |] eqn:Hr; [| discriminate].
      destruct (Z.ltb_spec r estimate) as [Hlow | Hcov]; [discriminate |].
      intros H. injection H as <- <- <-. cbn.
      repeat split; try reflexivity; try lia.
      intros _. exists r. split; [reflexivity | split; [lia | reflexivity]].
    + intros H. injection H as <- <- <-. cbn.
      repeat split; try reflexivity; lia.
Qed.

(** *** What a settlement leaves in the ledger *)

Lemma settle_ledger (E : Env) (c : Context) (modelName : string) (p : Pricing)
    (userQuota pre : Z) (usage : Usage) (l l' : Ledger.t) (s : Settlement) :
  settle E c modelName p userQuota pre usage l = (l', s) ->
  Ledger.token_remain l'
  = match Ledger.token_remain l !! ctx_token_id c with
    | Some r => <[ctx_token_id c := r - s_quotaDelta s]> (Ledger.token_remain l)
    | None => Ledger.token_remain l
    end
  /\ Ledger.consume_logs l'
     = Ledger.consume_logs l
       ++ (if s_quota s =? 0 then [] else [consume_log_of c userQuota s]).
Proof.
  unfold settle, consume_log_of. intros H. injection H as <- <-. cbn.
  unfold Ledger.PostConsumeTokenQuota, Ledger.CacheUpdateUserQuota,
    Ledger.UpdateChannelUsedQuota.
  destruct (Ledger.token_remain l !! ctx_token_id c) as [r |]; cbn;
    destruct (Ledger.user_quota l !! ctx_id c) as [q |]; cbn;
    destruct (settle_quota _ _ _ _ _ =? 0); cbn;
    try destruct (BatchUpdateEnabled E); cbn;
    split; try reflexivity; now rewrite ?app_nil_r.
Qed.

Lemma refunded_ledger (c : Context) (userQuota pre : Z) (l : Ledger.t) :
  Ledger.token_remain (refunded c userQuota pre l)
  = (if pre =? 0 then Ledger.token_remain l
     else match Ledger.token_remain l !! ctx_token_id c with
          | Some r => <[ctx_token_id c := r - GoInt.sub 0 pre]> (Ledger.token_remain l)
          | None => Ledger.token_remain l
          end)
  /\ Ledger.consume_logs (refunded c userQuota pre l) = Ledger.consume_logs l
  /\ Ledger.user_quota_cache (refunded c userQuota pre l) = Ledger.user_quota_cache l
  /\ Ledger.user_used_quota (refunded c userQuota pre l) = Ledger.user_used_quota l
  /\ Ledger.channel_used_quota (refunded c userQuota pre l) = Ledger.channel_used_quota l.
Proof.
  unfold refunded, Ledger.PostConsumeTokenQuota.
  destruct (pre =? 0); cbn; [repeat split |].
  destruct (Ledger.token_remain l !! ctx_token_id c); cbn; repeat split.
Qed.

(** The estimate a call preconsumes against, when the call gets as far. *)
Definition estimate (E : Env) (c : Context) (relayMode : RelayMode) : option Z :=
  match UnmarshalBodyReusable E (ctx_request_body c) with
  | Ok r0 =>
      match map_model_name E (ctx_model_mapping c)
              (apply_default_model relayMode (ctx_param_model c) r0) with
      | Ok (textRequest, _) =>
          Some (preConsumedQuota (price E (ctx_group c) relayMode textRequest))
      | Err _ => None
      end
  | Err _ => None
  end.

Lemma settled_estimate (E : Env) (c : Context) (relayMode : RelayMode)
    (l l' : Ledger.t) (rep : Report) (s : Settlement) :
  relayTextHelper E c relayMode l = (l', rep) ->
  rep_settled rep = Some s ->
  exists est l1 userQuota usage textRequest,
    estimate E c relayMode = Some est
    /\ preconsume (ctx_id c) (ctx_token_id c) est l = (l1, Ok (userQuota, s_preConsumedQuota s))
    /\ settle E c (Model textRequest) (price E (ctx_group c) relayMode textRequest)
         userQuota (s_preConsumedQuota s) usage l1 = (l', s).
Proof.
  intros Hrun Hs.
  destruct (relayTextHelper_settled E c relayMode l l' rep s Hrun Hs)
    as (r0 & textRequest & mapped & l1 & userQuota & pre & usage & url & body
        & Hbind & Hmap & Hpre & Hsettle & _).
  destruct (settle_fields _ _ _ _ _ _ _ _ _ _ Hsettle) as (_ & _ & _ & _ & _ & _ & Hp & _).
  exists (preConsumedQuota (price E (ctx_group c) relayMode textRequest)), l1, userQuota,
    usage, textRequest.
  unfold estimate. rewrite Hbind, Hmap, Hp. auto.
Qed.

(** X1.  A call that settles has, all in all, taken the quota it charged
    off the token's remaining quota, whatever it had preconsumed on the way;
    no other token is touched. *)
Theorem settled_call_charges_token (E : Env) (c : Context) (relayMode : RelayMode)
    (l l' : Ledger.t) (rep : Report) (s : Settlement) (r : Z) :
  relayTextHelper E c relayMode l = (l', rep) ->
  rep_settled rep = Some s ->
  Ledger.token_remain l !! ctx_token_id c = Some r ->
  0 <= s_preConsumedQuota s ->
  GoInt.in_range (s_quota s - s_preConsumedQuota s) ->
  Ledger.token_remain l' = <[ctx_token_id c := r - s_quota s]> (Ledger.token_remain l).
Proof.
  intros Hrun Hs Hr Hpos Hrange.
  destruct (settled_estimate E c relayMode l l' rep s Hrun Hs)
    as (est & l1 & userQuota & usage & textRequest & _ & Hpre & Hsettle).
  destruct (settle_fields _ _ _ _ _ _ _ _ _ _ Hsettle)
    as (_ & _ & _ & _ & _ & _ & _ & _ & Hd).
  rewrite GoIntFacts.sub_exact in Hd by exact Hrange.
  destruct (settle_ledger _ _ _ _ _ _ _ _ _ _ Hsettle) as [Htok _].
  destruct (preconsume_token _ _ _ _ _ _ _ Hpre) as (_ & Hkeep & Htake & _).
  rewrite Htok, Hd.
  destruct (Z.eq_dec (s_preConsumedQuota s) 0) as [Hz | Hnz].
  - rewrite (Hkeep ltac:(lia)), Hr, Hz. f_equal. lia.
  - destruct (Htake ltac:(lia)) as (r' & Hr' & _ & ->).
    rewrite Hr in Hr'. injection Hr' as <-.
    rewrite lookup_insert_eq, insert_insert_eq. f_equal. lia.
Qed.

Lemma settled_call_charges_token_witness :
  Ledger.token_remain (fst Scenario.plain_run) !! 7 = Some 49625.
Proof.
  assert (Hr : GoInt.in_range (375 - 3750))
    by (unfold GoInt.in_range, GoInt.int_min, GoInt.int_max; lia).
  rewrite (settled_call_charges_token
             (Scenario.env ∅ (Some Scenario.usage_10_20)) (Scenario.ctx "")
             RelayModeChatCompletions (Scenario.ledger 100000)
             (fst Scenario.plain_run) (snd Scenario.plain_run) Scenario.plain_settlement
             50000 (surjective_pairing _) plain_run_settles eq_refl ltac:(cbn; lia) Hr).
  reflexivity.
Defined.

(** *** Calls that do not settle *)

Lemma preconsume_cache (userId tokenId estimate : Z) (l l1 : Ledger.t)
    (userQuota recorded : Z) :
  preconsume userId tokenId estimate l = (l1, Ok (userQuota, recorded)) ->
  Ledger.CacheGetUserQuota userId l = Ok userQuota
  /\ Ledger.user_quota_cache l1
     = Ledger.bump userId (- estimate) (Ledger.user_quota_cache l).
Proof.
  unfold preconsume.
  destruct (Ledger.CacheGetUserQuota userId l) as [uq | e]; [| discriminate].
  destruct (GoInt.sub uq estimate <? 0); [discriminate |].
  cbn [Ledger.CacheDecreaseUserQuota].
  destruct (uq >? GoInt.mul 100 estimate).
  - cbn. intros H. injection H as <- <- <-. now split.
  - destruct (estimate >? 0).
    + unfold Ledger.PreConsumeTokenQuota. cbn.
      destruct (Ledger.token_remain l !! tokenId) as [r |]; [| discriminate].
      destruct (r <? estimate); [discriminate |].
      intros H. injection H as <- <- <-. now split.
    + intros H. injection H as <- <- <-. now split.
Qed.

Lemma preconsume_logs (userId tokenId estimate : Z) (l : Ledger.t) :
  Ledger.consume_logs (fst (preconsume userId tokenId estimate l)) = Ledger.consume_logs l.
Proof.
  unfold preconsume.
  destruct (Ledger.CacheGetUserQuota userId l) as [uq | e]; [| reflexivity].
  destruct (GoInt.sub uq estimate <? 0); [reflexivity |].
  cbn [Ledger.CacheDecreaseUserQuota].
  destruct (uq >? GoInt.mul 100 estimate); [reflexivity |].
  destruct (estimate >? 0); [| reflexivity].
  unfold Ledger.PreConsumeTokenQuota. cbn.
  destruct (Ledger.token_remain l !! tokenId) as [r |]; [| reflexivity].
  destruct (r <? estimate); reflexivity.
Qed.

Lemma sent_estimate (E : Env) (c : Context) (relayMode : RelayMode)
    (l l' : Ledger.t) (rep : Report) (req : OutboundRequest) :
  relayTextHelper E c relayMode l = (l', rep) ->
  rep_sent rep = Some req ->
  exists est l1 userQuota pre textRequest isModelMapped url body,
    estimate E c relayMode = Some est
    /\ preconsume (ctx_id c) (ctx_token_id c) est l = (l1, Ok (userQuota, pre))
    /\ request_body E c relayMode (apiType_of (ctx_channel c)) textRequest isModelMapped
       = Ok body
    /\ dispatch_and_settle E c relayMode (apiType_of (ctx_channel c)) textRequest
         (price E (ctx_group c) relayMode textRequest) url body userQuota pre l1
       = (l', rep).
Proof.
  intros Hrun Hsent.
  destruct (relayTextHelper_sent E c relayMode l l' rep req Hrun Hsent)
    as (r0 & textRequest & mapped & l1 & userQuota & pre & url & body
        & Hbind & Hmap & Hpre & _ & Hbody & Hdisp).
  exists (preConsumedQuota (price E (ctx_group c) relayMode textRequest)), l1, userQuota,
    pre, textRequest, mapped, url, body.
  unfold estimate. rewrite Hbind, Hmap. auto.
Qed.

(** X2.  When the upstream answers with a status other than 200, the call
    hands back the upstream's error and settles nothing; what preconsumption
    took off the token is given back, so the token's remaining quota is what
    it was before the call, and neither a log record nor a used-quota counter
    is written.  The user's cached quota stays lowered by the estimate. *)
Theorem upstream_error_refunds (E : Env) (c : Context) (relayMode : RelayMode)
    (l l' : Ledger.t) (rep : Report) (req : OutboundRequest) (resp : Response) (est : Z) :
  relayTextHelper E c relayMode l = (l', rep) ->
  rep_sent rep = Some req ->
  Do E c req = Ok resp ->
  StatusCode resp <> StatusOK ->
  estimate E c relayMode = Some est ->
  0 <= est ->
  (forall r, Ledger.token_remain l !! ctx_token_id c = Some r -> r <= GoInt.int_max) ->
  rep_error rep = Some (relayErrorHandler E resp)
  /\ rep_settled rep = None
  /\ Ledger.token_remain l' = Ledger.token_remain l
  /\ Ledger.consume_logs l' = Ledger.consume_logs l
  /\ Ledger.user_used_quota l' = Ledger.user_used_quota l
  /\ Ledger.channel_used_quota l' = Ledger.channel_used_quota l
  /\ Ledger.user_quota_cache l' !! ctx_id c
     = Some (default 0 (Ledger.user_quota_cache l !! ctx_id c) - est).
Proof.
  intros Hrun Hsent HDo Hstatus Hest Hpos Hfit.
  destruct (sent_estimate E c relayMode l l' rep req Hrun Hsent)
    as (est' & l1 & userQuota & pre & textRequest & mapped & url & body
        & Hest' & Hpre & _ & Hdisp).
  rewrite Hest in Hest'. injection Hest' as <-.
  destruct (dispatch_and_settle_sent _ _ _ _ _ _ _ _ _ _ _ _ _ _ Hdisp Hsent)
    as (_ & _ & Hcase).
  rewrite HDo in Hcase.
  destruct (Z.eqb_spec (StatusCode resp) StatusOK) as [Hok | _]; [contradiction |].
  destruct Hcase as (-> & Hnone & Herr).
  destruct (preconsume_token _ _ _ _ _ _ _ Hpre) as (Hrec & Hkeep & Htake & Hlog & Huu & Hcu & _).
  destruct (preconsume_cache _ _ _ _ _ _ _ Hpre) as [_ Hcache].
  destruct (refunded_ledger c userQuota pre l1) as (Htok & Hlog' & Hcache' & Huu' & Hcu').
  split; [exact Herr |]. split; [exact Hnone |].
  split; [| split; [congruence | split; [congruence | split; [congruence |]]]].
  - rewrite Htok. destruct (Z.eqb_spec pre 0) as [-> | Hnz].
    + apply Hkeep. lia.
    + destruct (Htake ltac:(lia)) as (r & Hr & Hle & ->).
      rewrite lookup_insert_eq, insert_insert_eq.
      rewrite GoIntFacts.sub_exact.
      2:{ pose proof (Hfit r Hr) as Hmax. revert Hmax.
          unfold GoInt.in_range, GoInt.int_min, GoInt.int_max. lia. }
      replace (r - pre - (0 - pre)) with r by lia.
      now apply insert_id.
  - rewrite Hcache', Hcache. unfold Ledger.bump. now rewrite lookup_insert_eq.
Qed.

Lemma busy_run_sends : rep_sent (snd Scenario.busy_run) = Some Scenario.plain_sent.
Proof. vm_compute. reflexivity. Qed.

Lemma upstream_error_refunds_witness :
  rep_settled (snd Scenario.busy_run) = None
  /\ Ledger.token_remain (fst Scenario.busy_run) = Ledger.token_remain (Scenario.ledger 100000)
  /\ Ledger.user_quota_cache (fst Scenario.busy_run) !! 1 = Some 96250.
Proof.
  destruct (upstream_error_refunds Scenario.busy_env (Scenario.ctx "")
              RelayModeChatCompletions (Scenario.ledger 100000)
              (fst Scenario.busy_run) (snd Scenario.busy_run) Scenario.plain_sent
              {| StatusCode := 429; ContentType := "application/json" |} 3750
              (surjective_pairing _) busy_run_sends eq_refl)
    as (_ & Hnone & Htok & _ & _ & _ & Hcache).
  - discriminate.
  - vm_compute. reflexivity.
  - lia.
  - intros r Hr. vm_compute in Hr. injection Hr as <-. unfold GoInt.int_max. lia.
  - split; [exact Hnone | split; [exact Htok |]].
    etransitivity; [exact Hcache | reflexivity].
Defined.

(** X3.  When the request cannot be delivered to the upstream, the call
    fails with [do_request_failed] and settles nothing; the ledger is left
    exactly as preconsumption left it, so what was taken off the token's
    remaining quota is not given back. *)
Theorem transport_error_keeps_preconsumed (E : Env) (c : Context) (relayMode : RelayMode)
    (l l' : Ledger.t) (rep : Report) (req : OutboundRequest) (e : string) :
  relayTextHelper E c relayMode l = (l', rep) ->
  rep_sent rep = Some req ->
  Do E c req = Err e ->
  rep_error rep = Some (errorWrapper e "do_request_failed" StatusInternalServerError)
  /\ rep_settled rep = None
  /\ exists est userQuota pre,
       estimate E c relayMode = Some est
       /\ preconsume (ctx_id c) (ctx_token_id c) est l = (l', Ok (userQuota, pre))
       /\ (0 < pre ->
           exists r, Ledger.token_remain l !! ctx_token_id c = Some r
                     /\ Ledger.token_remain l' !! ctx_token_id c = Some (r - pre)).
Proof.
  intros Hrun Hsent HDo.
  destruct (sent_estimate E c relayMode l l' rep req Hrun Hsent)
    as (est & l1 & userQuota & pre & textRequest & mapped & url & body
        & Hest & Hpre & _ & Hdisp).
  destruct (dispatch_and_settle_sent _ _ _ _ _ _ _ _ _ _ _ _ _ _ Hdisp Hsent)
    as (_ & _ & Hcase).
  rewrite HDo in Hcase. destruct Hcase as (-> & Hnone & Herr).
  split; [exact Herr |]. split; [exact Hnone |].
  exists est, userQuota, pre. split; [exact Hest |]. split; [exact Hpre |].
  intros Hpos.
  destruct (preconsume_token _ _ _ _ _ _ _ Hpre) as (_ & _ & Htake & _).
  destruct (Htake Hpos) as (r & Hr & _ & Heq).
  exists r. split; [exact Hr |]. rewrite Heq. apply lookup_insert_eq.
Qed.

Lemma down_run_sends : rep_sent (snd Scenario.down_run) = Some Scenario.plain_sent.
Proof. vm_compute. reflexivity. Qed.

Lemma transport_error_keeps_preconsumed_witness :
  rep_settled (snd Scenario.down_run) = None
  /\ Ledger.token_remain (fst Scenario.down_run) !! 7 = Some 46250.
Proof.
  destruct (transport_error_keeps_preconsumed Scenario.down_env (Scenario.ctx "")
              RelayModeChatCompletions (Scenario.ledger 100000)
              (fst Scenario.down_run) (snd Scenario.down_run) Scenario.plain_sent
              "connection refused" (surjective_pairing _) down_run_sends eq_refl)
    as (_ & Hnone & est & userQuota & pre & Hest & Hpre & Htok).
  split; [exact Hnone |].
  vm_compute in Hest. injection Hest as <-.
  assert (Hp : pre = 3750).
  { assert (H : snd (preconsume 1 7 3750 (Scenario.ledger 100000)) = Ok (100000, 3750))
      by (vm_compute; reflexivity).
    cbn [Scenario.ctx ctx_id ctx_token_id] in Hpre. rewrite Hpre in H. cbn in H. congruence. }
  subst pre. destruct (Htok ltac:(lia)) as (r & Hr & Hr').
  vm_compute in Hr. injection Hr as <-. exact Hr'.
Defined.

(** *** Channels that make no HTTP request *)




(** *** The body that goes out *)

(** X5.  On a channel that speaks the OpenAI protocol and has no model
    mapping (none, or the empty object), the body of the request sent
    upstream is the body of the inbound request, byte for byte. *)
Theorem unmapped_body_passes_through (E : Env) (c : Context) (relayMode : RelayMode)
    (l l' : Ledger.t) (rep : Report) (req : OutboundRequest) :
  relayTextHelper E c relayMode l = (l', rep) ->
  rep_sent rep = Some req ->
  apiType_of (ctx_channel c) = APITypeOpenAI ->
  ctx_model_mapping c = EmptyString \/ ctx_model_mapping c = "{}"%string ->
  out_body req = InboundBody (ctx_request_body c).
Proof.
  intros Hrun Hsent Hapi Hmapping.
  destruct (relayTextHelper_sent E c relayMode l l' rep req Hrun Hsent)
    as (r0 & textRequest & mapped & l1 & userQuota & pre & url & body
        & _ & Hmap & _ & _ & Hbody & Hdisp).
  destruct (dispatch_and_settle_sent _ _ _ _ _ _ _ _ _ _ _ _ _ _ Hdisp Hsent)
    as (_ & -> & _).
  assert (mapped = false) as ->.
  { unfold map_model_name in Hmap.
    destruct Hmapping as [Hm | Hm]; rewrite Hm in Hmap; cbn in Hmap; congruence. }
  rewrite Hapi in Hbody. cbn in Hbody. congruence.
Qed.

Lemma plain_run_sends : rep_sent (snd Scenario.plain_run) = Some Scenario.plain_sent.
Proof. vm_compute. reflexivity. Qed.

Lemma unmapped_body_passes_through_witness :
  out_body Scenario.plain_sent = InboundBody "{}".
Proof.
  exact (unmapped_body_passes_through (Scenario.env ∅ (Some Scenario.usage_10_20))
           (Scenario.ctx "") RelayModeChatCompletions (Scenario.ledger 100000)
           (fst Scenario.plain_run) (snd Scenario.plain_run) Scenario.plain_sent
           (surjective_pairing _) plain_run_sends eq_refl (or_introl eq_refl)).
Defined.

(** *** The consume log *)

Lemma dispatch_and_settle_logs (E : Env) (c : Context) (relayMode : RelayMode)
    (apiType : APIType) (textRequest : GeneralOpenAIRequest) (p : Pricing)
    (url : string) (body : RequestBody) (userQuota pre : Z)
    (l l' : Ledger.t) (rep : Report) :
  dispatch_and_settle E c relayMode apiType textRequest p url body userQuota pre l
  = (l', rep) ->
  Ledger.consume_logs l'
  = Ledger.consume_logs l
    ++ match rep_settled rep with
       | Some s => if s_quota s =? 0 then [] else [consume_log_of c userQuota s]
       | None => []
       end.
Proof.
  unfold dispatch_and_settle. intros Hrun.
  assert (Hfin : forall sent resp isStream,
             (let '(err, usage) :=
                run_handler E c apiType relayMode isStream textRequest (promptTokens p) resp in
              let '(l2, s2) :=
                settle E c (Model textRequest) p userQuota pre usage l in
              (l2, {| rep_error := err; rep_sent := sent; rep_settled := Some s2 |}))
             = (l', rep) ->
             Ledger.consume_logs l'
             = Ledger.consume_logs l
               ++ match rep_settled rep with
                  | Some s => if s_quota s =? 0 then [] else [consume_log_of c userQuota s]
                  | None => []
                  end).
  { intros sent resp isStream H.
    destruct (run_handler E c apiType relayMode isStream textRequest (promptTokens p) resp)
      as [err usage].
    destruct (settle E c (Model textRequest) p userQuota pre usage l) as [l2 s2] eqn:Hst.
    injection H as <- <-. cbn [rep_settled].
    now destruct (settle_ledger _ _ _ _ _ _ _ _ _ _ Hst) as [_ ->]. }
  destruct apiType;
    try (apply Hfin in Hrun; exact Hrun);
    match type of Hrun with
    | context [Do E c ?r] =>
        destruct (Do E c r) as [resp | e];
        [ destruct (StatusCode resp =? StatusOK); cbn [negb] in Hrun;
          [ apply Hfin in Hrun; exact Hrun
          | injection Hrun as <- <-; cbn [rep_settled failed]; rewrite app_nil_r;
            exact (proj1 (proj2 (refunded_ledger c userQuota pre l))) ]
        | injection Hrun as <- <-; cbn [rep_settled failed]; now rewrite app_nil_r ]
    end.
Qed.

(** X6.  A call appends at most one record to the consume log: the record
    of its settlement when it settles and charges a quota other than zero,
    carrying the user quota read when the call came in, and nothing in every
    other case. *)
Theorem consume_log_per_call (E : Env) (c : Context) (relayMode : RelayMode)
    (l l' : Ledger.t) (rep : Report) :
  relayTextHelper E c relayMode l = (l', rep) ->
  Ledger.consume_logs l'
  = Ledger.consume_logs l
    ++ match rep_settled rep, Ledger.CacheGetUserQuota (ctx_id c) l with
       | Some s, Ok userQuota =>
           if s_quota s =? 0 then [] else [consume_log_of c userQuota s]
       | _, _ => []
       end.
Proof.
  unfold relayTextHelper.
  destruct (UnmarshalBodyReusable E (ctx_request_body c)) as [r0 | e];
    [| intros H; injection H as <- <-; cbn; now rewrite app_nil_r].
  destruct (validate relayMode _) as [[] | e];
    [| intros H; injection H as <- <-; cbn; now rewrite app_nil_r].
  destruct (map_model_name E _ _) as [[textRequest isModelMapped] | e];
    [| intros H; injection H as <- <-; cbn; now rewrite app_nil_r].
  destruct (full_request_url E c relayMode _ textRequest) as [url | e];
    [| intros H; injection H as <- <-; cbn; now rewrite app_nil_r].
  pose proof (preconsume_logs (ctx_id c) (ctx_token_id c)
                (preConsumedQuota (price E (ctx_group c) relayMode textRequest)) l) as Hlogs.
  destruct (preconsume _ _ _ l) as [l1 [[userQuota pre] | e]] eqn:Hpre; cbn [fst] in Hlogs;
    [| intros H; injection H as <- <-; cbn; now rewrite app_nil_r].
  destruct (preconsume_cache _ _ _ _ _ _ _ Hpre) as [Hget _].
  destruct (request_body E c relayMode _ textRequest isModelMapped) as [body | e];
    [| intros H; injection H as <- <-; cbn; now rewrite app_nil_r].
  intros Hrun. rewrite (dispatch_and_settle_logs _ _ _ _ _ _ _ _ _ _ _ _ _ Hrun), Hlogs, Hget.
  now destruct (rep_settled rep).
Qed.

Lemma consume_log_per_call_witness :
  Ledger.consume_logs (fst Scenario.plain_run)
  = [consume_log_of (Scenario.ctx "") 100000 Scenario.plain_settlement].
Proof.
  rewrite (consume_log_per_call (Scenario.env ∅ (Some Scenario.usage_10_20))
             (Scenario.ctx "") RelayModeChatCompletions (Scenario.ledger 100000)
             (fst Scenario.plain_run) (snd Scenario.plain_run) (surjective_pairing _)).
  rewrite plain_run_settles. reflexivity.
Defined.

End RelayOutcomes.

(** ** The header of the outbound request *)

Module HeaderProps.

Import GoStrings controller outbound.

(** Canonical keys are computed where they are literals. *)
Ltac canon :=
  repeat match goal with
    | |- context [CanonicalMIMEHeaderKey ?k] =>
        let v := eval vm_compute in (CanonicalMIMEHeaderKey k) in
        change (CanonicalMIMEHeaderKey k) with v
    | H : context [CanonicalMIMEHeaderKey ?k] |- _ =>
        let v := eval vm_compute in (CanonicalMIMEHeaderKey k) in
        change (CanonicalMIMEHeaderKey k) with v in H
    end.

(** Look a key up in a header built by [Set_] and [Del]. *)
Ltac lookups :=
  unfold Set_, Del, Header in *; canon;
  repeat first
    [ rewrite lookup_insert_eq
    | rewrite lookup_insert_ne by congruence
    | rewrite lookup_delete_eq
    | rewrite lookup_delete_ne by congruence
    | rewrite lookup_empty ].

(** The keys [relayTextHelper] writes or deletes, in canonical form. *)
Definition written : list string :=
  ["Authorization"; "Api-Key"; "X-Api-Key"; "Anthropic-Version"; "Http-Referer";
   "X-Title"; "X-Dashscope-Sse"; "Content-Type"; "Accept"]%string.

(** The keys of a request to a channel of type [ChannelTypeOpenAIWeb]. *)
Definition web_keys : list string :=
  ["X-Real-Ip"; "X-Forwarded-For"; "Remote-Host"; "Authorization"; "Content-Type";
   "Accept"]%string.

(** The key the channel is called with. *)
Definition apiKey (inbound : Header) : string :=
  TrimPrefix (Get "Authorization" inbound) "Bearer ".

(** A request as a client sends it, with a key that asks for no
    [Authorization] header. *)
Definition client_header : Header :=
  {[ "Authorization"%string := ["Bearer sk-ignore-7"%string];
     "Content-Type"%string := ["application/json"%string];
     "User-Agent"%string := ["curl/8.4.0"%string] ]}.

Definition draw_ip : string := "203.0.113.9".



(** X8.  Every header of the inbound request that [relayTextHelper] does
    not write itself goes upstream as it came in, except on a channel of the
    OpenAI-web kind: there the request is made anew, and no header other than
    the six it is given goes upstream. *)
Theorem inbound_headers_forwarded (getZhipuToken : string -> string)
    (randomIpString : string) (inbound header : Header) (apiType : APIType)
    (channelType : ChannelType) (isStream : bool) (key : string) :
  request_header getZhipuToken randomIpString inbound apiType channelType isStream
  = Some header ->
  (apiType <> APITypeOpenAIWeb -> ~ In key written -> header !! key = inbound !! key)
  /\ (apiType = APITypeOpenAIWeb -> ~ In key web_keys -> header !! key = None).
Proof.
  unfold request_header. intros H. split.
  - intros Hweb Hkey.
    assert (Hne : forall k, In k written -> k <> key) by (intros k Hin ->; contradiction).
    pose proof (Hne "Authorization"%string ltac:(cbn; tauto)).
    pose proof (Hne "Api-Key"%string ltac:(cbn; tauto)).
    pose proof (Hne "X-Api-Key"%string ltac:(cbn; tauto)).
    pose proof (Hne "Anthropic-Version"%string ltac:(cbn; tauto)).
    pose proof (Hne "Http-Referer"%string ltac:(cbn; tauto)).
    pose proof (Hne "X-Title"%string ltac:(cbn; tauto)).
    pose proof (Hne "X-Dashscope-Sse"%string ltac:(cbn; tauto)).
    pose proof (Hne "Content-Type"%string ltac:(cbn; tauto)).
    pose proof (Hne "Accept"%string ltac:(cbn; tauto)).
    destruct apiType; try congruence; try destruct channelType;
      destruct (Contains _ "ignore"); injection H as <-;
      destruct (isStream && _); try destruct isStream; lookups; reflexivity.
  - intros -> Hkey.
    assert (Hne : forall k, In k web_keys -> k <> key) by (intros k Hin ->; contradiction).
    pose proof (Hne "X-Real-Ip"%string ltac:(cbn; tauto)).
    pose proof (Hne "X-Forwarded-For"%string ltac:(cbn; tauto)).
    pose proof (Hne "Remote-Host"%string ltac:(cbn; tauto)).
    pose proof (Hne "Authorization"%string ltac:(cbn; tauto)).
    pose proof (Hne "Content-Type"%string ltac:(cbn; tauto)).
    pose proof (Hne "Accept"%string ltac:(cbn; tauto)).
    destruct (Contains _ "ignore"); injection H as <-;
      destruct (isStream && _); lookups; reflexivity.
Qed.

Lemma inbound_headers_forwarded_witness :
  (exists header,
      request_header id draw_ip client_header APITypeClaude ChannelTypeAnthropic false
      = Some header
      /\ header !! "User-Agent"%string = Some ["curl/8.4.0"%string])
  /\ (exists header,
        request_header id draw_ip client_header APITypeOpenAIWeb ChannelTypeOpenAIWeb false
        = Some header
        /\ header !! "User-Agent"%string = None).
Proof.
  split.
  - destruct (request_header id draw_ip client_header APITypeClaude ChannelTypeAnthropic false)
      as [header |] eqn:H; [| vm_compute in H; discriminate H].
    exists header. split; [reflexivity |].
    rewrite (proj1 (inbound_headers_forwarded id draw_ip client_header header
                      APITypeClaude ChannelTypeAnthropic false "User-Agent" H)).
    + reflexivity.
    + discriminate.
    + cbn. intros Hin. repeat destruct Hin as [Hin | Hin]; try discriminate Hin. exact Hin.
  - destruct (request_header id draw_ip client_header APITypeOpenAIWeb ChannelTypeOpenAIWeb
                false) as [header |] eqn:H; [| vm_compute in H; discriminate H].
    exists header. split; [reflexivity |].
    apply (proj2 (inbound_headers_forwarded id draw_ip client_header header
                    APITypeOpenAIWeb ChannelTypeOpenAIWeb false "User-Agent" H));
      [reflexivity |].
    cbn. intros Hin. repeat destruct Hin as [Hin | Hin]; try discriminate Hin. exact Hin.
Defined.

(** X9.  For PaLM, and for an Azure channel, the inbound [Authorization]
    header is left in the outbound request as it was received, unless the
    key contains [ignore]; an Azure channel gets the key under [Api-Key] as
    well. *)
Theorem authorization_left_as_received (getZhipuToken : string -> string)
    (randomIpString : string) (inbound header : Header) (apiType : APIType)
    (channelType : ChannelType) (isStream : bool) :
  request_header getZhipuToken randomIpString inbound apiType channelType isStream
  = Some header ->
  apiType = APITypePaLM \/ (apiType = APITypeOpenAI /\ channelType = ChannelTypeAzure) ->
  Contains (apiKey inbound) "ignore" = false ->
  header !! "Authorization"%string = inbound !! "Authorization"%string
  /\ (channelType = ChannelTypeAzure -> apiType = APITypeOpenAI ->
      header !! "Api-Key"%string = Some [apiKey inbound]).
Proof.
  unfold request_header, apiKey. intros H Hwhich Hignore.
  destruct Hwhich as [-> | [-> ->]]; rewrite Hignore in H; injection H as <-;
    (split; [| intros; try discriminate]);
    destruct (isStream && _); lookups; reflexivity.
Qed.

(** A request with a key that asks for nothing. *)
Definition keyed_header : Header :=
  {[ "Authorization"%string := ["Bearer sk-palm-1"%string] ]}.

Lemma authorization_left_as_received_witness :
  exists header,
    request_header id draw_ip keyed_header APITypePaLM ChannelTypePaLM false = Some header
    /\ header !! "Authorization"%string = Some ["Bearer sk-palm-1"%string].
Proof.
  destruct (request_header id draw_ip keyed_header APITypePaLM ChannelTypePaLM false)
    as [header |] eqn:H; [| vm_compute in H; discriminate H].
  exists header. split; [reflexivity |].
  rewrite (proj1 (authorization_left_as_received id draw_ip keyed_header header
                    APITypePaLM ChannelTypePaLM false H (or_introl eq_refl)
                    ltac:(vm_compute; reflexivity))).
  reflexivity.
Defined.

(** X10.  The outbound request always has a [Content-Type] and an
    [Accept] header: the inbound values, empty when the inbound request had
    none, except that a streaming request without an inbound [Accept] asks
    for [text/event-stream]; so a streaming request never goes out with an
    empty [Accept]. *)
Theorem content_type_and_accept (getZhipuToken : string -> string)
    (randomIpString : string) (inbound header : Header) (apiType : APIType)
    (channelType : ChannelType) (isStream : bool) :
  request_header getZhipuToken randomIpString inbound apiType channelType isStream
  = Some header ->
  header !! "Content-Type"%string = Some [Get "Content-Type" inbound]
  /\ header !! "Accept"%string
     = Some [if isStream && String.eqb (Get "Accept" inbound) ""
             then "text/event-stream"%string else Get "Accept" inbound]
  /\ (isStream = true -> Get "Accept" header <> EmptyString).
Proof.
  unfold request_header. intros H.
  assert (Hboth : header !! "Content-Type"%string = Some [Get "Content-Type" inbound]
                  /\ header !! "Accept"%string
                     = Some [if isStream && String.eqb (Get "Accept" inbound) ""
                             then "text/event-stream"%string else Get "Accept" inbound]).
  { destruct apiType; try destruct channelType; try discriminate H;
      destruct (Contains _ "ignore"); injection H as <-;
      destruct (isStream && String.eqb (Get "Accept" inbound) "");
      split; try destruct isStream; lookups; reflexivity. }
  destruct Hboth as [Hct Hacc]. split; [exact Hct | split; [exact Hacc |]].
  intros ->. unfold Get at 1. canon. rewrite Hacc. cbn [andb].
  destruct (String.eqb_spec (Get "Accept" inbound) ""); [discriminate | assumption].
Qed.

Lemma content_type_and_accept_witness :
  exists header,
    request_header id draw_ip client_header APITypeOpenAI ChannelTypeOpenAI true
    = Some header
    /\ header !! "Accept"%string = Some ["text/event-stream"%string].
Proof.
  destruct (request_header id draw_ip client_header APITypeOpenAI ChannelTypeOpenAI true)
    as [header |] eqn:H; [| vm_compute in H; discriminate H].
  exists header. split; [reflexivity |].
  rewrite (proj1 (proj2 (content_type_and_accept id draw_ip client_header header
                           APITypeOpenAI ChannelTypeOpenAI true H))).
  reflexivity.
Defined.

End HeaderProps.

(** ** The racing dispatcher: the other ways a call ends *)

Module RacingOutcomes.

Import racing RacingProps.

#[local] Hint Rewrite asyncNum_set_phase req_set_phase reqs_set_phase cancelFuncs_set_phase
  cancelled_set_phase timer_set_phase done_closed_set_phase resps_set_phase
  lastErr_set_phase returned_set_phase attempts_set_phase escalation_set_phase : racing.

(** *** The error main hands back *)

Definition failure_of (ev : Event) : option string :=
  match ev with
  | DoFails _ err => Some err
  | _ => None
  end.

(** The errors [Do] came back with along [evs], oldest first. *)
Definition failures (evs : list Event) : list string := omap failure_of evs.

Lemma step_lastErr (st st' : State) (ev : Event) :
  step st ev = Some st' ->
  lastErr st' = match failure_of ev with Some e => Some e | None => lastErr st end.
Proof. intros H. step_cases ev H; reflexivity. Qed.

Lemma run_lastErr (evs : list Event) (st st' : State) :
  run st evs = Some st' ->
  lastErr st' = match last (failures evs) with Some e => Some e | None => lastErr st end.
Proof.
  revert st'. induction evs as [| ev evs IH] using rev_ind; intros st' Hrun.
  - cbn in Hrun. now injection Hrun as <-.
  - rewrite run_snoc in Hrun. destruct (run st evs) as [st1 |]; [| discriminate].
    rewrite (step_lastErr _ _ _ Hrun), (IH st1 eq_refl).
    unfold failures. rewrite omap_app.
    destruct (failure_of ev) as [e |] eqn:Hf; cbn; rewrite Hf.
    + now rewrite last_snoc.
    + now rewrite app_nil_r.
Qed.

(** X11.  When the channels are closed and main has not returned, no 200
    has been received; main then returns the first response it received
    (none if it received none) together with the error of the attempt that
    failed last (none if none failed), closes the bodies of the other
    responses it had put aside, and invokes every cancel func left in the
    table. *)
Theorem fallback_return (req0 : Request) (N : Z) (st0 st : State) (evs : list Event) :
  start req0 N = Ok st0 ->
  run st0 evs = Some st ->
  returned st = None ->
  done_closed st = true ->
  exists st',
    step st TakeDone = Some st'
    /\ returned st' = Some (hd_error (received st0 evs), last (failures evs))
    /\ Forall (fun r => StatusCode r <> 200) (received st0 evs)
    /\ closed_bodies st' = tl (received st0 evs)
    /\ (forall i c, cancelFuncs st !! i = Some c -> c ∈ cancelled st').
Proof.
  intros Hstart Hrun Hret Hdone.
  destruct (reachable_invariants req0 N st0 st evs Hstart Hrun)
    as (_ & _ & _ & _ & Hres & _).
  destruct (start_state req0 N st0 Hstart)
    as (_ & _ & _ & _ & _ & _ & _ & _ & Hresps0 & _).
  pose proof (received_resps evs st0 st Hrun Hret) as Hrec.
  rewrite Hresps0 in Hrec. cbn in Hrec.
  pose proof (run_lastErr evs st0 st Hrun) as Herr.
  assert (Herr0 : lastErr st0 = None).
  { unfold start in Hstart. destruct (N <? 0); [discriminate |].
    destruct (Body req0); [| discriminate].
    destruct (N =? 1); injection Hstart as <-; reflexivity. }
  rewrite Herr0 in Herr.
  eexists. split.
  { unfold step, is_main_running. rewrite Hret, Hdone. reflexivity. }
  cbn. rewrite <- Hrec.
  split; [| split; [now apply Hres | split; [reflexivity |]]].
  - rewrite Herr. now destruct (last (failures evs)).
  - intros i c Hi. apply elem_of_union_l. now apply (elem_of_map_img_2 _ i).
Qed.

(** Two attempts: one fails, the other comes back with a 500, which main
    puts aside; then the waiter closes the channels. *)
Definition two_way : State :=
  match start caller_request 2 with
  | Ok st => st
  | Err _ => three_way
  end.

Definition lost_race_events : list Event :=
  [DoFails (Attempt 0) "timeout"; DoReturns (Attempt 1) 500; Inspect 1;
   Receive (Attempt 1); WaitReturns].

Definition lost_race : State := default two_way (run two_way lost_race_events).

Definition busy_of_1 : Response :=
  {| StatusCode := 500; Request_ := WithContext 1 (with_body "{}" (clone 1 caller_request)) |}.

Lemma fallback_return_witness :
  exists st',
    step lost_race TakeDone = Some st'
    /\ returned st' = Some (Some busy_of_1, Some "timeout"%string)
    /\ closed_bodies st' = [].
Proof.
  assert (Hstart : start caller_request 2 = Ok two_way) by (vm_compute; reflexivity).
  assert (Hrun : run two_way lost_race_events = Some lost_race) by (vm_compute; reflexivity).
  destruct (fallback_return caller_request 2 two_way lost_race lost_race_events
              Hstart Hrun eq_refl eq_refl) as (st' & Hstep & Hret & _ & Hclosed & _).
  exists st'. split; [exact Hstep |].
  split; [rewrite Hret | rewrite Hclosed]; vm_compute; reflexivity.
Defined.

(** *** No attempts at all *)

Definition idle (st : State) : Prop :=
  attempts st = [] /\ escalation st = None /\ asyncNum st = 0
  /\ resps st = [] /\ lastErr st = None
  /\ (returned st = None \/ returned st = Some (None, None)).

Lemma idle_step (st st' : State) (ev : Event) :
  idle st -> step st ev = Some st' -> idle st'.
Proof.
  unfold idle. intros (Ha & He & Hn & Hr & Hl & Hret) H.
  step_cases ev H;
    try (rewrite Ha in *; discriminate);
    try (rewrite He in *; discriminate);
    try (rewrite Hn in *; discriminate);
    rewrite ?Hr, ?Hl in *; repeat split; auto.
Qed.

(** X12.  With [asyncNum = 0] no attempt is started: the call can return,
    and whenever it returns it hands back neither a response nor an error. *)
Theorem no_attempts_no_result (req0 : Request) (st0 : State) :
  start req0 0 = Ok st0 ->
  (exists st, run st0 [WaitReturns; TakeDone] = Some st /\ returned st = Some (None, None))
  /\ (forall evs st x,
        run st0 evs = Some st -> returned st = Some x -> x = (None, None)).
Proof.
  intros Hstart.
  assert (Hst0 : exists b, st0 = {| asyncNum := 0; req := drained req0; reqs := [];
                                    cancelFuncs := ∅; cancelled := ∅; attempts := [];
                                    escalation := None; timer := Armed;
                                    done_closed := false; resps := []; closed_bodies := [];
                                    lastErr := None; returned := None |} /\ Body req0 = Reader b).
  { unfold start in Hstart. cbn in Hstart.
    destruct (Body req0) as [b | e]; [| discriminate].
    injection Hstart as <-. now exists b. }
  destruct Hst0 as (b & -> & _).
  split.
  - eexists. split; reflexivity.
  - intros evs st x Hrun Hx.
    assert (Hidle : idle st).
    { revert Hrun. apply (run_preserves idle); [intros s e s'; apply idle_step |].
      unfold idle. cbn. repeat split; auto. }
    destruct Hidle as (_ & _ & _ & _ & _ & [Hn | Hs]); congruence.
Qed.

Lemma no_attempts_no_result_witness :
  exists st0 st,
    start caller_request 0 = Ok st0
    /\ run st0 [WaitReturns; TakeDone] = Some st
    /\ returned st = Some (None, None).
Proof.
  destruct (start caller_request 0) as [st0 | e] eqn:Hstart;
    [| exfalso; vm_compute in Hstart; discriminate Hstart].
  destruct (no_attempts_no_result caller_request st0 Hstart) as [(st & Hrun & Hret) _].
  now exists st0, st.
Defined.

(** *** After main has returned *)

Lemma sending_not_done (st : State) (w : Who) (resp : Response) :
  phase_of w st = Some (Sending resp) -> all_done st = false.
Proof.
  unfold all_done. destruct w as [i |]; cbn.
  - intros Hi. apply andb_false_intro1.
    apply not_true_is_false. intros Hall.
    rewrite forallb_forall in Hall.
    apply list_elem_of_lookup_2, list_elem_of_In in Hi. now apply Hall in Hi.
  - destruct (escalation st) as [[r ph] |]; cbn; [| discriminate].
    intros H. injection H as ->. apply andb_false_r.
Qed.

Definition blocked (w : Who) (resp : Response) (st : State) : Prop :=
  returned st <> None /\ done_closed st = false /\ phase_of w st = Some (Sending resp).

Lemma blocked_step (w : Who) (resp : Response) (st st' : State) (ev : Event) :
  blocked w resp st -> step st ev = Some st' -> blocked w resp st'.
Proof.
  unfold blocked. intros (Hret & Hopen & Hph) H.
  destruct (returned st) as [x |] eqn:Hx; [| congruence].
  pose proof (returned_sticky st st' ev x H Hx) as Hret'.
  split; [congruence |].
  pose proof (sending_not_done st w resp Hph) as Hnot.
  unfold step in H.
  destruct ev as [[a |] err | [a |] status | a | [a |] | | | | | |];
    unfold is_main_running in H; rewrite ?Hx, ?Hnot, ?Hopen in H; cbn [andb negb] in H;
    repeat match type of H with
      | context [match ?x with _ => _ end] =>
          let E := fresh "E" in destruct x eqn:E; try discriminate H
      end;
    try congruence;
    apply Some_eq in H; subst; fields; (split; [exact Hopen |]);
    destruct w as [i |]; cbn in *; fields; try exact Hph;
    try (rewrite list_lookup_insert_ne; [exact Hph | congruence]);
    try congruence;
    destruct (escalation st) as [[? ?] |]; cbn in *; exact Hph.
Qed.

(** X13.  Once main has returned while the channels are still open, a
    goroutine (an attempt or the escalation) that is waiting to hand over its
    response waits for good: whatever happens next, it is still waiting, main
    does not receive from it, the wait group never gets to zero and the
    channels are never closed. *)
Theorem late_response_blocks_forever (st st' : State) (w : Who) (resp : Response)
    (evs : list Event) :
  returned st <> None ->
  done_closed st = false ->
  phase_of w st = Some (Sending resp) ->
  run st evs = Some st' ->
  phase_of w st' = Some (Sending resp)
  /\ done_closed st' = false
  /\ step st' WaitReturns = None
  /\ step st' (Receive w) = None.
Proof.
  intros Hret Hopen Hph Hrun.
  assert (Hb : blocked w resp st').
  { revert Hrun. apply (run_preserves (blocked w resp)).
    - intros s e s'. apply blocked_step.
    - now repeat split. }
  destruct Hb as (Hret' & Hopen' & Hph').
  split; [exact Hph' | split; [exact Hopen' |]].
  split.
  - unfold step. now rewrite (sending_not_done st' w resp Hph').
  - unfold step, is_main_running. rewrite Hph'.
    destruct (returned st'); [reflexivity | congruence].
Qed.

(** Three attempts: main has returned the 200 of attempt 0 when attempt 2
    comes back with a response of its own. *)
Definition after_the_win : State :=
  default three_way
    (run three_way
       (three_way_events ++ [Receive (Attempt 0); DoReturns (Attempt 2) 200; Inspect 2])).

Definition ok_of_2 : Response :=
  {| StatusCode := 200; Request_ := WithContext 2 (with_body "{}" (clone 2 caller_request)) |}.

Lemma late_response_blocks_forever_witness :
  returned after_the_win = Some (Some ok_of_0, None)
  /\ step after_the_win WaitReturns = None
  /\ step after_the_win (Receive (Attempt 2)) = None.
Proof.
  split; [vm_compute; reflexivity |].
  destruct (late_response_blocks_forever after_the_win after_the_win (Attempt 2)
              ok_of_2 []) as (_ & _ & Hwait & Hrecv).
  - vm_compute. discriminate.
  - vm_compute. reflexivity.
  - vm_compute. reflexivity.
  - reflexivity.
  - split; [exact Hwait | exact Hrecv].
Defined.

(** *** While main is waiting *)

(** X14.  While main is in its loop, the context of an attempt that has
    not finished (in flight, or holding a response) has not been cancelled. *)
Theorem unfinished_attempts_not_cancelled (req0 : Request) (N : Z) (st0 st : State)
    (evs : list Event) (k : nat) (ph : Phase) :
  start req0 N = Ok st0 ->
  run st0 evs = Some st ->
  returned st = None ->
  attempts st !! k = Some ph ->
  ph <> Finished ->
  k ∉ cancelled st.
Proof.
  intros Hstart Hrun Hret Hk Hph Hin.
  destruct (reachable_invariants req0 N st0 st evs Hstart Hrun)
    as (_ & _ & _ & Hcf & _ & _).
  pose proof (Hcf Hret k Hin) as Hfin. congruence.
Qed.

Lemma unfinished_attempts_not_cancelled_witness :
  2%nat ∉ cancelled three_way_mid.
Proof.
  apply (unfinished_attempts_not_cancelled caller_request 3 three_way three_way_mid
           three_way_events 2%nat InFlight three_way_start three_way_run).
  - vm_compute. reflexivity.
  - vm_compute. reflexivity.
  - discriminate.
Defined.

(** *** The requests that go out *)

(** X15.  Every attempt that is started carries the whole body that was
    read from the caller's request, with the content length of that body,
    under the caller's context: on the caller's own request object when
    [asyncNum = 1], on a clone of its own otherwise.  In the latter case the
    caller's request keeps its content length while its body has been read to
    the end. *)
Theorem attempts_carry_the_body (req0 : Request) (N : Z) (st0 st : State)
    (evs : list Event) (b : string) (i : nat) (r : Request) :
  start req0 N = Ok st0 ->
  Body req0 = Reader b ->
  run st0 evs = Some st ->
  reqs st !! i = Some r ->
  Body r = Reader b
  /\ ContentLength r = Z.of_nat (String.length b)
  /\ ctx r = ctx req0
  /\ ref r = (if N =? 1 then ref req0 else Clone i)
  /\ (N <> 1 -> Body (req st) = Reader EmptyString /\ ContentLength (req st) = ContentLength req0).
Proof.
  intros Hstart Hb Hrun Hr.
  destruct (reachable_const st0 st evs Hrun) as (_ & Hreq & Hreqs).
  rewrite Hreqs in Hr. rewrite Hreq. clear Hrun Hreq Hreqs.
  unfold start in Hstart. destruct (N <? 0); [discriminate |].
  rewrite Hb in Hstart.
  destruct (Z.eqb_spec N 1) as [-> | Hne]; injection Hstart as <-; cbn in Hr |- *.
  - destruct i as [| i]; cbn in Hr; [| discriminate].
    injection Hr as <-. cbn. repeat split; congruence.
  - apply list_lookup_fmap_Some in Hr as (j & -> & Hj).
    apply lookup_seq in Hj as [-> _]. cbn. repeat split.
Qed.

Lemma attempts_carry_the_body_witness :
  exists r,
    reqs three_way_mid !! 1%nat = Some r
    /\ Body r = Reader "{}" /\ ContentLength r = 2 /\ ref r = Clone 1.
Proof.
  destruct (reqs three_way_mid !! 1%nat) as [r |] eqn:Hr;
    [| exfalso; vm_compute in Hr; discriminate Hr].
  exists r. split; [reflexivity |].
  destruct (attempts_carry_the_body caller_request 3 three_way three_way_mid
              three_way_events "{}" 1%nat r three_way_start eq_refl three_way_run Hr)
    as (Hbody & Hlen & _ & Href & _).
  auto.
Defined.

End RacingOutcomes.

(** ** Leader election: who holds the lease *)

Module ElectionSafety.

Import election ElectionProps.

Definition leader : Node := {| isLeader := true; IsMasterNode := true |}.

(** The lease a node writes. *)
Definition lease (nodeID : string) (configured : option Z) : Entry :=
  {| value := nodeID; pttl := ttlMillis configured |}.

(** X16.  A node that is leader after a turn whose command and reply got
    through holds the lease: the key carries its identity with the full lease
    time.  It either was a follower that found no lease and took it, or was a
    leader already and found its own identity under the key. *)
Theorem leader_holds_lease (nodeID : string) (configured : option Z) (n n' : Node)
    (db db' : gmap string Entry) :
  leaseSeconds configured <= 9223372036 ->
  iteration nodeID configured Delivered n db = (n', db') ->
  isLeader n' = true ->
  db' !! leaderKey = Some (lease nodeID configured)
  /\ (isLeader n = false -> db !! leaderKey = None /\ n' = leader)
  /\ (isLeader n = true -> value <$> db !! leaderKey = Some nodeID /\ n' = n).
Proof.
  intros Hcfg. pose proof (ttlMillis_pos configured Hcfg) as Hpos.
  unfold iteration, lease. destruct (isLeader n) eqn:Hl; cbn [negb].
  - destruct (decide (value <$> db !! leaderKey = Some nodeID)) as [Hown | Hnot].
    + rewrite (renewLua_own _ _ _ _ Hown Hpos). cbn.
      intros H _. injection H as <- <-.
      rewrite lookup_insert_eq.
      split; [reflexivity | split; [discriminate | intros _; now split]].
    + rewrite (renewLua_foreign _ _ _ _ Hnot). cbn.
      intros H Hlead. injection H as <- _. discriminate Hlead.
  - unfold SetNX. destruct (db !! leaderKey) as [e |] eqn:He; cbn.
    + intros H Hlead. injection H as <- _. cbn in Hlead. congruence.
    + intros H _. injection H as <- <-.
      rewrite lookup_insert_eq.
      split; [reflexivity | split; [intros _; now split | discriminate]].
Qed.

Lemma leader_holds_lease_witness :
  fst (iteration "node-a" None Delivered follower ∅) = leader
  /\ snd (iteration "node-a" None Delivered follower ∅) !! leaderKey
     = Some {| value := "node-a"; pttl := 15000 |}.
Proof.
  destruct (leader_holds_lease "node-a" None follower
              (fst (iteration "node-a" None Delivered follower ∅)) ∅
              (snd (iteration "node-a" None Delivered follower ∅)))
    as (Hlease & Hnew & _).
  - vm_compute. discriminate.
  - apply surjective_pairing.
  - reflexivity.
  - split; [now apply Hnew | exact Hlease].
Defined.

(** X17.  While the key holds another node's identity, a turn of the
    loop, of a leader or of a follower and however the command travels,
    leaves the store as it is and the node a follower with [IsMasterNode]
    off. *)
Theorem foreign_lease_respected (nodeID : string) (configured : option Z)
    (t : Transport) (n : Node) (db : gmap string Entry) (e : Entry) :
  db !! leaderKey = Some e ->
  value e <> nodeID ->
  iteration nodeID configured t n db = (follower, db).
Proof.
  intros He Hne. unfold iteration, follower.
  destruct (isLeader n) eqn:Hl; cbn [negb].
  - assert (Hnot : value <$> db !! leaderKey <> Some nodeID)
      by (rewrite He; cbn; congruence).
    rewrite (renewLua_foreign _ _ _ _ Hnot). now destruct t.
  - unfold SetNX. rewrite He. destruct t; cbn; now rewrite Hl.
Qed.

Lemma foreign_lease_respected_witness :
  iteration "node-b" None Delivered leader {[ leaderKey := lease "node-a" None ]}
  = (follower, {[ leaderKey := lease "node-a" None ]}).
Proof.
  apply (foreign_lease_respected "node-b" None Delivered leader
           {[ leaderKey := lease "node-a" None ]} (lease "node-a" None)).
  - apply lookup_singleton_eq.
  - discriminate.
Defined.





(** X20.  The renew interval is at least one second and at most the lease
    time.  With a lease of two seconds or more two renew intervals fit into
    the lease time; with a lease of one second the renewal comes due only
    when the lease runs out. *)
Theorem renewal_comes_before_expiry (configured : option Z) :
  leaseSeconds configured <= 9223372036 ->
  Second <= renewInterval configured <= leaseTTL configured
  /\ (2 <= leaseSeconds configured -> 2 * renewInterval configured <= leaseTTL configured)
  /\ (leaseSeconds configured = 1 -> renewInterval configured = leaseTTL configured).
Proof.
  intros H. rewrite renewInterval_eq, (leaseTTL_exact configured H).
  pose proof (leaseSeconds_pos configured) as Hpos.
  set (s := leaseSeconds configured) in *.
  assert (Hq : 2 * Z.quot (s * Second) 2 <= s * Second).
  { pose proof (Z.quot_rem' (s * Second) 2) as Hqr.
    pose proof (Z.rem_nonneg (s * Second) 2 ltac:(lia) ltac:(unfold Second; lia)). lia. }
  assert (Hhalf : 2 <= s -> Second <= Z.quot (s * Second) 2).
  { intros H2. apply Z.quot_le_lower_bound; unfold Second; lia. }
  split; [| split].
  - unfold Second in *. lia.
  - intros H2. specialize (Hhalf H2). lia.
  - intros ->. reflexivity.
Qed.

Lemma renewal_comes_before_expiry_witness :
  2 * renewInterval (Some 3) <= leaseTTL (Some 3).
Proof.
  apply (renewal_comes_before_expiry (Some 3)); vm_compute; discriminate.
Defined.

(** *** Node identities *)

Lemma append_inj_same_length (a c b d : string) :
  String.length b = String.length d ->
  a +:+ b = c +:+ d ->
  a = c /\ b = d.
Proof.
  intros Hlen. revert c. induction a as [| x a IH]; intros [| y c];
    rewrite ?GoStringsFacts.append_nil, ?GoStringsFacts.append_cons; intros H.
  - now split.
  - exfalso. rewrite H in Hlen. cbn in Hlen. rewrite GoStringsFacts.length_app in Hlen. lia.
  - exfalso. rewrite <- H in Hlen. cbn in Hlen. rewrite GoStringsFacts.length_app in Hlen. lia.
  - injection H as -> H. destruct (IH c H) as [-> ->]. now split.
Qed.

(** The host part of a node identity. *)
Definition host_part (host : string) : string :=
  if String.eqb host "" then "unknown-host"%string else host.

(** X21.  Two node identities made with identifiers of the same length
    are equal only if the identifiers are equal and the host names are (an
    empty host name counting as [unknown-host]). *)
Theorem makeNodeID_injective (host1 host2 id1 id2 : string) :
  String.length id1 = String.length id2 ->
  makeNodeID host1 id1 = makeNodeID host2 id2 ->
  host_part host1 = host_part host2 /\ id1 = id2.
Proof.
  intros Hlen. unfold makeNodeID. fold (host_part host1) (host_part host2).
  intros H. apply append_inj_same_length in H as [Hh Hi].
  - split; [exact Hh |].
    rewrite !GoStringsFacts.append_cons, !GoStringsFacts.append_nil in Hi. congruence.
  - rewrite !GoStringsFacts.length_app. congruence.
Qed.

Lemma makeNodeID_injective_witness :
  host_part "" = host_part "unknown-host".
Proof.
  apply (makeNodeID_injective "" "unknown-host" "6ba7b810" "6ba7b810");
    reflexivity.
Defined.

End ElectionSafety.

(** ** Realtime sync: what a message leads to *)

Module RealtimeReloads.

Import GoStrings GoStringsFacts realtime RealtimeProps.

(** Where [strings.Index] finds a byte, the text before it is free of it. *)
Lemma Index_byte_found (a : ascii) (s : string) :
  0 <= Index s (String a "") ->
  exists o t,
    s = o +:+ String a t
    /\ free_of a o = true
    /\ Index s (String a "") = Z.of_nat (String.length o).
Proof.
  induction s as [| c s IH]; cbn [Index].
  - rewrite HasPrefix_byte_nil. lia.
  - rewrite HasPrefix_byte. destruct (Ascii.eqb_spec c a) as [-> | Hne].
    + intros _. exists EmptyString, s. rewrite append_nil. now repeat split.
    + destruct (Z.ltb_spec (Index s (String a "")) 0) as [Hlt | Hge]; [lia |].
      intros _. destruct (IH Hge) as (o & t & -> & Hfree & Hi).
      exists (String c o), t. rewrite append_cons. split; [reflexivity |].
      split.
      * cbn [free_of]. rewrite Hfree, andb_true_r.
        apply negb_true_iff. now apply Ascii.eqb_neq.
      * rewrite Hi. cbn [String.length]. lia.
Qed.

(** X22.  A payload is read as coming from [origin] with the text [rest]
    exactly when it is [origin], a bar and [rest], with an [origin] that is
    not empty and has no bar in it. *)
Theorem split_origin_round_trip (payload origin rest : string) :
  split_origin payload = Some (origin, rest)
  <-> payload = origin +:+ "|" +:+ rest
      /\ origin <> EmptyString
      /\ free_of bar origin = true.
Proof.
  split.
  - unfold split_origin. change "|"%string with (String bar "").
    destruct (Z.gtb_spec (Index payload (String bar "")) 0) as [Hpos | Hle]; [| discriminate].
    destruct (Index_byte_found bar payload ltac:(lia)) as (o & t & -> & Hfree & Hi).
    rewrite Hi in *. rewrite Nat2Z.id, slice_0, take_app_exact. unfold slice_from.
    replace (String.length o + 1)%nat with (String.length (o +:+ String bar "")).
    2:{ rewrite length_app. reflexivity. }
    replace (o +:+ String bar t) with ((o +:+ String bar "") +:+ t).
    2:{ rewrite app_assoc. reflexivity. }
    rewrite drop_app_exact. intros H. injection H as <- <-.
    split; [now rewrite app_assoc |]. split; [| exact Hfree].
    intros ->. cbn in Hpos. lia.
  - intros (-> & Hne & Hfree). now apply split_origin_published.
Qed.

(** X23.  A message that does not carry the receiver's own instance id
    as its origin is acted on by its topic alone, whatever its payload: on the
    options topic the options are reloaded, on the channels topic the channels
    are, and a message on any other topic leads to nothing. *)
Theorem reload_whatever_the_payload (m : ModelState) (InstanceID : string) (msg : Message) :
  (forall rest, split_origin (Payload msg) <> Some (InstanceID, rest)) ->
  handle m InstanceID msg
  = if String.eqb (Channel msg) RedisTopicOptionsSync then [ReloadOptions]
    else if String.eqb (Channel msg) RedisTopicChannelsSync then safeReloadChannels m
         else [].
Proof.
  intros Hother.
  assert (Hd : forall payload,
             dispatch m (Channel msg) payload
             = if String.eqb (Channel msg) RedisTopicOptionsSync then [ReloadOptions]
               else if String.eqb (Channel msg) RedisTopicChannelsSync
                    then safeReloadChannels m else []).
  { intros payload. unfold dispatch, safeReloadOptions.
    destruct (String.eqb (Channel msg) RedisTopicOptionsSync); [| reflexivity].
    destruct (_ || _); cbn; now destruct (panics m ReloadOptions). }
  unfold handle.
  destruct (split_origin (Payload msg)) as [[originID rest] |] eqn:Hs; [| apply Hd].
  destruct (String.eqb_spec originID InstanceID) as [-> | _]; [| apply Hd].
  now destruct (Hother rest).
Qed.

Lemma reload_whatever_the_payload_witness :
  handle quiet_model "node-1"
    {| Channel := "options_sync"; Payload := "node-2|site_name=relay" |}
  = [ReloadOptions].
Proof.
  apply (reload_whatever_the_payload quiet_model "node-1"
           {| Channel := "options_sync"; Payload := "node-2|site_name=relay" |}).
  intros rest H. vm_compute in H. discriminate H.
Defined.

(** X24.  A channels reload starts with [ChannelGroup.Load].  The pricing
    table is initialised after it exactly when that call did not panic and
    the table exists; the owned-by table is loaded exactly when it exists and
    neither call before it panicked. *)
Theorem channels_reload_stops_at_a_panic (m : ModelState) :
  exists rest,
    safeReloadChannels m = ChannelGroup_Load :: rest
    /\ (In PricingInstance_Init rest
        <-> panics m ChannelGroup_Load = false /\ PricingInstance_set m = true)
    /\ (In ModelOwnedBysInstance_Load rest
        <-> panics m ChannelGroup_Load = false
            /\ ModelOwnedBysInstance_set m = true
            /\ (PricingInstance_set m = true -> panics m PricingInstance_Init = false)).
Proof.
  unfold safeReloadChannels.
  destruct (PricingInstance_set m), (ModelOwnedBysInstance_set m);
    cbn [app until_panic];
    destruct (panics m ChannelGroup_Load);
    try destruct (panics m PricingInstance_Init);
    try destruct (panics m ModelOwnedBysInstance_Load);
    eexists; (split; [reflexivity |]); cbn; intuition (try discriminate; auto).
Qed.

End RealtimeReloads.

(** ** The channel table and its cache *)

Module ChannelStoreProps.

Import model election channel_store.

(** *** The lock *)

Lemma exists_key_Del (key : string) (rdb : Redis) : exists_key key (Del key rdb) = false.
Proof. unfold exists_key, Del. cbn. now rewrite !lookup_delete_eq. Qed.

Lemma SetNX_held (key val : string) (ttl : Z) (rdb : Redis) :
  exists_key key rdb = true -> SetNX key val ttl rdb = (rdb, false).
Proof. unfold SetNX. now intros ->. Qed.

Lemma exists_key_SetNX (key val : string) (ttl : Z) (rdb : Redis) :
  exists_key key (fst (SetNX key val ttl rdb)) = true.
Proof.
  unfold SetNX. destruct (exists_key key rdb) eqn:He; cbn; [exact He |].
  unfold exists_key. cbn. now rewrite lookup_insert_eq.
Qed.

(** X25.  [GetEnableChannels] never touches a lock it did not get: when
    the lock key exists, the store is left as it is and the channels come
    from the database.  When it gets the lock, the lock is gone when it
    returns, provided the delete reaches the server.  When the lock is taken
    on the server but the reply is lost, the channels come from the database
    and the lock stays behind. *)
Theorem lock_released_or_left_alone (E : Env) (net : Net) (db : DB) (rdb rdb' : Redis)
    (result : list (ptr Channel) * option string) :
  GetEnableChannels E net db rdb = (rdb', result) ->
  (exists_key lockKey rdb = true -> rdb' = rdb /\ result = readChannelsFromDB E db)
  /\ (RedisEnabled E = true -> exists_key lockKey rdb = false ->
      net_SetNX net = Delivered -> net_Del net <> LostRequest ->
      exists_key lockKey rdb' = false)
  /\ (RedisEnabled E = true -> exists_key lockKey rdb = false ->
      net_SetNX net = LostReply ->
      exists_key lockKey rdb' = true /\ result = readChannelsFromDB E db).
Proof.
  unfold GetEnableChannels. intros H. split; [| split].
  - intros Hheld. destruct (RedisEnabled E); cbn [negb] in H.
    + rewrite (SetNX_held _ _ _ _ Hheld) in H.
      destruct (net_SetNX net); cbn in H; injection H as <- <-; now split.
    + injection H as <- <-. now split.
  - intros Hon Hfree HS HD. rewrite Hon, HS in H. cbn [negb] in H.
    unfold SetNX in H. rewrite Hfree in H. cbn in H.
    destruct (match net_LRange net with Delivered => _ | _ => _ end) as [[| j rest] |];
      [destruct (readAndCacheChannels _ _ _ _) as [r res]
      | | destruct (readAndCacheChannels _ _ _ _) as [r res]];
      injection H as <- _;
      (destruct (net_Del net); [apply exists_key_Del | congruence | apply exists_key_Del]).
  - intros Hon Hfree HS. rewrite Hon, HS in H. cbn [negb] in H.
    pose proof (exists_key_SetNX lockKey "1" (5 * Second) rdb) as Hset.
    destruct (SetNX lockKey "1" (5 * Second) rdb) as [r ok]. cbn in H, Hset.
    injection H as <- <-. now split.
Qed.

(** A table of three channels, the second of them disabled, and a codec
    that writes a channel as its name. *)
Definition channel (id : Z) (name : string) (status : Z) : Channel :=
  {| Id := id; Type_ := 1; Key := "sk-" +:+ name; Status := status; Name := name;
     Weight := None; CreatedTime := 0; TestTime := 0; ResponseTime := 0; FullURL := "";
     BaseURL := None; Other := ""; Balance := 0%float; BalanceUpdatedTime := 0;
     Models := "gpt-4"; Group := "default"; UsedQuota := 0; AsyncNum := 1;
     ModelMapping := None; Priority := None; AutoBan := None |}.

Definition east : Channel := channel 1 "east" 1.
Definition south : Channel := channel 2 "south" 3.
Definition west : Channel := channel 3 "west" 1.

Definition by_name : Env :=
  {| RedisEnabled := true;
     ChannelStatusEnabled := 1;
     ChannelStatusManuallyDisabled := 2;
     ChannelStatusAutoDisabled := 3;
     json_Marshal := Name;
     json_Unmarshal := fun s =>
       if String.eqb s "east" then Some east
       else if String.eqb s "south" then Some south
       else if String.eqb s "west" then Some west
       else None |}.

Definition table : DB := {| rows := [east; south; west]; db_error := None |}.

Definition link : Net :=
  {| net_SetNX := Delivered; net_LRange := Delivered; net_LPush := fun _ => Delivered;
     net_Expire := Delivered; net_Del := Delivered |}.

Definition cold : Redis := {| strings_ := ∅; lists := ∅; expires := ∅ |}.

Lemma lock_released_or_left_alone_witness :
  exists_key lockKey (fst (GetEnableChannels by_name link table cold)) = false.
Proof.
  refine (proj1 (proj2 (lock_released_or_left_alone by_name link table cold
                          (fst (GetEnableChannels by_name link table cold))
                          (snd (GetEnableChannels by_name link table cold))
                          (surjective_pairing _))) eq_refl _ eq_refl _).
  - reflexivity.
  - discriminate.
Defined.

(** *** A hit *)

Lemma parse_from_spec (E : Env) (val : list string) (pre : list (ptr Channel)) :
  parse_from E (length pre) val (pre ++ replicate (length val) None)
  = pre ++ (json_Unmarshal E <$> val).
Proof.
  revert pre. induction val as [| x val IH]; intros pre; cbn [parse_from].
  - reflexivity.
  - cbn [length replicate fmap list_fmap].
    assert (Hnext : forall slot : ptr Channel,
               parse_from E (S (length pre)) val (pre ++ slot :: replicate (length val) None)
               = pre ++ slot :: (json_Unmarshal E <$> val)).
    { intros slot. specialize (IH (pre ++ [slot])).
      rewrite length_app, Nat.add_1_r, <- !app_assoc in IH. exact IH. }
    destruct (json_Unmarshal E x) as [c |].
    + rewrite (insert_app_r_alt pre) by reflexivity. rewrite Nat.sub_diag. cbn. apply Hnext.
    + apply Hnext.
Qed.

Lemma LRange_SetNX (key k val : string) (ttl : Z) (rdb : Redis) :
  LRange k (fst (SetNX key val ttl rdb)) = LRange k rdb.
Proof. unfold SetNX. now destruct (exists_key key rdb). Qed.

Lemma hit_result (E : Env) (net : Net) (db : DB) (rdb : Redis) (val : list string) :
  RedisEnabled E = true ->
  net_SetNX net = Delivered ->
  net_LRange net = Delivered ->
  exists_key lockKey rdb = false ->
  LRange listKey rdb = val ->
  val <> [] ->
  snd (GetEnableChannels E net db rdb) = (json_Unmarshal E <$> val, None).
Proof.
  intros Hon HS HL Hfree Hval Hne. unfold GetEnableChannels.
  rewrite Hon, HS, HL. cbn [negb].
  pose proof (LRange_SetNX lockKey listKey "1" (5 * Second) rdb) as Hsame.
  unfold SetNX in *. rewrite Hfree in *. cbn in Hsame |- *.
  rewrite Hsame, Hval. destruct val as [| j rest]; [congruence |].
  cbn [snd]. f_equal.
  exact (parse_from_spec E (j :: rest) []).
Qed.

(** X26.  On a cache hit the result has one entry per element of the
    cached list, in the list's order: the channel the element parses to, and
    nil where it does not parse.  No error is returned and the database plays
    no part in the result. *)
Theorem cache_hit_fills_by_position (E : Env) (net : Net) (db : DB) (rdb : Redis)
    (val : list string) :
  RedisEnabled E = true ->
  net_SetNX net = Delivered ->
  net_LRange net = Delivered ->
  exists_key lockKey rdb = false ->
  LRange listKey rdb = val ->
  val <> [] ->
  let result := snd (GetEnableChannels E net db rdb) in
  snd result = None
  /\ length (fst result) = length val
  /\ (forall i jsonData,
        val !! i = Some jsonData -> fst result !! i = Some (json_Unmarshal E jsonData))
  /\ (forall db', snd (GetEnableChannels E net db' rdb) = result).
Proof.
  intros Hon HS HL Hfree Hval Hne result. unfold result.
  rewrite (hit_result E net db rdb val Hon HS HL Hfree Hval Hne). cbn [fst snd].
  split; [reflexivity |]. split; [apply length_fmap |]. split.
  - intros i jsonData Hi. now rewrite list_lookup_fmap, Hi.
  - intros db'. exact (hit_result E net db' rdb val Hon HS HL Hfree Hval Hne).
Qed.

(** A cache with an entry that is no channel. *)
Definition torn : Redis :=
  {| strings_ := ∅; lists := {[ listKey := ["west"; "{"; "east"]%string ]}; expires := ∅ |}.

Lemma cache_hit_fills_by_position_witness :
  fst (snd (GetEnableChannels by_name link table torn)) = [Some west; None; Some east].
Proof.
  destruct (cache_hit_fills_by_position by_name link table torn
              ["west"; "{"; "east"]%string eq_refl eq_refl eq_refl)
    as (_ & Hlen & Hslot & _).
  - reflexivity.
  - reflexivity.
  - discriminate.
  - pose proof (Hslot 0%nat "west"%string eq_refl) as H0.
    pose proof (Hslot 1%nat "{"%string eq_refl) as H1.
    pose proof (Hslot 2%nat "east"%string eq_refl) as H2.
    destruct (fst (snd (GetEnableChannels by_name link table torn)))
      as [| a [| b [| c [| d rest]]]]; try discriminate Hlen.
    vm_compute in H0, H1, H2.
    injection H0 as ->. injection H1 as ->. injection H2 as ->. reflexivity.
Defined.

(** *** A miss, and the hit after it *)

Lemma LRange_LPush (key val : string) (rdb : Redis) :
  LRange key (LPush key val rdb) = val :: LRange key rdb.
Proof. unfold LRange at 1, LPush. cbn. now rewrite lookup_insert_eq. Qed.

Lemma push_from_lists (E : Env) (net : Net) (channels : list Channel) (i : nat)
    (rdb : Redis) :
  (forall k, net_LPush net k <> LostRequest) ->
  LRange listKey (push_from E net i channels rdb)
  = rev (json_Marshal E <$> channels) ++ LRange listKey rdb
  /\ strings_ (push_from E net i channels rdb) = strings_ rdb
  /\ lists (push_from E net i channels rdb) !! lockKey = lists rdb !! lockKey.
Proof.
  intros Hnet. revert i rdb. induction channels as [| ch channels IH]; intros i rdb.
  - now repeat split.
  - cbn [push_from].
    set (rdb1 := send (net_LPush net i) (LPush listKey (json_Marshal E ch)) rdb).
    assert (H1 : rdb1 = LPush listKey (json_Marshal E ch) rdb).
    { unfold rdb1, send. specialize (Hnet i). now destruct (net_LPush net i). }
    destruct (IH (S i) rdb1) as (Hl & Hs & Hk). rewrite Hl, Hs, Hk, H1.
    split; [| split].
    + rewrite LRange_LPush. cbn [fmap list_fmap rev]. now rewrite <- app_assoc.
    + reflexivity.
    + unfold LPush. cbn. now rewrite lookup_insert_ne.
Qed.

Lemma exists_key_lists (key : string) (rdb : Redis) (val : list string) :
  lists rdb !! key = Some val -> exists_key key rdb = true.
Proof. unfold exists_key. intros ->. now destruct (strings_ rdb !! key). Qed.

(** What a miss leaves behind, the commands having gone through. *)
Lemma miss_result (E : Env) (net : Net) (db : DB) (rdb : Redis) :
  RedisEnabled E = true ->
  net_SetNX net = Delivered ->
  net_LRange net = Delivered ->
  (forall k, net_LPush net k <> LostRequest) ->
  net_Expire net <> LostRequest ->
  net_Del net <> LostRequest ->
  exists_key lockKey rdb = false ->
  LRange listKey rdb = [] ->
  db_error db = None ->
  List.filter (enabled E) (rows db) <> [] ->
  let after := fst (GetEnableChannels E net db rdb) in
  snd (GetEnableChannels E net db rdb) = (Some <$> List.filter (enabled E) (rows db), None)
  /\ LRange listKey after = rev (json_Marshal E <$> List.filter (enabled E) (rows db))
  /\ expires after !! listKey = Some (150 * Second)
  /\ exists_key lockKey after = false.
Proof.
  intros Hon HS HL Hpush HE HD Hfree Hempty Hdb Hrows after. unfold after.
  unfold GetEnableChannels. rewrite Hon, HS, HL. cbn [negb].
  pose proof (LRange_SetNX lockKey listKey "1" (5 * Second) rdb) as Hsame.
  unfold SetNX in *. rewrite Hfree in *. cbn in Hsame |- *.
  set (rdb0 := {| strings_ := <[lockKey := "1"%string]> (strings_ rdb);
                  lists := lists rdb;
                  expires := <[lockKey := 5 * Second]> (expires rdb) |}) in *.
  rewrite Hsame, Hempty. unfold readAndCacheChannels, Find_enabled. rewrite Hdb.
  set (chs := List.filter (enabled E) (rows db)) in *.
  destruct (push_from_lists E net chs 0 rdb0 Hpush) as (Hl & _ & _).
  rewrite Hsame, Hempty, app_nil_r in Hl.
  set (rdb1 := push_from E net 0 chs rdb0) in *.
  assert (Hkey : exists_key listKey rdb1 = true).
  { unfold LRange in Hl. destruct (lists rdb1 !! listKey) as [val |] eqn:Hv.
    - now apply exists_key_lists with (val := val).
    - cbn in Hl. destruct chs as [| c chs]; [congruence |].
      cbn in Hl. symmetry in Hl. now apply app_eq_nil in Hl as [_ Hl]. }
  assert (Hexp : send (net_Expire net) (Expire listKey (150 * Second)) rdb1
                 = {| strings_ := strings_ rdb1; lists := lists rdb1;
                      expires := <[listKey := 150 * Second]> (expires rdb1) |}).
  { unfold send, Expire. rewrite Hkey. now destruct (net_Expire net). }
  rewrite Hexp.
  assert (Hdel : forall r, send (net_Del net) (Del lockKey) r = Del lockKey r).
  { intros r. unfold send. now destruct (net_Del net). }
  rewrite Hdel. cbn [fst snd].
  split; [reflexivity |]. split; [| split].
  - unfold LRange, Del. cbn. rewrite lookup_delete_ne by discriminate. exact Hl.
  - unfold Del. cbn. rewrite lookup_delete_ne by discriminate. apply lookup_insert_eq.
  - apply exists_key_Del.
Qed.

Lemma fmap_rev_list {A B : Type} (f : A -> B) (l : list A) : f <$> rev l = rev (f <$> l).
Proof.
  induction l as [| x l IH]; [reflexivity |].
  cbn [rev fmap list_fmap]. rewrite fmap_app, IH. reflexivity.
Qed.

Lemma decode_encoded (E : Env) (channels : list Channel) :
  Forall (fun ch => json_Unmarshal E (json_Marshal E ch) = Some ch) channels ->
  json_Unmarshal E <$> (json_Marshal E <$> channels) = Some <$> channels.
Proof.
  induction 1 as [| ch channels Hch _ IH]; [reflexivity |].
  cbn [fmap list_fmap]. rewrite Hch. f_equal. exact IH.
Qed.

(** X27.  A call that finds the cache empty returns the enabled rows in
    the order of the database, and, its commands having gone through, leaves
    them in the cached list in the opposite order with 150 seconds to live.
    The next call, whatever the table holds by then, returns those rows in
    the opposite order, provided the codec reads back what it wrote. *)
Theorem cache_hands_back_the_rows_reversed (E : Env) (net : Net) (db db' : DB)
    (rdb : Redis) :
  RedisEnabled E = true ->
  net_SetNX net = Delivered ->
  net_LRange net = Delivered ->
  (forall k, net_LPush net k <> LostRequest) ->
  net_Expire net <> LostRequest ->
  net_Del net <> LostRequest ->
  exists_key lockKey rdb = false ->
  LRange listKey rdb = [] ->
  db_error db = None ->
  List.filter (enabled E) (rows db) <> [] ->
  Forall (fun ch => json_Unmarshal E (json_Marshal E ch) = Some ch) (rows db) ->
  let first := GetEnableChannels E net db rdb in
  snd first = (Some <$> List.filter (enabled E) (rows db), None)
  /\ LRange listKey (fst first) = rev (json_Marshal E <$> List.filter (enabled E) (rows db))
  /\ expires (fst first) !! listKey = Some (150 * Second)
  /\ snd (GetEnableChannels E net db' (fst first))
     = (Some <$> rev (List.filter (enabled E) (rows db)), None).
Proof.
  intros Hon HS HL Hpush HE HD Hfree Hempty Hdb Hrows Hcodec first. unfold first.
  destruct (miss_result E net db rdb Hon HS HL Hpush HE HD Hfree Hempty Hdb Hrows)
    as (Hres & Hlist & Hexp & Hlock).
  split; [exact Hres |]. split; [exact Hlist |]. split; [exact Hexp |].
  rewrite (hit_result E net db' _ _ Hon HS HL Hlock Hlist).
  - f_equal. rewrite !fmap_rev_list. f_equal. apply decode_encoded.
    apply Forall_forall. intros ch Hch.
    apply list_elem_of_In, filter_In in Hch as [Hch _].
    rewrite Forall_forall in Hcodec. apply Hcodec. now apply list_elem_of_In.
  - intros Hnil. apply (f_equal (@length _)) in Hnil.
    rewrite length_rev, length_fmap in Hnil. cbn in Hnil.
    apply Hrows. now apply nil_length_inv.
Qed.

Lemma cache_hands_back_the_rows_reversed_witness :
  snd (GetEnableChannels by_name link table cold) = ([Some east; Some west], None)
  /\ snd (GetEnableChannels by_name link {| rows := []; db_error := None |}
            (fst (GetEnableChannels by_name link table cold)))
     = ([Some west; Some east], None).
Proof.
  destruct (cache_hands_back_the_rows_reversed by_name link table
              {| rows := []; db_error := None |} cold eq_refl eq_refl eq_refl)
    as (Hfirst & _ & _ & Hsecond).
  - discriminate.
  - discriminate.
  - discriminate.
  - reflexivity.
  - reflexivity.
  - reflexivity.
  - discriminate.
  - repeat constructor.
  - split; [exact Hfirst | exact Hsecond].
Defined.

(** *** One channel *)

(** X28.  [GetChannelById] never returns nil: the channel handed back
    carries the id asked for, has an empty key unless all columns were
    selected, is the zero channel with that id whenever an error is returned,
    and [GetPriority] on it does not panic. *)
Theorem GetChannelById_never_nil (db : DB) (id : Z) (selectAll : bool) :
  exists channel,
    fst (GetChannelById db id selectAll) = Some channel
    /\ Id channel = id
    /\ (selectAll = false -> Key channel = EmptyString)
    /\ (snd (GetChannelById db id selectAll) <> None ->
        channel = with_Id id zero_Channel)
    /\ GetPriority (fst (GetChannelById db id selectAll))
       = Ok (default 0 (Priority channel)).
Proof.
  unfold GetChannelById. destruct (db_error db) as [e |].
  - eexists. cbn. repeat split.
  - destruct (List.find _ (rows db)) as [row |] eqn:Hfind.
    + apply find_some in Hfind as [_ Hid]. apply Z.eqb_eq in Hid.
      eexists. cbn [fst snd]. split; [reflexivity |].
      split; [now destruct selectAll |].
      split; [now intros -> |]. split; [congruence |].
      unfold GetPriority, default.
      destruct selectAll; cbn; destruct (Priority row); reflexivity.
    + eexists. cbn. repeat split.
Qed.

(** *** Deleting the disabled channels *)

Lemma filter_filter_implied {A : Type} (f g : A -> bool) (l : list A) :
  (forall x, f x = true -> g x = true) ->
  List.filter f (List.filter g l) = List.filter f l.
Proof.
  intros Himp. induction l as [| x l IH]; cbn; [reflexivity |].
  destruct (g x) eqn:Hg; cbn.
  - now rewrite IH.
  - destruct (f x) eqn:Hf; [| exact IH].
    apply Himp in Hf. congruence.
Qed.

Lemma filter_partition_length {A : Type} (f : A -> bool) (l : list A) :
  (length (List.filter f l) + length (List.filter (fun x => negb (f x)) l) = length l)%nat.
Proof.
  induction l as [| x l IH]; cbn; [reflexivity |].
  destruct (f x); cbn; lia.
Qed.

(** X29.  [DeleteDisabledChannel] leaves the enabled channels as they
    are, provided the status that means enabled is neither of the two it
    deletes by; the number of rows it reports and the rows it leaves add up
    to the rows there were; without an error no row with either status is
    left. *)
Theorem DeleteDisabledChannel_keeps_the_enabled (E : Env) (db db' : DB) (n : Z)
    (err : option string) :
  ChannelStatusEnabled E <> ChannelStatusAutoDisabled E ->
  ChannelStatusEnabled E <> ChannelStatusManuallyDisabled E ->
  DeleteDisabledChannel E db = (db', (n, err)) ->
  Find_enabled E db' = Find_enabled E db
  /\ n + Z.of_nat (length (rows db')) = Z.of_nat (length (rows db))
  /\ (err = None ->
      Forall (fun row => Status row <> ChannelStatusAutoDisabled E
                         /\ Status row <> ChannelStatusManuallyDisabled E) (rows db')).
Proof.
  intros Hauto Hmanual. unfold DeleteDisabledChannel, Delete_where.
  destruct (db_error db) as [e |] eqn:Hdb; intros H; injection H as <- <- <-.
  - split; [reflexivity |]. split; [lia | discriminate].
  - split; [| split].
    + unfold Find_enabled. cbn. rewrite Hdb. f_equal.
      apply filter_filter_implied. intros row Hrow. unfold enabled in Hrow.
      apply Z.eqb_eq in Hrow. rewrite Hrow.
      destruct (Z.eqb_spec (ChannelStatusEnabled E) (ChannelStatusAutoDisabled E));
        [contradiction |].
      destruct (Z.eqb_spec (ChannelStatusEnabled E) (ChannelStatusManuallyDisabled E));
        [contradiction | reflexivity].
    + cbn. pose proof (filter_partition_length
                         (fun row => (Status row =? ChannelStatusAutoDisabled E)
                                     || (Status row =? ChannelStatusManuallyDisabled E))
                         (rows db)). lia.
    + intros _. cbn. apply Forall_forall. intros row Hrow.
      apply list_elem_of_In, filter_In in Hrow as [_ Hrow].
      apply negb_true_iff, orb_false_iff in Hrow as [Ha Hm].
      apply Z.eqb_neq in Ha, Hm. now split.
Qed.

Lemma DeleteDisabledChannel_keeps_the_enabled_witness :
  rows (fst (DeleteDisabledChannel by_name table)) = [east; west]
  /\ fst (snd (DeleteDisabledChannel by_name table)) = 1.
Proof.
  destruct (DeleteDisabledChannel by_name table) as [db' [n err]] eqn:Hrun.
  destruct (DeleteDisabledChannel_keeps_the_enabled by_name table db' n err
              ltac:(discriminate) ltac:(discriminate) Hrun) as (_ & Hcount & _).
  vm_compute in Hrun. injection Hrun as <- <- <-. split; reflexivity.
Defined.

End ChannelStoreProps.
